(** * Front-end sync glue and the synchronisation engine

    A shallow embedding of the hospital-registration front end
    ([config.js], [realtime-sync.js], the on-demand refresh script and the
    instant-response script) and of the multi-database synchronisation
    engine described by the specification.

    JavaScript [async] functions are embedded as finite interaction
    programs ([Prog]): the object fields are read and written through
    [Get]/[Modify], everything the browser or the page supplies
    ([Date.now()], [fetch], the page's loader functions, registered
    callbacks) is an external event answered by an environment, [await]
    is a suspension point, and [throw] carries a JavaScript value.  Two
    semantics are given: [run] executes one call to completion against an
    environment, [step] interleaves any number of calls at their
    suspension points, as the browser's event loop does. *)

From Stdlib Require Import ZArith NArith Ascii String List Lia.
From stdpp Require Import base option list gmap strings pretty relations.

#[local] Set Warnings "-clear-no-such-hyp".

Local Open Scope string_scope.
Local Open Scope Z_scope.
Local Open Scope list_scope.

(** ** JavaScript values *)

Module Js.

(** The values that flow through the scripts: primitives, plain objects
    (JSON data) and [Error] instances.  Numbers are integers here. *)
#[warnings="-register-all"]
Inductive JsVal : Type :=
| VUndefined
| VNull
| VBool (b : bool)
| VNum (n : Z)
| VStr (s : string)
| VObj (fields : list (string * JsVal))
| VError (message : string).

(** [new Error(message)] *)
Definition new_Error (message : string) : JsVal := VError message.

(** The [TypeError] raised by a property read on [null] or [undefined]. *)
Definition TypeError_nullish : JsVal :=
  VError "Cannot read properties of null or undefined".

Definition lookup_field (name : string) (fields : list (string * JsVal))
  : JsVal :=
  match List.find (fun kv => String.eqb (fst kv) name) fields with
  | Some kv => snd kv
  | None => VUndefined
  end.

(** [v.name] for the two property names the scripts read, [message] and
    [error]: [inr] is the [TypeError] thrown on [null] and [undefined],
    primitives have no such property. *)
Definition get_prop (v : JsVal) (name : string) : JsVal + JsVal :=
  match v with
  | VUndefined | VNull => inr TypeError_nullish
  | VObj fields => inl (lookup_field name fields)
  | VError m => inl (if String.eqb name "message" then VStr m else VUndefined)
  | VBool _ | VNum _ | VStr _ => inl VUndefined
  end.

(** Truthiness, as [||], [&&] and [if] see it. *)
Definition truthy (v : JsVal) : bool :=
  match v with
  | VUndefined | VNull => false
  | VBool b => b
  | VNum n => negb (n =? 0)
  | VStr s => negb (String.eqb s "")
  | VObj _ | VError _ => true
  end.

(** [a || b] *)
Definition js_or (a b : JsVal) : JsVal := if truthy a then a else b.

(** [String(v)], also what string concatenation and template literals
    apply to an operand. *)
Definition to_string (v : JsVal) : string :=
  match v with
  | VUndefined => "undefined"
  | VNull => "null"
  | VBool true => "true"
  | VBool false => "false"
  | VNum n => pretty n
  | VStr s => s
  | VObj _ => "[object Object]"
  | VError m => "Error: " +:+ m
  end.

(** ASCII case mapping; bytes outside [a-z] / [A-Z] are left alone. *)
Definition upper_ascii (c : ascii) : ascii :=
  let n := nat_of_ascii c in
  if (Nat.leb 97 n && Nat.leb n 122)%bool then ascii_of_nat (n - 32) else c.

Definition lower_ascii (c : ascii) : ascii :=
  let n := nat_of_ascii c in
  if (Nat.leb 65 n && Nat.leb n 90)%bool then ascii_of_nat (n + 32) else c.

Fixpoint map_string (f : ascii -> ascii) (s : string) : string :=
  match s with
  | EmptyString => EmptyString
  | String c r => String (f c) (map_string f r)
  end.

(** Strings hold the UTF-8 encoding of the text.  The code points outside
    ASCII that [toUpperCase] changes, each with its upper case: the
    unconditional mappings of the Unicode Character Database
    (UnicodeData.txt and SpecialCasing.txt, version 14.0.0), which
    [String.prototype.toUpperCase] applies to every code point on its
    own. *)
Definition upper_case_table : list (N * list N) :=
  [ (0xb5, [0x39c]); (0xdf, [0x53; 0x53]); (0xe0, [0xc0]); (0xe1, [0xc1])
  ; (0xe2, [0xc2]); (0xe3, [0xc3]); (0xe4, [0xc4]); (0xe5, [0xc5])
  ; (0xe6, [0xc6]); (0xe7, [0xc7]); (0xe8, [0xc8]); (0xe9, [0xc9])
  ; (0xea, [0xca]); (0xeb, [0xcb]); (0xec, [0xcc]); (0xed, [0xcd])
  ; (0xee, [0xce]); (0xef, [0xcf]); (0xf0, [0xd0]); (0xf1, [0xd1])
  ; (0xf2, [0xd2]); (0xf3, [0xd3]); (0xf4, [0xd4]); (0xf5, [0xd5])
  ; (0xf6, [0xd6]); (0xf8, [0xd8]); (0xf9, [0xd9]); (0xfa, [0xda])
  ; (0xfb, [0xdb]); (0xfc, [0xdc]); (0xfd, [0xdd]); (0xfe, [0xde])
  ; (0xff, [0x178]); (0x101, [0x100]); (0x103, [0x102]); (0x105, [0x104])
  ; (0x107, [0x106]); (0x109, [0x108]); (0x10b, [0x10a]); (0x10d, [0x10c])
  ; (0x10f, [0x10e]); (0x111, [0x110]); (0x113, [0x112]); (0x115, [0x114])
  ; (0x117, [0x116]); (0x119, [0x118]); (0x11b, [0x11a]); (0x11d, [0x11c])
  ; (0x11f, [0x11e]); (0x121, [0x120]); (0x123, [0x122]); (0x125, [0x124])
  ; (0x127, [0x126]); (0x129, [0x128]); (0x12b, [0x12a]); (0x12d, [0x12c])
  ; (0x12f, [0x12e]); (0x131, [0x49]); (0x133, [0x132]); (0x135, [0x134])
  ; (0x137, [0x136]); (0x13a, [0x139]); (0x13c, [0x13b]); (0x13e, [0x13d])
  ; (0x140, [0x13f]); (0x142, [0x141]); (0x144, [0x143]); (0x146, [0x145])
  ; (0x148, [0x147]); (0x149, [0x2bc; 0x4e]); (0x14b, [0x14a])
  ; (0x14d, [0x14c]); (0x14f, [0x14e]); (0x151, [0x150]); (0x153, [0x152])
  ; (0x155, [0x154]); (0x157, [0x156]); (0x159, [0x158]); (0x15b, [0x15a])
  ; (0x15d, [0x15c]); (0x15f, [0x15e]); (0x161, [0x160]); (0x163, [0x162])
  ; (0x165, [0x164]); (0x167, [0x166]); (0x169, [0x168]); (0x16b, [0x16a])
  ; (0x16d, [0x16c]); (0x16f, [0x16e]); (0x171, [0x170]); (0x173, [0x172])
  ; (0x175, [0x174]); (0x177, [0x176]); (0x17a, [0x179]); (0x17c, [0x17b])
  ; (0x17e, [0x17d]); (0x17f, [0x53]); (0x180, [0x243]); (0x183, [0x182])
  ; (0x185, [0x184]); (0x188, [0x187]); (0x18c, [0x18b]); (0x192, [0x191])
  ; (0x195, [0x1f6]); (0x199, [0x198]); (0x19a, [0x23d]); (0x19e, [0x220])
  ; (0x1a1, [0x1a0]); (0x1a3, [0x1a2]); (0x1a5, [0x1a4]); (0x1a8, [0x1a7])
  ; (0x1ad, [0x1ac]); (0x1b0, [0x1af]); (0x1b4, [0x1b3]); (0x1b6, [0x1b5])
  ; (0x1b9, [0x1b8]); (0x1bd, [0x1bc]); (0x1bf, [0x1f7]); (0x1c5, [0x1c4])
  ; (0x1c6, [0x1c4]); (0x1c8, [0x1c7]); (0x1c9, [0x1c7]); (0x1cb, [0x1ca])
  ; (0x1cc, [0x1ca]); (0x1ce, [0x1cd]); (0x1d0, [0x1cf]); (0x1d2, [0x1d1])
  ; (0x1d4, [0x1d3]); (0x1d6, [0x1d5]); (0x1d8, [0x1d7]); (0x1da, [0x1d9])
  ; (0x1dc, [0x1db]); (0x1dd, [0x18e]); (0x1df, [0x1de]); (0x1e1, [0x1e0])
  ; (0x1e3, [0x1e2]); (0x1e5, [0x1e4]); (0x1e7, [0x1e6]); (0x1e9, [0x1e8])
  ; (0x1eb, [0x1ea]); (0x1ed, [0x1ec]); (0x1ef, [0x1ee])
  ; (0x1f0, [0x4a; 0x30c]); (0x1f2, [0x1f1]); (0x1f3, [0x1f1])
  ; (0x1f5, [0x1f4]); (0x1f9, [0x1f8]); (0x1fb, [0x1fa]); (0x1fd, [0x1fc])
  ; (0x1ff, [0x1fe]); (0x201, [0x200]); (0x203, [0x202]); (0x205, [0x204])
  ; (0x207, [0x206]); (0x209, [0x208]); (0x20b, [0x20a]); (0x20d, [0x20c])
  ; (0x20f, [0x20e]); (0x211, [0x210]); (0x213, [0x212]); (0x215, [0x214])
  ; (0x217, [0x216]); (0x219, [0x218]); (0x21b, [0x21a]); (0x21d, [0x21c])
  ; (0x21f, [0x21e]); (0x223, [0x222]); (0x225, [0x224]); (0x227, [0x226])
  ; (0x229, [0x228]); (0x22b, [0x22a]); (0x22d, [0x22c]); (0x22f, [0x22e])
  ; (0x231, [0x230]); (0x233, [0x232]); (0x23c, [0x23b]); (0x23f, [0x2c7e])
  ; (0x240, [0x2c7f]); (0x242, [0x241]); (0x247, [0x246]); (0x249, [0x248])
  ; (0x24b, [0x24a]); (0x24d, [0x24c]); (0x24f, [0x24e]); (0x250, [0x2c6f])
  ; (0x251, [0x2c6d]); (0x252, [0x2c70]); (0x253, [0x181]); (0x254, [0x186])
  ; (0x256, [0x189]); (0x257, [0x18a]); (0x259, [0x18f]); (0x25b, [0x190])
  ; (0x25c, [0xa7ab]); (0x260, [0x193]); (0x261, [0xa7ac]); (0x263, [0x194])
  ; (0x265, [0xa78d]); (0x266, [0xa7aa]); (0x268, [0x197]); (0x269, [0x196])
  ; (0x26a, [0xa7ae]); (0x26b, [0x2c62]); (0x26c, [0xa7ad])
  ; (0x26f, [0x19c]); (0x271, [0x2c6e]); (0x272, [0x19d]); (0x275, [0x19f])
  ; (0x27d, [0x2c64]); (0x280, [0x1a6]); (0x282, [0xa7c5]); (0x283, [0x1a9])
  ; (0x287, [0xa7b1]); (0x288, [0x1ae]); (0x289, [0x244]); (0x28a, [0x1b1])
  ; (0x28b, [0x1b2]); (0x28c, [0x245]); (0x292, [0x1b7]); (0x29d, [0xa7b2])
  ; (0x29e, [0xa7b0]); (0x345, [0x399]); (0x371, [0x370]); (0x373, [0x372])
  ; (0x377, [0x376]); (0x37b, [0x3fd]); (0x37c, [0x3fe]); (0x37d, [0x3ff])
  ; (0x390, [0x399; 0x308; 0x301]); (0x3ac, [0x386]); (0x3ad, [0x388])
  ; (0x3ae, [0x389]); (0x3af, [0x38a]); (0x3b0, [0x3a5; 0x308; 0x301])
  ; (0x3b1, [0x391]); (0x3b2, [0x392]); (0x3b3, [0x393]); (0x3b4, [0x394])
  ; (0x3b5, [0x395]); (0x3b6, [0x396]); (0x3b7, [0x397]); (0x3b8, [0x398])
  ; (0x3b9, [0x399]); (0x3ba, [0x39a]); (0x3bb, [0x39b]); (0x3bc, [0x39c])
  ; (0x3bd, [0x39d]); (0x3be, [0x39e]); (0x3bf, [0x39f]); (0x3c0, [0x3a0])
  ; (0x3c1, [0x3a1]); (0x3c2, [0x3a3]); (0x3c3, [0x3a3]); (0x3c4, [0x3a4])
  ; (0x3c5, [0x3a5]); (0x3c6, [0x3a6]); (0x3c7, [0x3a7]); (0x3c8, [0x3a8])
  ; (0x3c9, [0x3a9]); (0x3ca, [0x3aa]); (0x3cb, [0x3ab]); (0x3cc, [0x38c])
  ; (0x3cd, [0x38e]); (0x3ce, [0x38f]); (0x3d0, [0x392]); (0x3d1, [0x398])
  ; (0x3d5, [0x3a6]); (0x3d6, [0x3a0]); (0x3d7, [0x3cf]); (0x3d9, [0x3d8])
  ; (0x3db, [0x3da]); (0x3dd, [0x3dc]); (0x3df, [0x3de]); (0x3e1, [0x3e0])
  ; (0x3e3, [0x3e2]); (0x3e5, [0x3e4]); (0x3e7, [0x3e6]); (0x3e9, [0x3e8])
  ; (0x3eb, [0x3ea]); (0x3ed, [0x3ec]); (0x3ef, [0x3ee]); (0x3f0, [0x39a])
  ; (0x3f1, [0x3a1]); (0x3f2, [0x3f9]); (0x3f3, [0x37f]); (0x3f5, [0x395])
  ; (0x3f8, [0x3f7]); (0x3fb, [0x3fa]); (0x430, [0x410]); (0x431, [0x411])
  ; (0x432, [0x412]); (0x433, [0x413]); (0x434, [0x414]); (0x435, [0x415])
  ; (0x436, [0x416]); (0x437, [0x417]); (0x438, [0x418]); (0x439, [0x419])
  ; (0x43a, [0x41a]); (0x43b, [0x41b]); (0x43c, [0x41c]); (0x43d, [0x41d])
  ; (0x43e, [0x41e]); (0x43f, [0x41f]); (0x440, [0x420]); (0x441, [0x421])
  ; (0x442, [0x422]); (0x443, [0x423]); (0x444, [0x424]); (0x445, [0x425])
  ; (0x446, [0x426]); (0x447, [0x427]); (0x448, [0x428]); (0x449, [0x429])
  ; (0x44a, [0x42a]); (0x44b, [0x42b]); (0x44c, [0x42c]); (0x44d, [0x42d])
  ; (0x44e, [0x42e]); (0x44f, [0x42f]); (0x450, [0x400]); (0x451, [0x401])
  ; (0x452, [0x402]); (0x453, [0x403]); (0x454, [0x404]); (0x455, [0x405])
  ; (0x456, [0x406]); (0x457, [0x407]); (0x458, [0x408]); (0x459, [0x409])
  ; (0x45a, [0x40a]); (0x45b, [0x40b]); (0x45c, [0x40c]); (0x45d, [0x40d])
  ; (0x45e, [0x40e]); (0x45f, [0x40f]); (0x461, [0x460]); (0x463, [0x462])
  ; (0x465, [0x464]); (0x467, [0x466]); (0x469, [0x468]); (0x46b, [0x46a])
  ; (0x46d, [0x46c]); (0x46f, [0x46e]); (0x471, [0x470]); (0x473, [0x472])
  ; (0x475, [0x474]); (0x477, [0x476]); (0x479, [0x478]); (0x47b, [0x47a])
  ; (0x47d, [0x47c]); (0x47f, [0x47e]); (0x481, [0x480]); (0x48b, [0x48a])
  ; (0x48d, [0x48c]); (0x48f, [0x48e]); (0x491, [0x490]); (0x493, [0x492])
  ; (0x495, [0x494]); (0x497, [0x496]); (0x499, [0x498]); (0x49b, [0x49a])
  ; (0x49d, [0x49c]); (0x49f, [0x49e]); (0x4a1, [0x4a0]); (0x4a3, [0x4a2])
  ; (0x4a5, [0x4a4]); (0x4a7, [0x4a6]); (0x4a9, [0x4a8]); (0x4ab, [0x4aa])
  ; (0x4ad, [0x4ac]); (0x4af, [0x4ae]); (0x4b1, [0x4b0]); (0x4b3, [0x4b2])
  ; (0x4b5, [0x4b4]); (0x4b7, [0x4b6]); (0x4b9, [0x4b8]); (0x4bb, [0x4ba])
  ; (0x4bd, [0x4bc]); (0x4bf, [0x4be]); (0x4c2, [0x4c1]); (0x4c4, [0x4c3])
  ; (0x4c6, [0x4c5]); (0x4c8, [0x4c7]); (0x4ca, [0x4c9]); (0x4cc, [0x4cb])
  ; (0x4ce, [0x4cd]); (0x4cf, [0x4c0]); (0x4d1, [0x4d0]); (0x4d3, [0x4d2])
  ; (0x4d5, [0x4d4]); (0x4d7, [0x4d6]); (0x4d9, [0x4d8]); (0x4db, [0x4da])
  ; (0x4dd, [0x4dc]); (0x4df, [0x4de]); (0x4e1, [0x4e0]); (0x4e3, [0x4e2])
  ; (0x4e5, [0x4e4]); (0x4e7, [0x4e6]); (0x4e9, [0x4e8]); (0x4eb, [0x4ea])
  ; (0x4ed, [0x4ec]); (0x4ef, [0x4ee]); (0x4f1, [0x4f0]); (0x4f3, [0x4f2])
  ; (0x4f5, [0x4f4]); (0x4f7, [0x4f6]); (0x4f9, [0x4f8]); (0x4fb, [0x4fa])
  ; (0x4fd, [0x4fc]); (0x4ff, [0x4fe]); (0x501, [0x500]); (0x503, [0x502])
  ; (0x505, [0x504]); (0x507, [0x506]); (0x509, [0x508]); (0x50b, [0x50a])
  ; (0x50d, [0x50c]); (0x50f, [0x50e]); (0x511, [0x510]); (0x513, [0x512])
  ; (0x515, [0x514]); (0x517, [0x516]); (0x519, [0x518]); (0x51b, [0x51a])
  ; (0x51d, [0x51c]); (0x51f, [0x51e]); (0x521, [0x520]); (0x523, [0x522])
  ; (0x525, [0x524]); (0x527, [0x526]); (0x529, [0x528]); (0x52b, [0x52a])
  ; (0x52d, [0x52c]); (0x52f, [0x52e]); (0x561, [0x531]); (0x562, [0x532])
  ; (0x563, [0x533]); (0x564, [0x534]); (0x565, [0x535]); (0x566, [0x536])
  ; (0x567, [0x537]); (0x568, [0x538]); (0x569, [0x539]); (0x56a, [0x53a])
  ; (0x56b, [0x53b]); (0x56c, [0x53c]); (0x56d, [0x53d]); (0x56e, [0x53e])
  ; (0x56f, [0x53f]); (0x570, [0x540]); (0x571, [0x541]); (0x572, [0x542])
  ; (0x573, [0x543]); (0x574, [0x544]); (0x575, [0x545]); (0x576, [0x546])
  ; (0x577, [0x547]); (0x578, [0x548]); (0x579, [0x549]); (0x57a, [0x54a])
  ; (0x57b, [0x54b]); (0x57c, [0x54c]); (0x57d, [0x54d]); (0x57e, [0x54e])
  ; (0x57f, [0x54f]); (0x580, [0x550]); (0x581, [0x551]); (0x582, [0x552])
  ; (0x583, [0x553]); (0x584, [0x554]); (0x585, [0x555]); (0x586, [0x556])
  ; (0x587, [0x535; 0x552]); (0x10d0, [0x1c90]); (0x10d1, [0x1c91])
  ; (0x10d2, [0x1c92]); (0x10d3, [0x1c93]); (0x10d4, [0x1c94])
  ; (0x10d5, [0x1c95]); (0x10d6, [0x1c96]); (0x10d7, [0x1c97])
  ; (0x10d8, [0x1c98]); (0x10d9, [0x1c99]); (0x10da, [0x1c9a])
  ; (0x10db, [0x1c9b]); (0x10dc, [0x1c9c]); (0x10dd, [0x1c9d])
  ; (0x10de, [0x1c9e]); (0x10df, [0x1c9f]); (0x10e0, [0x1ca0])
  ; (0x10e1, [0x1ca1]); (0x10e2, [0x1ca2]); (0x10e3, [0x1ca3])
  ; (0x10e4, [0x1ca4]); (0x10e5, [0x1ca5]); (0x10e6, [0x1ca6])
  ; (0x10e7, [0x1ca7]); (0x10e8, [0x1ca8]); (0x10e9, [0x1ca9])
  ; (0x10ea, [0x1caa]); (0x10eb, [0x1cab]); (0x10ec, [0x1cac])
  ; (0x10ed, [0x1cad]); (0x10ee, [0x1cae]); (0x10ef, [0x1caf])
  ; (0x10f0, [0x1cb0]); (0x10f1, [0x1cb1]); (0x10f2, [0x1cb2])
  ; (0x10f3, [0x1cb3]); (0x10f4, [0x1cb4]); (0x10f5, [0x1cb5])
  ; (0x10f6, [0x1cb6]); (0x10f7, [0x1cb7]); (0x10f8, [0x1cb8])
  ; (0x10f9, [0x1cb9]); (0x10fa, [0x1cba]); (0x10fd, [0x1cbd])
  ; (0x10fe, [0x1cbe]); (0x10ff, [0x1cbf]); (0x13f8, [0x13f0])
  ; (0x13f9, [0x13f1]); (0x13fa, [0x13f2]); (0x13fb, [0x13f3])
  ; (0x13fc, [0x13f4]); (0x13fd, [0x13f5]); (0x1c80, [0x412])
  ; (0x1c81, [0x414]); (0x1c82, [0x41e]); (0x1c83, [0x421])
  ; (0x1c84, [0x422]); (0x1c85, [0x422]); (0x1c86, [0x42a])
  ; (0x1c87, [0x462]); (0x1c88, [0xa64a]); (0x1d79, [0xa77d])
  ; (0x1d7d, [0x2c63]); (0x1d8e, [0xa7c6]); (0x1e01, [0x1e00])
  ; (0x1e03, [0x1e02]); (0x1e05, [0x1e04]); (0x1e07, [0x1e06])
  ; (0x1e09, [0x1e08]); (0x1e0b, [0x1e0a]); (0x1e0d, [0x1e0c])
  ; (0x1e0f, [0x1e0e]); (0x1e11, [0x1e10]); (0x1e13, [0x1e12])
  ; (0x1e15, [0x1e14]); (0x1e17, [0x1e16]); (0x1e19, [0x1e18])
  ; (0x1e1b, [0x1e1a]); (0x1e1d, [0x1e1c]); (0x1e1f, [0x1e1e])
  ; (0x1e21, [0x1e20]); (0x1e23, [0x1e22]); (0x1e25, [0x1e24])
  ; (0x1e27, [0x1e26]); (0x1e29, [0x1e28]); (0x1e2b, [0x1e2a])
  ; (0x1e2d, [0x1e2c]); (0x1e2f, [0x1e2e]); (0x1e31, [0x1e30])
  ; (0x1e33, [0x1e32]); (0x1e35, [0x1e34]); (0x1e37, [0x1e36])
  ; (0x1e39, [0x1e38]); (0x1e3b, [0x1e3a]); (0x1e3d, [0x1e3c])
  ; (0x1e3f, [0x1e3e]); (0x1e41, [0x1e40]); (0x1e43, [0x1e42])
  ; (0x1e45, [0x1e44]); (0x1e47, [0x1e46]); (0x1e49, [0x1e48])
  ; (0x1e4b, [0x1e4a]); (0x1e4d, [0x1e4c]); (0x1e4f, [0x1e4e])
  ; (0x1e51, [0x1e50]); (0x1e53, [0x1e52]); (0x1e55, [0x1e54])
  ; (0x1e57, [0x1e56]); (0x1e59, [0x1e58]); (0x1e5b, [0x1e5a])
  ; (0x1e5d, [0x1e5c]); (0x1e5f, [0x1e5e]); (0x1e61, [0x1e60])
  ; (0x1e63, [0x1e62]); (0x1e65, [0x1e64]); (0x1e67, [0x1e66])
  ; (0x1e69, [0x1e68]); (0x1e6b, [0x1e6a]); (0x1e6d, [0x1e6c])
  ; (0x1e6f, [0x1e6e]); (0x1e71, [0x1e70]); (0x1e73, [0x1e72])
  ; (0x1e75, [0x1e74]); (0x1e77, [0x1e76]); (0x1e79, [0x1e78])
  ; (0x1e7b, [0x1e7a]); (0x1e7d, [0x1e7c]); (0x1e7f, [0x1e7e])
  ; (0x1e81, [0x1e80]); (0x1e83, [0x1e82]); (0x1e85, [0x1e84])
  ; (0x1e87, [0x1e86]); (0x1e89, [0x1e88]); (0x1e8b, [0x1e8a])
  ; (0x1e8d, [0x1e8c]); (0x1e8f, [0x1e8e]); (0x1e91, [0x1e90])
  ; (0x1e93, [0x1e92]); (0x1e95, [0x1e94]); (0x1e96, [0x48; 0x331])
  ; (0x1e97, [0x54; 0x308]); (0x1e98, [0x57; 0x30a])
  ; (0x1e99, [0x59; 0x30a]); (0x1e9a, [0x41; 0x2be]); (0x1e9b, [0x1e60])
  ; (0x1ea1, [0x1ea0]); (0x1ea3, [0x1ea2]); (0x1ea5, [0x1ea4])
  ; (0x1ea7, [0x1ea6]); (0x1ea9, [0x1ea8]); (0x1eab, [0x1eaa])
  ; (0x1ead, [0x1eac]); (0x1eaf, [0x1eae]); (0x1eb1, [0x1eb0])
  ; (0x1eb3, [0x1eb2]); (0x1eb5, [0x1eb4]); (0x1eb7, [0x1eb6])
  ; (0x1eb9, [0x1eb8]); (0x1ebb, [0x1eba]); (0x1ebd, [0x1ebc])
  ; (0x1ebf, [0x1ebe]); (0x1ec1, [0x1ec0]); (0x1ec3, [0x1ec2])
  ; (0x1ec5, [0x1ec4]); (0x1ec7, [0x1ec6]); (0x1ec9, [0x1ec8])
  ; (0x1ecb, [0x1eca]); (0x1ecd, [0x1ecc]); (0x1ecf, [0x1ece])
  ; (0x1ed1, [0x1ed0]); (0x1ed3, [0x1ed2]); (0x1ed5, [0x1ed4])
  ; (0x1ed7, [0x1ed6]); (0x1ed9, [0x1ed8]); (0x1edb, [0x1eda])
  ; (0x1edd, [0x1edc]); (0x1edf, [0x1ede]); (0x1ee1, [0x1ee0])
  ; (0x1ee3, [0x1ee2]); (0x1ee5, [0x1ee4]); (0x1ee7, [0x1ee6])
  ; (0x1ee9, [0x1ee8]); (0x1eeb, [0x1eea]); (0x1eed, [0x1eec])
  ; (0x1eef, [0x1eee]); (0x1ef1, [0x1ef0]); (0x1ef3, [0x1ef2])
  ; (0x1ef5, [0x1ef4]); (0x1ef7, [0x1ef6]); (0x1ef9, [0x1ef8])
  ; (0x1efb, [0x1efa]); (0x1efd, [0x1efc]); (0x1eff, [0x1efe])
  ; (0x1f00, [0x1f08]); (0x1f01, [0x1f09]); (0x1f02, [0x1f0a])
  ; (0x1f03, [0x1f0b]); (0x1f04, [0x1f0c]); (0x1f05, [0x1f0d])
  ; (0x1f06, [0x1f0e]); (0x1f07, [0x1f0f]); (0x1f10, [0x1f18])
  ; (0x1f11, [0x1f19]); (0x1f12, [0x1f1a]); (0x1f13, [0x1f1b])
  ; (0x1f14, [0x1f1c]); (0x1f15, [0x1f1d]); (0x1f20, [0x1f28])
  ; (0x1f21, [0x1f29]); (0x1f22, [0x1f2a]); (0x1f23, [0x1f2b])
  ; (0x1f24, [0x1f2c]); (0x1f25, [0x1f2d]); (0x1f26, [0x1f2e])
  ; (0x1f27, [0x1f2f]); (0x1f30, [0x1f38]); (0x1f31, [0x1f39])
  ; (0x1f32, [0x1f3a]); (0x1f33, [0x1f3b]); (0x1f34, [0x1f3c])
  ; (0x1f35, [0x1f3d]); (0x1f36, [0x1f3e]); (0x1f37, [0x1f3f])
  ; (0x1f40, [0x1f48]); (0x1f41, [0x1f49]); (0x1f42, [0x1f4a])
  ; (0x1f43, [0x1f4b]); (0x1f44, [0x1f4c]); (0x1f45, [0x1f4d])
  ; (0x1f50, [0x3a5; 0x313]); (0x1f51, [0x1f59])
  ; (0x1f52, [0x3a5; 0x313; 0x300]); (0x1f53, [0x1f5b])
  ; (0x1f54, [0x3a5; 0x313; 0x301]); (0x1f55, [0x1f5d])
  ; (0x1f56, [0x3a5; 0x313; 0x342]); (0x1f57, [0x1f5f]); (0x1f60, [0x1f68])
  ; (0x1f61, [0x1f69]); (0x1f62, [0x1f6a]); (0x1f63, [0x1f6b])
  ; (0x1f64, [0x1f6c]); (0x1f65, [0x1f6d]); (0x1f66, [0x1f6e])
  ; (0x1f67, [0x1f6f]); (0x1f70, [0x1fba]); (0x1f71, [0x1fbb])
  ; (0x1f72, [0x1fc8]); (0x1f73, [0x1fc9]); (0x1f74, [0x1fca])
  ; (0x1f75, [0x1fcb]); (0x1f76, [0x1fda]); (0x1f77, [0x1fdb])
  ; (0x1f78, [0x1ff8]); (0x1f79, [0x1ff9]); (0x1f7a, [0x1fea])
  ; (0x1f7b, [0x1feb]); (0x1f7c, [0x1ffa]); (0x1f7d, [0x1ffb])
  ; (0x1f80, [0x1f08; 0x399]); (0x1f81, [0x1f09; 0x399])
  ; (0x1f82, [0x1f0a; 0x399]); (0x1f83, [0x1f0b; 0x399])
  ; (0x1f84, [0x1f0c; 0x399]); (0x1f85, [0x1f0d; 0x399])
  ; (0x1f86, [0x1f0e; 0x399]); (0x1f87, [0x1f0f; 0x399])
  ; (0x1f88, [0x1f08; 0x399]); (0x1f89, [0x1f09; 0x399])
  ; (0x1f8a, [0x1f0a; 0x399]); (0x1f8b, [0x1f0b; 0x399])
  ; (0x1f8c, [0x1f0c; 0x399]); (0x1f8d, [0x1f0d; 0x399])
  ; (0x1f8e, [0x1f0e; 0x399]); (0x1f8f, [0x1f0f; 0x399])
  ; (0x1f90, [0x1f28; 0x399]); (0x1f91, [0x1f29; 0x399])
  ; (0x1f92, [0x1f2a; 0x399]); (0x1f93, [0x1f2b; 0x399])
  ; (0x1f94, [0x1f2c; 0x399]); (0x1f95, [0x1f2d; 0x399])
  ; (0x1f96, [0x1f2e; 0x399]); (0x1f97, [0x1f2f; 0x399])
  ; (0x1f98, [0x1f28; 0x399]); (0x1f99, [0x1f29; 0x399])
  ; (0x1f9a, [0x1f2a; 0x399]); (0x1f9b, [0x1f2b; 0x399])
  ; (0x1f9c, [0x1f2c; 0x399]); (0x1f9d, [0x1f2d; 0x399])
  ; (0x1f9e, [0x1f2e; 0x399]); (0x1f9f, [0x1f2f; 0x399])
  ; (0x1fa0, [0x1f68; 0x399]); (0x1fa1, [0x1f69; 0x399])
  ; (0x1fa2, [0x1f6a; 0x399]); (0x1fa3, [0x1f6b; 0x399])
  ; (0x1fa4, [0x1f6c; 0x399]); (0x1fa5, [0x1f6d; 0x399])
  ; (0x1fa6, [0x1f6e; 0x399]); (0x1fa7, [0x1f6f; 0x399])
  ; (0x1fa8, [0x1f68; 0x399]); (0x1fa9, [0x1f69; 0x399])
  ; (0x1faa, [0x1f6a; 0x399]); (0x1fab, [0x1f6b; 0x399])
  ; (0x1fac, [0x1f6c; 0x399]); (0x1fad, [0x1f6d; 0x399])
  ; (0x1fae, [0x1f6e; 0x399]); (0x1faf, [0x1f6f; 0x399]); (0x1fb0, [0x1fb8])
  ; (0x1fb1, [0x1fb9]); (0x1fb2, [0x1fba; 0x399]); (0x1fb3, [0x391; 0x399])
  ; (0x1fb4, [0x386; 0x399]); (0x1fb6, [0x391; 0x342])
  ; (0x1fb7, [0x391; 0x342; 0x399]); (0x1fbc, [0x391; 0x399])
  ; (0x1fbe, [0x399]); (0x1fc2, [0x1fca; 0x399]); (0x1fc3, [0x397; 0x399])
  ; (0x1fc4, [0x389; 0x399]); (0x1fc6, [0x397; 0x342])
  ; (0x1fc7, [0x397; 0x342; 0x399]); (0x1fcc, [0x397; 0x399])
  ; (0x1fd0, [0x1fd8]); (0x1fd1, [0x1fd9]); (0x1fd2, [0x399; 0x308; 0x300])
  ; (0x1fd3, [0x399; 0x308; 0x301]); (0x1fd6, [0x399; 0x342])
  ; (0x1fd7, [0x399; 0x308; 0x342]); (0x1fe0, [0x1fe8]); (0x1fe1, [0x1fe9])
  ; (0x1fe2, [0x3a5; 0x308; 0x300]); (0x1fe3, [0x3a5; 0x308; 0x301])
  ; (0x1fe4, [0x3a1; 0x313]); (0x1fe5, [0x1fec]); (0x1fe6, [0x3a5; 0x342])
  ; (0x1fe7, [0x3a5; 0x308; 0x342]); (0x1ff2, [0x1ffa; 0x399])
  ; (0x1ff3, [0x3a9; 0x399]); (0x1ff4, [0x38f; 0x399])
  ; (0x1ff6, [0x3a9; 0x342]); (0x1ff7, [0x3a9; 0x342; 0x399])
  ; (0x1ffc, [0x3a9; 0x399]); (0x214e, [0x2132]); (0x2170, [0x2160])
  ; (0x2171, [0x2161]); (0x2172, [0x2162]); (0x2173, [0x2163])
  ; (0x2174, [0x2164]); (0x2175, [0x2165]); (0x2176, [0x2166])
  ; (0x2177, [0x2167]); (0x2178, [0x2168]); (0x2179, [0x2169])
  ; (0x217a, [0x216a]); (0x217b, [0x216b]); (0x217c, [0x216c])
  ; (0x217d, [0x216d]); (0x217e, [0x216e]); (0x217f, [0x216f])
  ; (0x2184, [0x2183]); (0x24d0, [0x24b6]); (0x24d1, [0x24b7])
  ; (0x24d2, [0x24b8]); (0x24d3, [0x24b9]); (0x24d4, [0x24ba])
  ; (0x24d5, [0x24bb]); (0x24d6, [0x24bc]); (0x24d7, [0x24bd])
  ; (0x24d8, [0x24be]); (0x24d9, [0x24bf]); (0x24da, [0x24c0])
  ; (0x24db, [0x24c1]); (0x24dc, [0x24c2]); (0x24dd, [0x24c3])
  ; (0x24de, [0x24c4]); (0x24df, [0x24c5]); (0x24e0, [0x24c6])
  ; (0x24e1, [0x24c7]); (0x24e2, [0x24c8]); (0x24e3, [0x24c9])
  ; (0x24e4, [0x24ca]); (0x24e5, [0x24cb]); (0x24e6, [0x24cc])
  ; (0x24e7, [0x24cd]); (0x24e8, [0x24ce]); (0x24e9, [0x24cf])
  ; (0x2c30, [0x2c00]); (0x2c31, [0x2c01]); (0x2c32, [0x2c02])
  ; (0x2c33, [0x2c03]); (0x2c34, [0x2c04]); (0x2c35, [0x2c05])
  ; (0x2c36, [0x2c06]); (0x2c37, [0x2c07]); (0x2c38, [0x2c08])
  ; (0x2c39, [0x2c09]); (0x2c3a, [0x2c0a]); (0x2c3b, [0x2c0b])
  ; (0x2c3c, [0x2c0c]); (0x2c3d, [0x2c0d]); (0x2c3e, [0x2c0e])
  ; (0x2c3f, [0x2c0f]); (0x2c40, [0x2c10]); (0x2c41, [0x2c11])
  ; (0x2c42, [0x2c12]); (0x2c43, [0x2c13]); (0x2c44, [0x2c14])
  ; (0x2c45, [0x2c15]); (0x2c46, [0x2c16]); (0x2c47, [0x2c17])
  ; (0x2c48, [0x2c18]); (0x2c49, [0x2c19]); (0x2c4a, [0x2c1a])
  ; (0x2c4b, [0x2c1b]); (0x2c4c, [0x2c1c]); (0x2c4d, [0x2c1d])
  ; (0x2c4e, [0x2c1e]); (0x2c4f, [0x2c1f]); (0x2c50, [0x2c20])
  ; (0x2c51, [0x2c21]); (0x2c52, [0x2c22]); (0x2c53, [0x2c23])
  ; (0x2c54, [0x2c24]); (0x2c55, [0x2c25]); (0x2c56, [0x2c26])
  ; (0x2c57, [0x2c27]); (0x2c58, [0x2c28]); (0x2c59, [0x2c29])
  ; (0x2c5a, [0x2c2a]); (0x2c5b, [0x2c2b]); (0x2c5c, [0x2c2c])
  ; (0x2c5d, [0x2c2d]); (0x2c5e, [0x2c2e]); (0x2c5f, [0x2c2f])
  ; (0x2c61, [0x2c60]); (0x2c65, [0x23a]); (0x2c66, [0x23e])
  ; (0x2c68, [0x2c67]); (0x2c6a, [0x2c69]); (0x2c6c, [0x2c6b])
  ; (0x2c73, [0x2c72]); (0x2c76, [0x2c75]); (0x2c81, [0x2c80])
  ; (0x2c83, [0x2c82]); (0x2c85, [0x2c84]); (0x2c87, [0x2c86])
  ; (0x2c89, [0x2c88]); (0x2c8b, [0x2c8a]); (0x2c8d, [0x2c8c])
  ; (0x2c8f, [0x2c8e]); (0x2c91, [0x2c90]); (0x2c93, [0x2c92])
  ; (0x2c95, [0x2c94]); (0x2c97, [0x2c96]); (0x2c99, [0x2c98])
  ; (0x2c9b, [0x2c9a]); (0x2c9d, [0x2c9c]); (0x2c9f, [0x2c9e])
  ; (0x2ca1, [0x2ca0]); (0x2ca3, [0x2ca2]); (0x2ca5, [0x2ca4])
  ; (0x2ca7, [0x2ca6]); (0x2ca9, [0x2ca8]); (0x2cab, [0x2caa])
  ; (0x2cad, [0x2cac]); (0x2caf, [0x2cae]); (0x2cb1, [0x2cb0])
  ; (0x2cb3, [0x2cb2]); (0x2cb5, [0x2cb4]); (0x2cb7, [0x2cb6])
  ; (0x2cb9, [0x2cb8]); (0x2cbb, [0x2cba]); (0x2cbd, [0x2cbc])
  ; (0x2cbf, [0x2cbe]); (0x2cc1, [0x2cc0]); (0x2cc3, [0x2cc2])
  ; (0x2cc5, [0x2cc4]); (0x2cc7, [0x2cc6]); (0x2cc9, [0x2cc8])
  ; (0x2ccb, [0x2cca]); (0x2ccd, [0x2ccc]); (0x2ccf, [0x2cce])
  ; (0x2cd1, [0x2cd0]); (0x2cd3, [0x2cd2]); (0x2cd5, [0x2cd4])
  ; (0x2cd7, [0x2cd6]); (0x2cd9, [0x2cd8]); (0x2cdb, [0x2cda])
  ; (0x2cdd, [0x2cdc]); (0x2cdf, [0x2cde]); (0x2ce1, [0x2ce0])
  ; (0x2ce3, [0x2ce2]); (0x2cec, [0x2ceb]); (0x2cee, [0x2ced])
  ; (0x2cf3, [0x2cf2]); (0x2d00, [0x10a0]); (0x2d01, [0x10a1])
  ; (0x2d02, [0x10a2]); (0x2d03, [0x10a3]); (0x2d04, [0x10a4])
  ; (0x2d05, [0x10a5]); (0x2d06, [0x10a6]); (0x2d07, [0x10a7])
  ; (0x2d08, [0x10a8]); (0x2d09, [0x10a9]); (0x2d0a, [0x10aa])
  ; (0x2d0b, [0x10ab]); (0x2d0c, [0x10ac]); (0x2d0d, [0x10ad])
  ; (0x2d0e, [0x10ae]); (0x2d0f, [0x10af]); (0x2d10, [0x10b0])
  ; (0x2d11, [0x10b1]); (0x2d12, [0x10b2]); (0x2d13, [0x10b3])
  ; (0x2d14, [0x10b4]); (0x2d15, [0x10b5]); (0x2d16, [0x10b6])
  ; (0x2d17, [0x10b7]); (0x2d18, [0x10b8]); (0x2d19, [0x10b9])
  ; (0x2d1a, [0x10ba]); (0x2d1b, [0x10bb]); (0x2d1c, [0x10bc])
  ; (0x2d1d, [0x10bd]); (0x2d1e, [0x10be]); (0x2d1f, [0x10bf])
  ; (0x2d20, [0x10c0]); (0x2d21, [0x10c1]); (0x2d22, [0x10c2])
  ; (0x2d23, [0x10c3]); (0x2d24, [0x10c4]); (0x2d25, [0x10c5])
  ; (0x2d27, [0x10c7]); (0x2d2d, [0x10cd]); (0xa641, [0xa640])
  ; (0xa643, [0xa642]); (0xa645, [0xa644]); (0xa647, [0xa646])
  ; (0xa649, [0xa648]); (0xa64b, [0xa64a]); (0xa64d, [0xa64c])
  ; (0xa64f, [0xa64e]); (0xa651, [0xa650]); (0xa653, [0xa652])
  ; (0xa655, [0xa654]); (0xa657, [0xa656]); (0xa659, [0xa658])
  ; (0xa65b, [0xa65a]); (0xa65d, [0xa65c]); (0xa65f, [0xa65e])
  ; (0xa661, [0xa660]); (0xa663, [0xa662]); (0xa665, [0xa664])
  ; (0xa667, [0xa666]); (0xa669, [0xa668]); (0xa66b, [0xa66a])
  ; (0xa66d, [0xa66c]); (0xa681, [0xa680]); (0xa683, [0xa682])
  ; (0xa685, [0xa684]); (0xa687, [0xa686]); (0xa689, [0xa688])
  ; (0xa68b, [0xa68a]); (0xa68d, [0xa68c]); (0xa68f, [0xa68e])
  ; (0xa691, [0xa690]); (0xa693, [0xa692]); (0xa695, [0xa694])
  ; (0xa697, [0xa696]); (0xa699, [0xa698]); (0xa69b, [0xa69a])
  ; (0xa723, [0xa722]); (0xa725, [0xa724]); (0xa727, [0xa726])
  ; (0xa729, [0xa728]); (0xa72b, [0xa72a]); (0xa72d, [0xa72c])
  ; (0xa72f, [0xa72e]); (0xa733, [0xa732]); (0xa735, [0xa734])
  ; (0xa737, [0xa736]); (0xa739, [0xa738]); (0xa73b, [0xa73a])
  ; (0xa73d, [0xa73c]); (0xa73f, [0xa73e]); (0xa741, [0xa740])
  ; (0xa743, [0xa742]); (0xa745, [0xa744]); (0xa747, [0xa746])
  ; (0xa749, [0xa748]); (0xa74b, [0xa74a]); (0xa74d, [0xa74c])
  ; (0xa74f, [0xa74e]); (0xa751, [0xa750]); (0xa753, [0xa752])
  ; (0xa755, [0xa754]); (0xa757, [0xa756]); (0xa759, [0xa758])
  ; (0xa75b, [0xa75a]); (0xa75d, [0xa75c]); (0xa75f, [0xa75e])
  ; (0xa761, [0xa760]); (0xa763, [0xa762]); (0xa765, [0xa764])
  ; (0xa767, [0xa766]); (0xa769, [0xa768]); (0xa76b, [0xa76a])
  ; (0xa76d, [0xa76c]); (0xa76f, [0xa76e]); (0xa77a, [0xa779])
  ; (0xa77c, [0xa77b]); (0xa77f, [0xa77e]); (0xa781, [0xa780])
  ; (0xa783, [0xa782]); (0xa785, [0xa784]); (0xa787, [0xa786])
  ; (0xa78c, [0xa78b]); (0xa791, [0xa790]); (0xa793, [0xa792])
  ; (0xa794, [0xa7c4]); (0xa797, [0xa796]); (0xa799, [0xa798])
  ; (0xa79b, [0xa79a]); (0xa79d, [0xa79c]); (0xa79f, [0xa79e])
  ; (0xa7a1, [0xa7a0]); (0xa7a3, [0xa7a2]); (0xa7a5, [0xa7a4])
  ; (0xa7a7, [0xa7a6]); (0xa7a9, [0xa7a8]); (0xa7b5, [0xa7b4])
  ; (0xa7b7, [0xa7b6]); (0xa7b9, [0xa7b8]); (0xa7bb, [0xa7ba])
  ; (0xa7bd, [0xa7bc]); (0xa7bf, [0xa7be]); (0xa7c1, [0xa7c0])
  ; (0xa7c3, [0xa7c2]); (0xa7c8, [0xa7c7]); (0xa7ca, [0xa7c9])
  ; (0xa7d1, [0xa7d0]); (0xa7d7, [0xa7d6]); (0xa7d9, [0xa7d8])
  ; (0xa7f6, [0xa7f5]); (0xab53, [0xa7b3]); (0xab70, [0x13a0])
  ; (0xab71, [0x13a1]); (0xab72, [0x13a2]); (0xab73, [0x13a3])
  ; (0xab74, [0x13a4]); (0xab75, [0x13a5]); (0xab76, [0x13a6])
  ; (0xab77, [0x13a7]); (0xab78, [0x13a8]); (0xab79, [0x13a9])
  ; (0xab7a, [0x13aa]); (0xab7b, [0x13ab]); (0xab7c, [0x13ac])
  ; (0xab7d, [0x13ad]); (0xab7e, [0x13ae]); (0xab7f, [0x13af])
  ; (0xab80, [0x13b0]); (0xab81, [0x13b1]); (0xab82, [0x13b2])
  ; (0xab83, [0x13b3]); (0xab84, [0x13b4]); (0xab85, [0x13b5])
  ; (0xab86, [0x13b6]); (0xab87, [0x13b7]); (0xab88, [0x13b8])
  ; (0xab89, [0x13b9]); (0xab8a, [0x13ba]); (0xab8b, [0x13bb])
  ; (0xab8c, [0x13bc]); (0xab8d, [0x13bd]); (0xab8e, [0x13be])
  ; (0xab8f, [0x13bf]); (0xab90, [0x13c0]); (0xab91, [0x13c1])
  ; (0xab92, [0x13c2]); (0xab93, [0x13c3]); (0xab94, [0x13c4])
  ; (0xab95, [0x13c5]); (0xab96, [0x13c6]); (0xab97, [0x13c7])
  ; (0xab98, [0x13c8]); (0xab99, [0x13c9]); (0xab9a, [0x13ca])
  ; (0xab9b, [0x13cb]); (0xab9c, [0x13cc]); (0xab9d, [0x13cd])
  ; (0xab9e, [0x13ce]); (0xab9f, [0x13cf]); (0xaba0, [0x13d0])
  ; (0xaba1, [0x13d1]); (0xaba2, [0x13d2]); (0xaba3, [0x13d3])
  ; (0xaba4, [0x13d4]); (0xaba5, [0x13d5]); (0xaba6, [0x13d6])
  ; (0xaba7, [0x13d7]); (0xaba8, [0x13d8]); (0xaba9, [0x13d9])
  ; (0xabaa, [0x13da]); (0xabab, [0x13db]); (0xabac, [0x13dc])
  ; (0xabad, [0x13dd]); (0xabae, [0x13de]); (0xabaf, [0x13df])
  ; (0xabb0, [0x13e0]); (0xabb1, [0x13e1]); (0xabb2, [0x13e2])
  ; (0xabb3, [0x13e3]); (0xabb4, [0x13e4]); (0xabb5, [0x13e5])
  ; (0xabb6, [0x13e6]); (0xabb7, [0x13e7]); (0xabb8, [0x13e8])
  ; (0xabb9, [0x13e9]); (0xabba, [0x13ea]); (0xabbb, [0x13eb])
  ; (0xabbc, [0x13ec]); (0xabbd, [0x13ed]); (0xabbe, [0x13ee])
  ; (0xabbf, [0x13ef]); (0xfb00, [0x46; 0x46]); (0xfb01, [0x46; 0x49])
  ; (0xfb02, [0x46; 0x4c]); (0xfb03, [0x46; 0x46; 0x49])
  ; (0xfb04, [0x46; 0x46; 0x4c]); (0xfb05, [0x53; 0x54])
  ; (0xfb06, [0x53; 0x54]); (0xfb13, [0x544; 0x546])
  ; (0xfb14, [0x544; 0x535]); (0xfb15, [0x544; 0x53b])
  ; (0xfb16, [0x54e; 0x546]); (0xfb17, [0x544; 0x53d]); (0xff41, [0xff21])
  ; (0xff42, [0xff22]); (0xff43, [0xff23]); (0xff44, [0xff24])
  ; (0xff45, [0xff25]); (0xff46, [0xff26]); (0xff47, [0xff27])
  ; (0xff48, [0xff28]); (0xff49, [0xff29]); (0xff4a, [0xff2a])
  ; (0xff4b, [0xff2b]); (0xff4c, [0xff2c]); (0xff4d, [0xff2d])
  ; (0xff4e, [0xff2e]); (0xff4f, [0xff2f]); (0xff50, [0xff30])
  ; (0xff51, [0xff31]); (0xff52, [0xff32]); (0xff53, [0xff33])
  ; (0xff54, [0xff34]); (0xff55, [0xff35]); (0xff56, [0xff36])
  ; (0xff57, [0xff37]); (0xff58, [0xff38]); (0xff59, [0xff39])
  ; (0xff5a, [0xff3a]); (0x10428, [0x10400]); (0x10429, [0x10401])
  ; (0x1042a, [0x10402]); (0x1042b, [0x10403]); (0x1042c, [0x10404])
  ; (0x1042d, [0x10405]); (0x1042e, [0x10406]); (0x1042f, [0x10407])
  ; (0x10430, [0x10408]); (0x10431, [0x10409]); (0x10432, [0x1040a])
  ; (0x10433, [0x1040b]); (0x10434, [0x1040c]); (0x10435, [0x1040d])
  ; (0x10436, [0x1040e]); (0x10437, [0x1040f]); (0x10438, [0x10410])
  ; (0x10439, [0x10411]); (0x1043a, [0x10412]); (0x1043b, [0x10413])
  ; (0x1043c, [0x10414]); (0x1043d, [0x10415]); (0x1043e, [0x10416])
  ; (0x1043f, [0x10417]); (0x10440, [0x10418]); (0x10441, [0x10419])
  ; (0x10442, [0x1041a]); (0x10443, [0x1041b]); (0x10444, [0x1041c])
  ; (0x10445, [0x1041d]); (0x10446, [0x1041e]); (0x10447, [0x1041f])
  ; (0x10448, [0x10420]); (0x10449, [0x10421]); (0x1044a, [0x10422])
  ; (0x1044b, [0x10423]); (0x1044c, [0x10424]); (0x1044d, [0x10425])
  ; (0x1044e, [0x10426]); (0x1044f, [0x10427]); (0x104d8, [0x104b0])
  ; (0x104d9, [0x104b1]); (0x104da, [0x104b2]); (0x104db, [0x104b3])
  ; (0x104dc, [0x104b4]); (0x104dd, [0x104b5]); (0x104de, [0x104b6])
  ; (0x104df, [0x104b7]); (0x104e0, [0x104b8]); (0x104e1, [0x104b9])
  ; (0x104e2, [0x104ba]); (0x104e3, [0x104bb]); (0x104e4, [0x104bc])
  ; (0x104e5, [0x104bd]); (0x104e6, [0x104be]); (0x104e7, [0x104bf])
  ; (0x104e8, [0x104c0]); (0x104e9, [0x104c1]); (0x104ea, [0x104c2])
  ; (0x104eb, [0x104c3]); (0x104ec, [0x104c4]); (0x104ed, [0x104c5])
  ; (0x104ee, [0x104c6]); (0x104ef, [0x104c7]); (0x104f0, [0x104c8])
  ; (0x104f1, [0x104c9]); (0x104f2, [0x104ca]); (0x104f3, [0x104cb])
  ; (0x104f4, [0x104cc]); (0x104f5, [0x104cd]); (0x104f6, [0x104ce])
  ; (0x104f7, [0x104cf]); (0x104f8, [0x104d0]); (0x104f9, [0x104d1])
  ; (0x104fa, [0x104d2]); (0x104fb, [0x104d3]); (0x10597, [0x10570])
  ; (0x10598, [0x10571]); (0x10599, [0x10572]); (0x1059a, [0x10573])
  ; (0x1059b, [0x10574]); (0x1059c, [0x10575]); (0x1059d, [0x10576])
  ; (0x1059e, [0x10577]); (0x1059f, [0x10578]); (0x105a0, [0x10579])
  ; (0x105a1, [0x1057a]); (0x105a3, [0x1057c]); (0x105a4, [0x1057d])
  ; (0x105a5, [0x1057e]); (0x105a6, [0x1057f]); (0x105a7, [0x10580])
  ; (0x105a8, [0x10581]); (0x105a9, [0x10582]); (0x105aa, [0x10583])
  ; (0x105ab, [0x10584]); (0x105ac, [0x10585]); (0x105ad, [0x10586])
  ; (0x105ae, [0x10587]); (0x105af, [0x10588]); (0x105b0, [0x10589])
  ; (0x105b1, [0x1058a]); (0x105b3, [0x1058c]); (0x105b4, [0x1058d])
  ; (0x105b5, [0x1058e]); (0x105b6, [0x1058f]); (0x105b7, [0x10590])
  ; (0x105b8, [0x10591]); (0x105b9, [0x10592]); (0x105bb, [0x10594])
  ; (0x105bc, [0x10595]); (0x10cc0, [0x10c80]); (0x10cc1, [0x10c81])
  ; (0x10cc2, [0x10c82]); (0x10cc3, [0x10c83]); (0x10cc4, [0x10c84])
  ; (0x10cc5, [0x10c85]); (0x10cc6, [0x10c86]); (0x10cc7, [0x10c87])
  ; (0x10cc8, [0x10c88]); (0x10cc9, [0x10c89]); (0x10cca, [0x10c8a])
  ; (0x10ccb, [0x10c8b]); (0x10ccc, [0x10c8c]); (0x10ccd, [0x10c8d])
  ; (0x10cce, [0x10c8e]); (0x10ccf, [0x10c8f]); (0x10cd0, [0x10c90])
  ; (0x10cd1, [0x10c91]); (0x10cd2, [0x10c92]); (0x10cd3, [0x10c93])
  ; (0x10cd4, [0x10c94]); (0x10cd5, [0x10c95]); (0x10cd6, [0x10c96])
  ; (0x10cd7, [0x10c97]); (0x10cd8, [0x10c98]); (0x10cd9, [0x10c99])
  ; (0x10cda, [0x10c9a]); (0x10cdb, [0x10c9b]); (0x10cdc, [0x10c9c])
  ; (0x10cdd, [0x10c9d]); (0x10cde, [0x10c9e]); (0x10cdf, [0x10c9f])
  ; (0x10ce0, [0x10ca0]); (0x10ce1, [0x10ca1]); (0x10ce2, [0x10ca2])
  ; (0x10ce3, [0x10ca3]); (0x10ce4, [0x10ca4]); (0x10ce5, [0x10ca5])
  ; (0x10ce6, [0x10ca6]); (0x10ce7, [0x10ca7]); (0x10ce8, [0x10ca8])
  ; (0x10ce9, [0x10ca9]); (0x10cea, [0x10caa]); (0x10ceb, [0x10cab])
  ; (0x10cec, [0x10cac]); (0x10ced, [0x10cad]); (0x10cee, [0x10cae])
  ; (0x10cef, [0x10caf]); (0x10cf0, [0x10cb0]); (0x10cf1, [0x10cb1])
  ; (0x10cf2, [0x10cb2]); (0x118c0, [0x118a0]); (0x118c1, [0x118a1])
  ; (0x118c2, [0x118a2]); (0x118c3, [0x118a3]); (0x118c4, [0x118a4])
  ; (0x118c5, [0x118a5]); (0x118c6, [0x118a6]); (0x118c7, [0x118a7])
  ; (0x118c8, [0x118a8]); (0x118c9, [0x118a9]); (0x118ca, [0x118aa])
  ; (0x118cb, [0x118ab]); (0x118cc, [0x118ac]); (0x118cd, [0x118ad])
  ; (0x118ce, [0x118ae]); (0x118cf, [0x118af]); (0x118d0, [0x118b0])
  ; (0x118d1, [0x118b1]); (0x118d2, [0x118b2]); (0x118d3, [0x118b3])
  ; (0x118d4, [0x118b4]); (0x118d5, [0x118b5]); (0x118d6, [0x118b6])
  ; (0x118d7, [0x118b7]); (0x118d8, [0x118b8]); (0x118d9, [0x118b9])
  ; (0x118da, [0x118ba]); (0x118db, [0x118bb]); (0x118dc, [0x118bc])
  ; (0x118dd, [0x118bd]); (0x118de, [0x118be]); (0x118df, [0x118bf])
  ; (0x16e60, [0x16e40]); (0x16e61, [0x16e41]); (0x16e62, [0x16e42])
  ; (0x16e63, [0x16e43]); (0x16e64, [0x16e44]); (0x16e65, [0x16e45])
  ; (0x16e66, [0x16e46]); (0x16e67, [0x16e47]); (0x16e68, [0x16e48])
  ; (0x16e69, [0x16e49]); (0x16e6a, [0x16e4a]); (0x16e6b, [0x16e4b])
  ; (0x16e6c, [0x16e4c]); (0x16e6d, [0x16e4d]); (0x16e6e, [0x16e4e])
  ; (0x16e6f, [0x16e4f]); (0x16e70, [0x16e50]); (0x16e71, [0x16e51])
  ; (0x16e72, [0x16e52]); (0x16e73, [0x16e53]); (0x16e74, [0x16e54])
  ; (0x16e75, [0x16e55]); (0x16e76, [0x16e56]); (0x16e77, [0x16e57])
  ; (0x16e78, [0x16e58]); (0x16e79, [0x16e59]); (0x16e7a, [0x16e5a])
  ; (0x16e7b, [0x16e5b]); (0x16e7c, [0x16e5c]); (0x16e7d, [0x16e5d])
  ; (0x16e7e, [0x16e5e]); (0x16e7f, [0x16e5f]); (0x1e922, [0x1e900])
  ; (0x1e923, [0x1e901]); (0x1e924, [0x1e902]); (0x1e925, [0x1e903])
  ; (0x1e926, [0x1e904]); (0x1e927, [0x1e905]); (0x1e928, [0x1e906])
  ; (0x1e929, [0x1e907]); (0x1e92a, [0x1e908]); (0x1e92b, [0x1e909])
  ; (0x1e92c, [0x1e90a]); (0x1e92d, [0x1e90b]); (0x1e92e, [0x1e90c])
  ; (0x1e92f, [0x1e90d]); (0x1e930, [0x1e90e]); (0x1e931, [0x1e90f])
  ; (0x1e932, [0x1e910]); (0x1e933, [0x1e911]); (0x1e934, [0x1e912])
  ; (0x1e935, [0x1e913]); (0x1e936, [0x1e914]); (0x1e937, [0x1e915])
  ; (0x1e938, [0x1e916]); (0x1e939, [0x1e917]); (0x1e93a, [0x1e918])
  ; (0x1e93b, [0x1e919]); (0x1e93c, [0x1e91a]); (0x1e93d, [0x1e91b])
  ; (0x1e93e, [0x1e91c]); (0x1e93f, [0x1e91d]); (0x1e940, [0x1e91e])
  ; (0x1e941, [0x1e91f]); (0x1e942, [0x1e920]); (0x1e943, [0x1e921]) ]%N.

Definition upper_case_of (cp : N) : option (list N) :=
  snd <$> List.find (fun entry => N.eqb (fst entry) cp) upper_case_table.

(** The UTF-8 encoding of a code point. *)
Definition utf8 (cp : N) : string :=
  let byte (n : N) : ascii := ascii_of_N n in
  if (cp <? 0x80)%N then String (byte cp) EmptyString
  else if (cp <? 0x800)%N then
    String (byte (0xc0 + cp / 0x40)%N)
      (String (byte (0x80 + cp mod 0x40)%N) EmptyString)
  else if (cp <? 0x10000)%N then
    String (byte (0xe0 + cp / 0x1000)%N)
      (String (byte (0x80 + (cp / 0x40) mod 0x40)%N)
         (String (byte (0x80 + cp mod 0x40)%N) EmptyString))
  else
    String (byte (0xf0 + cp / 0x40000)%N)
      (String (byte (0x80 + (cp / 0x1000) mod 0x40)%N)
         (String (byte (0x80 + (cp / 0x40) mod 0x40)%N)
            (String (byte (0x80 + cp mod 0x40)%N) EmptyString))).

(** The bytes [0x80]-[0xbf], which continue a code point. *)
Definition continuation (c : ascii) : bool :=
  ((0x80 <=? N_of_ascii c) && (N_of_ascii c <? 0xc0))%N%bool.

(** The upper case of one code point outside ASCII, given with its
    encoding [bytes]; code points without a mapping stay as they are. *)
Definition upper_code_point (cp : N) (bytes : string) : string :=
  match upper_case_of cp with
  | Some mapped => String.concat EmptyString (map utf8 mapped)
  | None => bytes
  end.

(** [s.toUpperCase()]: code point by code point; a byte that starts no
    well-formed code point is left alone. *)
Fixpoint toUpperCase (s : string) : string :=
  match s with
  | EmptyString => EmptyString
  | String c1 r1 =>
      let b1 := N_of_ascii c1 in
      let skip := String (upper_ascii c1) (toUpperCase r1) in
      if (b1 <? 0x80)%N then skip
      else
        match r1 with
        | String c2 r2 =>
            let b2 := (N_of_ascii c2 - 0x80)%N in
            if negb (continuation c2) then skip
            else if ((0xc0 <=? b1) && (b1 <? 0xe0))%N%bool then
              upper_code_point ((b1 - 0xc0) * 0x40 + b2)%N
                (String c1 (String c2 EmptyString))
              +:+ toUpperCase r2
            else
              match r2 with
              | String c3 r3 =>
                  let b3 := (N_of_ascii c3 - 0x80)%N in
                  if negb (continuation c3) then skip
                  else if ((0xe0 <=? b1) && (b1 <? 0xf0))%N%bool then
                    upper_code_point
                      ((b1 - 0xe0) * 0x1000 + b2 * 0x40 + b3)%N
                      (String c1 (String c2 (String c3 EmptyString)))
                    +:+ toUpperCase r3
                  else
                    match r3 with
                    | String c4 r4 =>
                        let b4 := (N_of_ascii c4 - 0x80)%N in
                        if negb (continuation c4) then skip
                        else if ((0xf0 <=? b1) && (b1 <? 0xf8))%N%bool then
                          upper_code_point
                            ((b1 - 0xf0) * 0x40000 + b2 * 0x1000
                             + b3 * 0x40 + b4)%N
                            (String c1
                               (String c2
                                  (String c3 (String c4 EmptyString))))
                          +:+ toUpperCase r4
                        else skip
                    | EmptyString => skip
                    end
              | EmptyString => skip
              end
        | EmptyString => skip
        end
  end.

(** [s.toLowerCase()] on ASCII letters.  The scripts only search the
    lower-cased endpoint for ASCII words; of the code points outside
    ASCII, the lower case of U+212A alone is an ASCII letter ([k], which
    none of the words contains), and U+0130 becomes [i] followed by a
    combining dot, which no word continues. *)
Definition toLowerCase : string -> string := map_string lower_ascii.

(** [s.includes(pat)] *)
Fixpoint includes (pat s : string) : bool :=
  if String.prefix pat s then true
  else match s with
       | EmptyString => false
       | String _ r => includes pat r
       end.

(** The replacement text of [replace] for a string pattern
    ([GetSubstitution] without captures): in [template], [$$] stands for
    a dollar sign, [$&] for the matched text, [$`] for the text before
    the match and [$'] for the text after it; every other [$] stands for
    itself. *)
Fixpoint substitution (matched before after template : string) : string :=
  match template with
  | EmptyString => EmptyString
  | String c r =>
      if Ascii.eqb c "$" then
        match r with
        | String d r' =>
            if Ascii.eqb d "$" then
              String "$" (substitution matched before after r')
            else if Ascii.eqb d "&" then
              matched +:+ substitution matched before after r'
            else if Ascii.eqb d "`" then
              before +:+ substitution matched before after r'
            else if Ascii.eqb d "'" then
              after +:+ substitution matched before after r'
            else String c (substitution matched before after r)
        | EmptyString => String c EmptyString
        end
      else String c (substitution matched before after r)
  end.

(** [replace] below, from the position after [before]. *)
Fixpoint replace_from (pat by_ before s : string) : string :=
  if String.prefix pat s
  then let after := String.substring (String.length pat)
                      (String.length s - String.length pat) s in
       substitution pat before after by_ +:+ after
  else match s with
       | EmptyString => EmptyString
       | String c r =>
           String c (replace_from pat by_ (before +:+ String c EmptyString) r)
       end.

(** [s.replace(pat, by)] with a string pattern and a replacement string:
    the first occurrence. *)
Definition replace (pat by_ s : string) : string :=
  replace_from pat by_ EmptyString s.

End Js.
Export Js.

(** ** Asynchronous programs *)

Module Async.

(** How a promise settles. *)
Inductive Completion (A : Type) : Type :=
| Resolved (a : A)
| Rejected (e : JsVal).
Arguments Resolved {A} a.
Arguments Rejected {A} e.

(** A reference to a function the scripts are handed but do not define:
    a global of the page, or a callback that was registered. *)
Inductive FnRef : Type :=
| Global (name : string)
| Callback (id : nat).

Inductive Body : Type :=
| RawBody (s : string)
| JsonStringify (v : JsVal).

(** The [options] / [init] object of a request. *)
Record Options : Type := {
  method : option string;
  body : option Body;
  headers : option (list (string * string));
}.

(** What [fetch] resolves to; [json] is how [response.json()] settles
    (it rejects when the body is not JSON). *)
Record Response : Type := {
  status : Z;
  json : Completion JsVal;
}.

(** [response.ok]: the status is in the range 200-299. *)
Definition ok (r : Response) : bool :=
  ((200 <=? status r) && (status r <=? 299))%bool.

(** External events.  [DateNow], [TypeofFunction] and the two DOM reads
    are answered on the spot; the others suspend the caller. *)
Inductive Ext : Type -> Type :=
| DateNow : Ext Z
| TypeofFunction (name : string) : Ext bool
| ActiveSectionId : Ext (option string)
| DeptSelectValue : Ext (option string)
| Call (f : FnRef) (args : list JsVal) : Ext (Completion JsVal)
| Fetch (url : string) (init : Options) : Ext (Completion Response)
| Sleep (ms : Z) : Ext unit
| Yield : Ext unit.

Definition is_async {X} (e : Ext X) : bool :=
  match e with
  | DateNow | TypeofFunction _ | ActiveSectionId | DeptSelectValue => false
  | Call _ _ | Fetch _ _ | Sleep _ | Yield => true
  end.

Inductive Level : Type := LogLevel | ErrorLevel.

(** Programs over an object state [S] with result [R]. *)
Inductive Prog (S R : Type) : Type :=
| Ret (r : R)
| Throw (e : JsVal)
| Get (k : S -> Prog S R)
| Modify (f : S -> S) (k : Prog S R)
| Log (l : Level) (args : list JsVal) (k : Prog S R)
| Vis {X : Type} (e : Ext X) (k : X -> Prog S R)
| Fork (child : Prog S JsVal) (k : Prog S R).
Arguments Ret {S R} r.
Arguments Throw {S R} e.
Arguments Get {S R} k.
Arguments Modify {S R} f k.
Arguments Log {S R} l args k.
Arguments Vis {S R X} e k.
Arguments Fork {S R} child k.

Fixpoint bind {S A B} (p : Prog S A) (f : A -> Prog S B) : Prog S B :=
  match p with
  | Ret r => f r
  | Throw e => Throw e
  | Get k => Get (fun s => bind (k s) f)
  | Modify g k => Modify g (bind k f)
  | Log l a k => Log l a (bind k f)
  | Vis e k => Vis e (fun x => bind (k x) f)
  | Fork c k => Fork c (bind k f)
  end.

#[export] Instance Prog_ret {S} : MRet (Prog S) := fun _ r => Ret r.
#[export] Instance Prog_bind {S} : MBind (Prog S) :=
  fun _ _ f p => bind p f.

(** [try { p } catch (e) { h e }] *)
Fixpoint try_catch {S R} (p : Prog S R) (h : JsVal -> Prog S R)
  : Prog S R :=
  match p with
  | Ret r => Ret r
  | Throw e => h e
  | Get k => Get (fun s => try_catch (k s) h)
  | Modify g k => Modify g (try_catch k h)
  | Log l a k => Log l a (try_catch k h)
  | Vis e k => Vis e (fun x => try_catch (k x) h)
  | Fork c k => Fork c (try_catch k h)
  end.

(** [try { p } finally { q }]: [q] runs on both exits, and an exception
    of [q] replaces the pending completion. *)
Fixpoint try_finally {S R} (p : Prog S R) (q : Prog S unit) : Prog S R :=
  match p with
  | Ret r => bind q (fun _ => Ret r)
  | Throw e => bind q (fun _ => Throw e)
  | Get k => Get (fun s => try_finally (k s) q)
  | Modify g k => Modify g (try_finally k q)
  | Log l a k => Log l a (try_finally k q)
  | Vis e k => Vis e (fun x => try_finally (k x) q)
  | Fork c k => Fork c (try_finally k q)
  end.

Definition get {S} : Prog S S := Get Ret.
Definition gets {S A} (f : S -> A) : Prog S A := Get (fun s => Ret (f s)).
Definition modify {S} (f : S -> S) : Prog S unit := Modify f (Ret tt).
Definition console_log {S} (args : list JsVal) : Prog S unit :=
  Log LogLevel args (Ret tt).
Definition console_error {S} (args : list JsVal) : Prog S unit :=
  Log ErrorLevel args (Ret tt).
Definition ext {S X} (e : Ext X) : Prog S X := Vis e Ret.
Definition throw {S R} (e : JsVal) : Prog S R := Throw e.

(** [await p] of a promise: the settled value, or its rejection thrown. *)
Definition settle {S A} (c : Completion A) : Prog S A :=
  match c with
  | Resolved a => Ret a
  | Rejected e => Throw e
  end.

(** [await f(args)] for a function reference. *)
Definition await_call {S} (f : FnRef) (args : list JsVal) : Prog S JsVal :=
  c ← ext (Call f args); settle c.

(** The promise a call of an [async] function returns. *)
Definition capture {S A} (p : Prog S A) : Prog S (Completion A) :=
  try_catch (a ← p; Ret (Resolved a)) (fun e => Ret (Rejected e)).

(** [await p] where [p] is a call of one of the scripts' own [async]
    functions: the callee runs, then the caller is resumed in a later
    turn of the event loop. *)
Definition await {S A} (p : Prog S A) : Prog S A :=
  c ← capture p; ext Yield;; settle c.

(** A function as a call [f(args)] sees it: the call runs in the caller's
    turn, where it may throw, and returns a promise, given here by the
    computation that settles it.  (A function that returns another value
    returns, for [await], a promise resolved with it.) *)
Definition Callee (S R : Type) : Type := Prog S (Prog S R).

(** The call of an [async] function: it never throws, whatever its body
    does is in the promise. *)
Definition async_function {S R} (body : Prog S R) : Callee S R := Ret body.

(** [await f(args)]: an exception of the call itself is thrown on the
    spot; otherwise the caller is resumed when the promise has settled. *)
Definition await_of {S R} (call : Callee S R) : Prog S R :=
  promise ← call; await promise.

(** What a call comes to, by an exception of the call or by its
    promise. *)
Definition invoke {S R} (call : Callee S R) : Prog S R :=
  promise ← call; promise.

(** [for (const x of xs) { body x }] *)
Fixpoint for_of {S A} (xs : list A) (body : A -> Prog S unit)
  : Prog S unit :=
  match xs with
  | [] => Ret tt
  | x :: rest => body x;; for_of rest body
  end.

(** [zoom view over p] runs a program over a component of a larger
    state. *)
Fixpoint zoom {S T : Type} {R : Type} (view : T -> S) (over : (S -> S) -> T -> T)
    (p : Prog S R) : Prog T R :=
  match p with
  | Ret r => Ret r
  | Throw e => Throw e
  | Get k => Get (fun t => zoom view over (k (view t)))
  | Modify g k => Modify (over g) (zoom view over k)
  | Log l a k => Log l a (zoom view over k)
  | Vis e k => Vis e (fun x => zoom view over (k x))
  | Fork c k => Fork (zoom view over c) (zoom view over k)
  end.

(** *** Semantics *)

(** The environment answers the [n]-th external event. *)
Definition Env : Type := forall X, Ext X -> nat -> X.

(** An environment given by what the page and the server do. *)
Record World : Type := {
  now : nat -> Z;
  typeof_function : string -> bool;
  active_section : nat -> option string;
  dept_select : nat -> option string;
  call_result : FnRef -> list JsVal -> nat -> Completion JsVal;
  fetch_result : string -> Options -> nat -> Completion Response;
}.

Definition env_of (w : World) : Env :=
  fun X e n =>
    match e in Ext X return X with
    | DateNow => now w n
    | TypeofFunction name => typeof_function w name
    | ActiveSectionId => active_section w n
    | DeptSelectValue => dept_select w n
    | Call f args => call_result w f args n
    | Fetch url init => fetch_result w url init n
    | Sleep _ => tt
    | Yield => tt
    end.

Inductive Obs : Type :=
| Console (l : Level) (args : list JsVal)
| Event {X : Type} (e : Ext X) (answer : X).

(** The function calls recorded in a trace. *)
Definition called (o : Obs) : option (FnRef * list JsVal) :=
  match o with
  | Console _ _ => None
  | Event e _ =>
      match e with
      | Call f args => Some (f, args)
      | _ => None
      end
  end.

Definition calls (t : list Obs) : list (FnRef * list JsVal) := omap called t.

Inductive Outcome (R : Type) : Type :=
| Returned (r : R)
| Threw (e : JsVal).
Arguments Returned {R} r.
Arguments Threw {R} e.

(** A suspended computation: the event it waits on and what follows. *)
Inductive Blocked (S R : Type) : Type :=
| Wait {X : Type} (e : Ext X) (k : X -> Prog S R).
Arguments Wait {S R X} e k.

Inductive Status (S R : Type) : Type :=
| Done (o : Outcome R)
| Suspended (b : Blocked S R).
Arguments Done {S R} o.
Arguments Suspended {S R} b.

(** The machine: object state, count of external events answered so
    far, the observable trace (latest first) and the detached
    computations started by calls that were not awaited. *)
Record Cfg (S : Type) : Type := {
  st : S;
  tick : nat;
  trace : list Obs;
  detached : list (Blocked S JsVal);
}.
Arguments st {S} c.
Arguments tick {S} c.
Arguments trace {S} c.
Arguments detached {S} c.

Definition set_st {S} (f : S -> S) (c : Cfg S) : Cfg S :=
  {| st := f (st c); tick := tick c; trace := trace c;
     detached := detached c |}.
Definition observe {S} (o : Obs) (c : Cfg S) : Cfg S :=
  {| st := st c; tick := tick c; trace := o :: trace c;
     detached := detached c |}.
Definition answered {S X} (e : Ext X) (x : X) (c : Cfg S) : Cfg S :=
  {| st := st c; tick := Datatypes.S (tick c);
     trace := Event e x :: trace c; detached := detached c |}.
Definition detach {S} (s : Status S JsVal) (c : Cfg S) : Cfg S :=
  match s with
  | Done _ => c
  | Suspended b =>
      {| st := st c; tick := tick c; trace := trace c;
         detached := b :: detached c |}
  end.

Definition set_detached {S} (d : list (Blocked S JsVal)) (c : Cfg S)
  : Cfg S :=
  {| st := st c; tick := tick c; trace := trace c; detached := d |}.

(** A detached computation after one more turn: it stays detached while
    it is suspended. *)
Definition resumed {S} (r : Status S JsVal * Cfg S) : Cfg S :=
  detach (fst r) (snd r).

Definition start {S} (s : S) : Cfg S :=
  {| st := s; tick := 0%nat; trace := []; detached := [] |}.

(** One turn: run [p] up to its next suspension point.  A call that is
    not awaited runs its own first turn in place. *)
Fixpoint advance {S : Type} {R : Type} (env : Env) (p : Prog S R) (c : Cfg S)
  : Status S R * Cfg S :=
  match p with
  | Ret r => (Done (Returned r), c)
  | Throw e => (Done (Threw e), c)
  | Get k => advance env (k (st c)) c
  | Modify f k => advance env k (set_st f c)
  | Log l a k => advance env k (observe (Console l a) c)
  | Vis e k =>
      if is_async e then (Suspended (Wait e k), c)
      else let x := env _ e (tick c) in advance env (k x) (answered e x c)
  | Fork child k =>
      let '(s, c') := advance env child c in
      advance env k (detach s c')
  end.

(** A whole call, with nothing else running in between: every awaited
    event is answered by the environment at once. *)
Fixpoint run {S : Type} {R : Type} (env : Env) (p : Prog S R) (c : Cfg S)
  : Outcome R * Cfg S :=
  match p with
  | Ret r => (Returned r, c)
  | Throw e => (Threw e, c)
  | Get k => run env (k (st c)) c
  | Modify f k => run env k (set_st f c)
  | Log l a k => run env k (observe (Console l a) c)
  | Vis e k =>
      let x := env _ e (tick c) in run env (k x) (answered e x c)
  | Fork child k =>
      let '(s, c') := advance env child c in
      run env k (detach s c')
  end.

(** The event loop: calls of entry points [o : O] interleaved at their
    suspension points. *)
Record Sys (S O : Type) : Type := {
  cfg : Cfg S;
  pool : list (O * Blocked S JsVal);
}.
Arguments cfg {S O} s.
Arguments pool {S O} s.

Definition settled {S O} (o : O) (r : Status S JsVal * Cfg S)
    (others : list (O * Blocked S JsVal)) : Sys S O :=
  match fst r with
  | Done _ => {| cfg := snd r; pool := others |}
  | Suspended b => {| cfg := snd r; pool := (o, b) :: others |}
  end.

Inductive step {S O} (entry : O -> Prog S JsVal) (env : Env)
  : Sys S O -> Sys S O -> Prop :=
| step_call (o : O) (s : Sys S O) :
    step entry env s (settled o (advance env (entry o) (cfg s)) (pool s))
| step_resume (o : O) {X} (e : Ext X) (k : X -> Prog S JsVal) (x : X)
    (before after : list (O * Blocked S JsVal)) (c : Cfg S) :
    step entry env
      {| cfg := c; pool := before ++ (o, Wait e k) :: after |}
      (settled o (advance env (k x) (answered e x c)) (before ++ after))
| step_detached {X} (e : Ext X) (k : X -> Prog S JsVal) (x : X)
    (before after : list (Blocked S JsVal)) (c : Cfg S)
    (p : list (O * Blocked S JsVal)) :
    detached c = before ++ Wait e k :: after ->
    step entry env {| cfg := c; pool := p |}
      {| cfg := resumed (advance env (k x)
                           (answered e x (set_detached (before ++ after) c)));
         pool := p |}.

Definition initial {S O} (s : S) : Sys S O :=
  {| cfg := start s; pool := [] |}.

Definition reachable {S O} (entry : O -> Prog S JsVal) (env : Env)
    (s0 : S) (s : Sys S O) : Prop :=
  rtc (step entry env) (initial s0) s.

End Async.
Export Async.

(** ** [config.js] *)

Module Config.

(** What the browser keeps for the page: [localStorage] and
    [window.location.href]. *)
Record Browser : Type := {
  localStorage : gmap string string;
  location_href : string;
}.

Definition removeItem (key : string) (b : Browser) : Browser :=
  {| localStorage := delete key (localStorage b);
     location_href := location_href b |}.

Definition set_href (url : string) (b : Browser) : Browser :=
  {| localStorage := localStorage b; location_href := url |}.

Definition API_BASE_URL : string := "http://127.0.0.1:50002/api".

(** [getApiUrl(endpoint, params)]: every [{key}] placeholder is replaced,
    in the order of the keys of [params]. *)
Definition getApiUrl (endpoint : string) (params : list (string * string))
  : string :=
  fold_left
    (fun url kv => Js.replace ("{" +:+ fst kv +:+ "}") (snd kv) url)
    params (API_BASE_URL +:+ endpoint).

(** [getAuthHeaders()] *)
Definition getAuthHeaders (b : Browser) : list (string * string) :=
  match localStorage b !! "token" with
  | Some token =>
      if String.eqb token "" then []
      else [("Authorization", "Bearer " +:+ token)]
  | None => []
  end.

(** The second argument of [apiRequest]: a method name, or an options
    object. *)
Inductive MethodOrOptions : Type :=
| AsMethod (m : string)
| AsOptions (o : Options).

Definition no_options : Options :=
  {| method := None; body := None; headers := None |}.

Definition body_val (b : Body) : JsVal :=
  match b with
  | RawBody s => VStr s
  | JsonStringify v => v
  end.

(** An options object as a value, for the debug log. *)
Definition options_val (o : Options) : JsVal :=
  VObj ((match method o with Some m => [("method", VStr m)] | None => [] end)
        ++ (match body o with
            | Some b => [("body", body_val b)]
            | None => []
            end)
        ++ (match headers o with
            | Some h => [("headers", VObj (map (fun kv => (fst kv, VStr (snd kv))) h))]
            | None => []
            end)).

(** [{ ...defaultOptions, ...options }] *)
Definition merge_options (default_headers : list (string * string))
    (o : Options) : Options :=
  {| method := method o;
     body := body o;
     headers := match headers o with
                | Some h => Some h
                | None => Some default_headers
                end |}.

(** [apiRequest(endpoint, methodOrOptions = {}, body = null)] for a string
    [endpoint]. *)
Definition apiRequest (endpoint : string)
    (methodOrOptions : MethodOrOptions) (body : JsVal)
  : Prog Browser JsVal :=
  let url := getApiUrl endpoint [] in
  let options :=
    match methodOrOptions with
    | AsMethod m =>
        {| method := Some m;
           body := if truthy body then Some (JsonStringify body) else None;
           headers := None |}
    | AsOptions o => o
    end in
  b ← get;
  let default_headers :=
    ("Content-Type", "application/json") :: getAuthHeaders b in
  console_log [VStr "API Request:"; VStr url; options_val options];;
  r ← ext (Fetch url (merge_options default_headers options));
  response ← settle r;
  console_log [VStr "API Response Status:"; VNum (status response)];;
  if status response =? 401 then
    modify (removeItem "token");;
    modify (removeItem "role");;
    modify (removeItem "username");;
    modify (removeItem "user_id");;
    modify (set_href "login.html");;
    Ret VUndefined
  else
    ext Yield;;
    data ← settle (json response);
    console_log [VStr "API Response Data:"; data];;
    if negb (ok response) then
      match get_prop data "error" with
      | inl err => throw (new_Error (to_string (js_or err (VStr "Request failed"))))
      | inr type_error => throw type_error
      end
    else Ret data.

End Config.

(** ** The on-demand refresh script: [class OnDemandRefresh] *)

Module OnDemandRefresh.

Record State : Type := {
  isRefreshing : bool;
  lastRefreshTime : gmap string Z;
  refreshCooldown : Z;
}.

(** [constructor()] *)
Definition constructor : State :=
  {| isRefreshing := false; lastRefreshTime := ∅; refreshCooldown := 0 |}.

Definition set_isRefreshing (b : bool) (s : State) : State :=
  {| isRefreshing := b; lastRefreshTime := lastRefreshTime s;
     refreshCooldown := refreshCooldown s |}.

Definition set_lastRefreshTime (section : string) (t : Z) (s : State)
  : State :=
  {| isRefreshing := isRefreshing s;
     lastRefreshTime := <[section := t]> (lastRefreshTime s);
     refreshCooldown := refreshCooldown s |}.

(** [shouldRefresh(sectionName)] *)
Definition shouldRefresh (sectionName : string) : Prog State bool :=
  s ← get;
  let lastTime := default 0 (lastRefreshTime s !! sectionName) in
  now ← ext DateNow;
  Ret (refreshCooldown s <? now - lastTime).

(** [recordRefresh(sectionName)] *)
Definition recordRefresh (sectionName : string) : Prog State unit :=
  now ← ext DateNow;
  modify (set_lastRefreshTime sectionName now).

(** [getCurrentSection()] *)
Definition getCurrentSection : Prog State string :=
  active ← ext ActiveSectionId;
  match active with
  | Some id => Ret (Js.replace "section-" "" id)
  | None => Ret "booking"
  end.

(** The property names every object literal inherits from
    [Object.prototype]; none of them holds an iterable. *)
Definition Object_prototype_keys : list string :=
  [ "constructor"; "toString"; "toLocaleString"; "valueOf";
    "hasOwnProperty"; "isPrototypeOf"; "propertyIsEnumerable";
    "__proto__"; "__defineGetter__"; "__defineSetter__";
    "__lookupGetter__"; "__lookupSetter__" ].

(** [getSectionsToRefresh(actionType, targetSection)].  The object literal
    is built on every call, so the current section is looked up whenever
    [targetSection] is falsy.  [None] is a value of the prototype, which
    the caller's [for ... of] cannot iterate. *)
Definition getSectionsToRefresh (actionType : string)
    (targetSection : option string) : Prog State (option (list string)) :=
  manual ← match targetSection with
           | Some t => if String.eqb t "" then getCurrentSection else Ret t
           | None => getCurrentSection
           end;
  Ret (if String.eqb actionType "create_registration"
       then Some ["myRegistrations"; "booking"]
       else if String.eqb actionType "cancel_registration"
       then Some ["myRegistrations"]
       else if String.eqb actionType "update_profile" then Some ["profile"]
       else if String.eqb actionType "manual_refresh" then Some [manual]
       else if String.eqb actionType "section_switch" then Some []
       else if existsb (String.eqb actionType) Object_prototype_keys
       then None
       else Some []).

Definition not_iterable : JsVal := VError "sectionsToRefresh is not iterable".

(** [if (typeof name === 'function') { await name(); }] *)
Definition call_if_function {S} (name : string) : Prog S unit :=
  defined ← ext (TypeofFunction name);
  if defined : bool then await_call (Global name) [];; Ret tt else Ret tt.

(** [refreshSection(sectionName)] *)
Definition refreshSection (sectionName : string) : Prog State JsVal :=
  console_log [VStr ("刷新section: " +:+ sectionName)];;
  try_catch
    (if String.eqb sectionName "myRegistrations" then
       call_if_function "loadRegistrations"
     else if String.eqb sectionName "booking" then
       call_if_function "loadDepartments";;
       deptSelect ← ext DeptSelectValue;
       match deptSelect with
       | Some value =>
           if String.eqb value "" then Ret tt
           else call_if_function "onDeptSelect"
       | None => Ret tt
       end
     else if String.eqb sectionName "profile" then
       call_if_function "loadProfile"
     else
       console_log [VStr ("未知的section: " +:+ sectionName)])
    (fun error =>
       console_error [VStr ("刷新" +:+ sectionName +:+ "失败:"); error];;
       throw error);;
  Ret VUndefined.

(** [showToast(message, type)] *)
Definition showToast (message type : string) : Prog State unit :=
  console_log [VStr ("Toast提示: " +:+ message +:+ " (" +:+ type +:+ ")")].

(** [String(v)] for the values that an object literal inherits from
    [Object.prototype] under the names of [Object_prototype_keys]:
    [__proto__] is the prototype object, the others are built-in
    functions, printed here as V8 prints them. *)
Definition inherited_text (name : string) : string :=
  if String.eqb name "__proto__" then "[object Object]"
  else if String.eqb name "constructor"
  then "function Object() { [native code] }"
  else "function " +:+ name +:+ "() { [native code] }".

(** [showRefreshComplete(actionType)]; [messages[actionType]] is an
    inherited value, which is truthy, for the names of
    [Object_prototype_keys]. *)
Definition showRefreshComplete (actionType : string) : Prog State unit :=
  let message :=
    if String.eqb actionType "create_registration"
    then "挂号成功，数据已更新"
    else if String.eqb actionType "cancel_registration"
    then "挂号已取消，数据已更新"
    else if String.eqb actionType "update_profile" then "个人信息已更新"
    else if String.eqb actionType "manual_refresh" then "数据已刷新"
    else if existsb (String.eqb actionType) Object_prototype_keys
    then inherited_text actionType
    else "操作完成" in
  showToast message "success".

(** [showRefreshError(errorMessage)] *)
Definition showRefreshError (errorMessage : JsVal) : Prog State unit :=
  showToast ("刷新失败: " +:+ to_string errorMessage) "error".

(** The body of the [try] block of [refreshAfterUserAction]. *)
Definition refreshBody (actionType : string) (targetSection : option string)
  : Prog State unit :=
  console_log [VStr ("用户操作后刷新: " +:+ actionType)];;
  sectionsToRefresh ← getSectionsToRefresh actionType targetSection;
  match sectionsToRefresh with
  | None => throw not_iterable
  | Some sections =>
      for_of sections (fun section =>
        should ← shouldRefresh section;
        if should : bool then
          await (refreshSection section);;
          recordRefresh section
        else Ret tt)
  end;;
  showRefreshComplete actionType.

(** The [catch (error)] block of [refreshAfterUserAction]. *)
Definition refreshCatch (error : JsVal) : Prog State unit :=
  console_error [VStr "刷新失败:"; error];;
  match get_prop error "message" with
  | inl message => showRefreshError message
  | inr type_error => throw type_error
  end.

(** [refreshAfterUserAction(actionType, targetSection = null)] *)
Definition refreshAfterUserAction (actionType : string)
    (targetSection : option string) : Prog State JsVal :=
  s ← get;
  if isRefreshing s then
    console_log [VStr "正在刷新中，跳过重复刷新"];;
    Ret VUndefined
  else
    modify (set_isRefreshing true);;
    try_finally
      (try_catch (refreshBody actionType targetSection) refreshCatch)
      (modify (set_isRefreshing false));;
    Ret VUndefined.

(** [refreshCurrentSection()] *)
Definition refreshCurrentSection : Prog State JsVal :=
  currentSection ← getCurrentSection;
  console_log [VStr ("刷新当前section: " +:+ currentSection)];;
  try_catch
    (await (refreshSection currentSection);;
     recordRefresh currentSection)
    (fun error => console_error [VStr "刷新当前section失败:"; error]);;
  Ret VUndefined.

(** [manualRefresh()] *)
Definition manualRefresh : Prog State JsVal :=
  currentSection ← getCurrentSection;
  await (refreshAfterUserAction "manual_refresh" (Some currentSection));;
  Ret VUndefined.

End OnDemandRefresh.

(** ** The objects installed on [window] *)

(** Fields of [class RealtimeSync]. *)
Module RealtimeSyncObject.

Record State : Type := {
  pendingOperations : gset string;
  syncCallbacks : gmap string (list FnRef);
  isEnabled : bool;
}.

(** [constructor()] *)
Definition constructor : State :=
  {| pendingOperations := ∅; syncCallbacks := ∅; isEnabled := true |}.

Definition set_pendingOperations (f : gset string -> gset string)
    (s : State) : State :=
  {| pendingOperations := f (pendingOperations s);
     syncCallbacks := syncCallbacks s; isEnabled := isEnabled s |}.

Definition set_syncCallbacks
    (f : gmap string (list FnRef) -> gmap string (list FnRef))
    (s : State) : State :=
  {| pendingOperations := pendingOperations s;
     syncCallbacks := f (syncCallbacks s); isEnabled := isEnabled s |}.

Definition set_isEnabled (b : bool) (s : State) : State :=
  {| pendingOperations := pendingOperations s;
     syncCallbacks := syncCallbacks s; isEnabled := b |}.

End RealtimeSyncObject.

(** Fields of [class InstantResponse]. *)
Module InstantResponseObject.

(** A rollback function: the arrow function that
    [wrapApiForInstantResponse] passes, or a function of the caller. *)
Inductive Rollback : Type :=
| RefreshCurrentSection
| RollbackFn (f : FnRef).

(** The entry [{ rollbackFunction, result }]; a falsy [rollbackFunction]
    is [None]. *)
Record Update : Type := {
  rollbackFunction : option Rollback;
  result : JsVal;
}.

Record State : Type := {
  pendingOperations : gmap string JsVal;
  optimisticUpdates : gmap string Update;
}.

(** [constructor()] *)
Definition constructor : State :=
  {| pendingOperations := ∅; optimisticUpdates := ∅ |}.

Definition set_optimisticUpdates
    (f : gmap string Update -> gmap string Update) (s : State) : State :=
  {| pendingOperations := pendingOperations s;
     optimisticUpdates := f (optimisticUpdates s) |}.

End InstantResponseObject.

Module Window.

(** The page: browser state, [window.onDemandRefresh] (absent on a page
    that does not load the script), [window.realtimeSync] and
    [window.instantResponse]. *)
Record Page : Type := {
  browser : Config.Browser;
  onDemandRefresh : option OnDemandRefresh.State;
  realtimeSync : RealtimeSyncObject.State;
  instantResponse : InstantResponseObject.State;
}.

Definition over_browser (f : Config.Browser -> Config.Browser) (p : Page)
  : Page :=
  {| browser := f (browser p); onDemandRefresh := onDemandRefresh p;
     realtimeSync := realtimeSync p; instantResponse := instantResponse p |}.

Definition view_onDemandRefresh (p : Page) : OnDemandRefresh.State :=
  default OnDemandRefresh.constructor (onDemandRefresh p).

Definition over_onDemandRefresh
    (f : OnDemandRefresh.State -> OnDemandRefresh.State) (p : Page) : Page :=
  {| browser := browser p; onDemandRefresh := f <$> onDemandRefresh p;
     realtimeSync := realtimeSync p; instantResponse := instantResponse p |}.

Definition over_realtimeSync
    (f : RealtimeSyncObject.State -> RealtimeSyncObject.State) (p : Page)
  : Page :=
  {| browser := browser p; onDemandRefresh := onDemandRefresh p;
     realtimeSync := f (realtimeSync p);
     instantResponse := instantResponse p |}.

Definition over_instantResponse
    (f : InstantResponseObject.State -> InstantResponseObject.State)
    (p : Page) : Page :=
  {| browser := browser p; onDemandRefresh := onDemandRefresh p;
     realtimeSync := realtimeSync p;
     instantResponse := f (instantResponse p) |}.

(** A method of [window.onDemandRefresh], called from another script. *)
Definition on_onDemandRefresh {R} (p : Prog OnDemandRefresh.State R)
  : Prog Page R :=
  zoom view_onDemandRefresh over_onDemandRefresh p.

(** A function that can stand for [window.apiRequest]: called with an
    endpoint, a method name or an options object (an options object
    without fields when the argument is absent) and a body ([undefined]
    when absent). *)
Definition ApiRequest : Type :=
  string -> Config.MethodOrOptions -> JsVal -> Callee Page JsVal.

(** [config.js]'s [apiRequest], an [async] function, on the page. *)
Definition apiRequest : ApiRequest :=
  fun endpoint methodOrOptions body =>
    async_function
      (zoom browser over_browser
         (Config.apiRequest endpoint methodOrOptions body)).

End Window.
Export Window.

(** ** [realtime-sync.js]: [class RealtimeSync] *)

Module RealtimeSync.
Import RealtimeSyncObject.

Definition this : Prog Page State := gets realtimeSync.
Definition update (f : State -> State) : Prog Page unit :=
  modify (over_realtimeSync f).

(** [registerCallback(operation, callback)] *)
Definition registerCallback (operation : string) (callback : FnRef)
  : Prog Page JsVal :=
  update (set_syncCallbacks (fun m =>
    <[operation := default [] (m !! operation) ++ [callback]]> m));;
  Ret VUndefined.

(** [showOperationStatus(message, type)] *)
Definition showOperationStatus (message type : string) : Prog Page unit :=
  console_log [VStr ("操作状态: " +:+ message +:+ " (" +:+ type +:+ ")")].

(** [waitForSync(timeout = 0)] *)
Definition waitForSync : Prog Page JsVal := Ret VUndefined.

(** [triggerCallbacks(operation, result)], over the callbacks registered
    for [operation] when the loop starts.  (A callback registered while
    the loop is suspended is pushed onto the same array and would be
    called too; registrations only ever add to it.) *)
Definition triggerCallbacks (operation : string) (result : JsVal)
  : Prog Page JsVal :=
  s ← this;
  let callbacks := default [] (syncCallbacks s !! operation) in
  for_of callbacks (fun callback =>
    try_catch
      (await_call callback [result];; Ret tt)
      (fun error => console_error [VStr "回调执行失败:"; error]));;
  Ret VUndefined.

(** [`${operationType}_${Date.now()}`] *)
Definition operationId_of (operationType : string) (now : Z) : string :=
  operationType +:+ "_" +:+ pretty now.

(** The [catch (error)] block of [executeOperation]. *)
Definition executeCatch {R} (operationId : string) (error : JsVal)
  : Prog Page R :=
  update (set_pendingOperations (fun p => p ∖ {[operationId]}));;
  match get_prop error "message" with
  | inl message =>
      showOperationStatus ("操作失败: " +:+ to_string message) "error";;
      throw error
  | inr type_error => throw type_error
  end.

(** [executeOperation(operationType, apiCall, refreshCallback)];
    [refreshCallback] is [None] when the argument is falsy. *)
Definition executeOperation (operationType : string)
    (apiCall : Callee Page JsVal)
    (refreshCallback : option (Callee Page JsVal))
  : Prog Page JsVal :=
  s ← this;
  if negb (isEnabled s) then await_of apiCall
  else
    now ← ext DateNow;
    let operationId := operationId_of operationType now in
    update (set_pendingOperations (fun p => {[operationId]} ∪ p));;
    try_catch
      (showOperationStatus "进行中..." "info";;
       result ← await_of apiCall;
       await waitForSync;;
       match refreshCallback with
       | Some callback => await_of callback;; Ret tt
       | None => Ret tt
       end;;
       await (triggerCallbacks operationType result);;
       showOperationStatus "操作成功，数据已更新" "success";;
       update (set_pendingOperations (fun p => p ∖ {[operationId]}));;
       Ret result)
      (executeCatch operationId).

(** [getOperationType(endpoint, method)] *)
Definition getOperationType (endpoint method : string) : string :=
  let path := toLowerCase endpoint in
  let registration :=
    if includes "registration" path then
      if String.eqb method "POST" then Some "create_registration"
      else if (String.eqb method "DELETE" || includes "cancel" path)%bool
      then Some "cancel_registration"
      else if String.eqb method "PUT" then Some "update_registration"
      else None
    else None in
  let patient :=
    if includes "patient" path then
      if String.eqb method "POST" then Some "create_patient"
      else if String.eqb method "PUT" then Some "update_patient"
      else if String.eqb method "DELETE" then Some "delete_patient"
      else None
    else None in
  let doctor :=
    if includes "doctor" path then
      if String.eqb method "POST" then Some "create_doctor"
      else if String.eqb method "PUT" then Some "update_doctor"
      else if String.eqb method "DELETE" then Some "delete_doctor"
      else None
    else None in
  match registration, patient, doctor with
  | Some t, _, _ => t
  | None, Some t, _ => t
  | None, None, Some t => t
  | None, None, None => "general_operation"
  end.

Definition is_registration_operation (operationType : string) : bool :=
  existsb (String.eqb operationType)
    ["create_registration"; "cancel_registration"; "update_registration"].
Definition is_patient_operation (operationType : string) : bool :=
  existsb (String.eqb operationType)
    ["create_patient"; "update_patient"; "delete_patient"].
Definition is_doctor_operation (operationType : string) : bool :=
  existsb (String.eqb operationType)
    ["create_doctor"; "update_doctor"; "delete_doctor"].

(** [refreshRelevantData(operationType)].  When [window.onDemandRefresh]
    exists, its [refreshCurrentSection] is a function. *)
Definition refreshRelevantData (operationType : string) : Prog Page JsVal :=
  try_catch
    ((if is_registration_operation operationType then
        OnDemandRefresh.call_if_function "loadRegistrations";;
        OnDemandRefresh.call_if_function "loadDepartments"
      else if is_patient_operation operationType then
        OnDemandRefresh.call_if_function "loadProfile"
      else if is_doctor_operation operationType then
        OnDemandRefresh.call_if_function "loadDoctors"
      else Ret tt);;
     page ← get;
     match onDemandRefresh page with
     | Some _ =>
         await (on_onDemandRefresh OnDemandRefresh.refreshCurrentSection);;
         Ret tt
     | None => Ret tt
     end)
    (fun error => console_error [VStr "刷新数据失败:"; error]);;
  Ret VUndefined.

(** [options.method || 'GET'] *)
Definition method_or_GET (options : Options) : string :=
  match method options with
  | Some m => if String.eqb m "" then "GET" else m
  | None => "GET"
  end.

(** [['POST', 'PUT', 'DELETE'].includes(method.toUpperCase())] *)
Definition isModifyingOperation (method : string) : bool :=
  existsb (String.eqb (toUpperCase method)) ["POST"; "PUT"; "DELETE"].

(** [options.method || 'GET'] for what the caller passed as [options]:
    a method name is a string, which has no [method]. *)
Definition requested_method (options : Config.MethodOrOptions) : string :=
  match options with
  | Config.AsMethod _ => "GET"
  | Config.AsOptions o => method_or_GET o
  end.

(** [wrapApiRequest(originalApiRequest)]: an [async] function of
    [endpoint] and [options].  It has no third parameter, and calls
    [originalApiRequest] with these two arguments. *)
Definition wrapApiRequest (originalApiRequest : ApiRequest) : ApiRequest :=
  fun endpoint options _ =>
    async_function
      (let method := requested_method options in
       if negb (isModifyingOperation method) then
         await_of (originalApiRequest endpoint options VUndefined)
       else
         let operationType := getOperationType endpoint method in
         await (executeOperation operationType
                  (originalApiRequest endpoint options VUndefined)
                  (Some (async_function
                           (refreshRelevantData operationType))))).

(** [setEnabled(enabled)] *)
Definition setEnabled (enabled : bool) : Prog Page JsVal :=
  update (set_isEnabled enabled);;
  console_log [VStr "实时同步"; VStr (if enabled then "已启用" else "已禁用")];;
  Ret VUndefined.

(** [hasPendingOperations()]: [pendingOperations.size > 0] *)
Definition hasPendingOperations (s : State) : bool :=
  (0 <? size (pendingOperations s))%nat.

End RealtimeSync.

(** ** The instant-response script: [class InstantResponse] *)

Module InstantResponse.
Import InstantResponseObject.

Definition this : Prog Page State := gets instantResponse.
Definition update (f : State -> State) : Prog Page unit :=
  modify (over_instantResponse f).

(** [showInstantFeedback(message, type)] *)
Definition showInstantFeedback (message type : string) : Prog Page unit :=
  console_log [VStr ("即时反馈: " +:+ message +:+ " (" +:+ type +:+ ")")].

(** Calling a stored rollback function.  The arrow function of
    [wrapApiForInstantResponse] starts [refreshCurrentSection] without
    awaiting it. *)
Definition call_rollback (f : Rollback) : Prog Page JsVal :=
  match f with
  | RefreshCurrentSection =>
      page ← get;
      match onDemandRefresh page with
      | Some _ =>
          Fork (on_onDemandRefresh OnDemandRefresh.refreshCurrentSection)
            (Ret VUndefined)
      | None => Ret VUndefined
      end
  | RollbackFn g => c ← ext (Call g []); settle c
  end.

(** [validateOperation(operation)] *)
Definition validateOperation (operation : string) : Prog Page bool :=
  try_catch (Ret true) (fun _ => Ret false).

(** [rollbackOperation(operationId)] *)
Definition rollbackOperation (operationId : string) : Prog Page JsVal :=
  s ← this;
  match optimisticUpdates s !! operationId with
  | Some {| rollbackFunction := Some f |} =>
      try_catch
        (match f with
         | RefreshCurrentSection => await (call_rollback f)
         | RollbackFn _ => call_rollback f
         end;;
         showInstantFeedback "操作已回滚" "warning")
        (fun error => console_error [VStr "回滚失败:"; error])
  | _ => Ret tt
  end;;
  update (set_optimisticUpdates (delete operationId));;
  Ret VUndefined.

(** [backgroundSync(operationId, operation)] *)
Definition backgroundSync (operationId operation : string)
  : Prog Page JsVal :=
  try_catch
    (ext (Sleep 100);;
     isValid ← await (validateOperation operation);
     if isValid : bool then
       update (set_optimisticUpdates (delete operationId));;
       console_log [VStr "后台同步验证成功"]
     else
       await (rollbackOperation operationId);; Ret tt)
    (fun error =>
       console_error [VStr "后台同步失败:"; error];;
       await (rollbackOperation operationId);; Ret tt);;
  Ret VUndefined.

(** [optimisticUpdate(operation, updateFunction, rollbackFunction)] *)
Definition optimisticUpdate (operation : string)
    (updateFunction : Callee Page JsVal) (rollback : option Rollback)
  : Prog Page JsVal :=
  now ← ext DateNow;
  let operationId := pretty now in
  try_catch
    (result ← await_of updateFunction;
     update (set_optimisticUpdates
               (<[operationId :=
                    {| rollbackFunction := rollback; result := result |}]>));;
     showInstantFeedback "操作成功" "success";;
     Fork (backgroundSync operationId operation) (Ret result))
    (fun error =>
       match get_prop error "message" with
       | inl message =>
           showInstantFeedback ("操作失败: " +:+ to_string message) "error";;
           throw error
       | inr type_error => throw type_error
       end).

(** [wrapApiForInstantResponse(originalApiRequest)]: an [async]
    function of [endpoint] and [options], like the one of
    [wrapApiRequest]. *)
Definition wrapApiForInstantResponse (originalApiRequest : ApiRequest)
  : ApiRequest :=
  fun endpoint options _ =>
    async_function
      (let method := RealtimeSync.requested_method options in
       if negb (RealtimeSync.isModifyingOperation method) then
         await_of (originalApiRequest endpoint options VUndefined)
       else
         await (optimisticUpdate (method +:+ " " +:+ endpoint)
                  (originalApiRequest endpoint options VUndefined)
                  (Some RefreshCurrentSection))).

End InstantResponse.

(** ** The synchronisation engine *)

(** The engine itself ([db_sync.py], [multi_db_conflict_handler.py]) is
    not among the sources; it is modelled from sections 3, 4.3, 4.4 and 7
    of the specification. *)
Module Engine.

(** Modelled from the spec: the fixed entity set of section 1; the engine's
    table definitions are missing. *)
Inductive EntityType : Type :=
| Patients | Doctors | Departments | Titles | Registrations.

(** Modelled from the spec: entity types are compared and used as keys of
    the stores' tables. *)
#[export] Instance EntityType_eq_dec : EqDecision EntityType.
Proof. solve_decision. Defined.

(** Modelled from the spec: a numbering of the five entity tables, for
    the keys of [gmap]. *)
Definition EntityType_to_nat (e : EntityType) : nat :=
  match e with
  | Patients => 0 | Doctors => 1 | Departments => 2 | Titles => 3
  | Registrations => 4
  end%nat.

(** Modelled from the spec: the inverse numbering. *)
Definition EntityType_of_nat (n : nat) : EntityType :=
  match n with
  | 0 => Patients | 1 => Doctors | 2 => Departments | 3 => Titles
  | _ => Registrations
  end%nat.

(** Modelled from the spec: entity types as keys. *)
#[export] Instance EntityType_countable : Countable EntityType.
Proof.
  apply (inj_countable' EntityType_to_nat EntityType_of_nat).
  intros []; reflexivity.
Defined.

(** Modelled from the spec: "Identity = (entity_type, primary_key)". *)
Definition Identity : Type := EntityType * Z.

(** Modelled from the spec: the operation of a ChangeRecord of section 3,
    "create|update|delete". *)
Inductive Operation : Type := Created | Updated | Deleted.

(** Modelled from the spec: a Record of section 3 together with the
    ChangeRecord of the write that produced it.  [attrs] is the business
    state; [updated_at], [origin_store] and [operation] are sync
    metadata.  After a delete the row is gone and the ChangeRecord, with
    [operation] [Deleted], is what the engine still finds. *)
Record Rec : Type := {
  attrs : gmap string string;
  updated_at : Z;
  origin_store : string;
  operation : Operation;
}.

(** Modelled from the spec: the business state that a record stands for,
    "Record|absent" of [currentState]; a deleted row is absent. *)
Definition state (r : Rec) : option (gmap string string) :=
  match operation r with
  | Deleted => None
  | Created | Updated => Some (attrs r)
  end.

(** Modelled from the spec: a StoreHandle of section 3.  A smaller
    [priority_rank] is a higher priority. *)
Record StoreHandle : Type := {
  store_id : string;
  reachable : bool;
  priority_rank : nat;
}.

(** Modelled from the spec: one configured store with its contents (the
    rows, and the ChangeRecords of the rows that were deleted) and its
    last successful sync watermark. *)
Record Store : Type := {
  handle : StoreHandle;
  contents : gmap Identity Rec;
  watermark : Z;
}.

(** Modelled from the spec: a mutating write to one store, as the Change
    Tracker captures it: "(entity_type, primary_key, updated_at,
    origin_store, operation)", with the attributes written. *)
Record Write : Type := {
  write_store_id : string;
  write_identity : Identity;
  write_operation : Operation;
  write_attrs : gmap string string;
  write_time : Z;
}.

(** Modelled from the spec: what a write leaves in the store for its
    identity. *)
Definition written (w : Write) : Rec :=
  {| attrs := write_attrs w;
     updated_at := write_time w;
     origin_store := write_store_id w;
     operation := write_operation w |}.

(** Modelled from the spec: a write lands in the store it names. *)
Definition write_to (w : Write) (s : Store) : Store :=
  if String.eqb (store_id (handle s)) (write_store_id w) then
    {| handle := handle s;
       contents := <[write_identity w := written w]> (contents s);
       watermark := watermark s |}
  else s.

(** Modelled from the spec: a sequence of writes, each to one of the
    stores, in the order in which they are made. *)
Definition perform (writes : list Write) (stores : list Store) : list Store :=
  fold_left (fun stores w => map (write_to w) stores) writes stores.

(** Modelled from the spec: one store after a sequence of writes. *)
Definition after_writes (writes : list Write) (s : Store) : Store :=
  fold_left (fun s w => write_to w s) writes s.

(** Modelled from the spec: writes made since a watermark, "changes
    written" after the last pass: the writes of the sequence to the
    identity [id] in the store [sid] were made at or after [since]. *)
Definition written_since (sid : string) (id : Identity) (since : Z)
    (writes : list Write) : Prop :=
  forall w, w ∈ writes -> write_store_id w = sid -> write_identity w = id ->
            since <= write_time w.

(** Modelled from the spec: an outstanding change, one that the store
    holds for [id] from its watermark on. *)
Definition holds_change (id : Identity) (s : Store) : Prop :=
  exists r, contents s !! id = Some r /\ watermark s <= updated_at r.

(** Modelled from the spec: the resolution policies of section 4.4. *)
Inductive Policy : Type :=
| latest_timestamp
| store_priority (storeId : string)
| manual.

(** Modelled from the spec: one entry of the per-store snapshot set of a
    ConflictRecord, "state + updated_at per store". *)
Record Snapshot : Type := {
  snap_store : StoreHandle;
  snap_record : Rec;
}.

(** Modelled from the spec: the order of [latest_timestamp], "the greatest
    updated_at; ties broken by StoreHandle priority rank, then by store_id
    lexical order".  [prefer a b] holds when [a] wins against [b]. *)
Definition prefer (a b : Snapshot) : bool :=
  let ta := updated_at (snap_record a) in
  let tb := updated_at (snap_record b) in
  let ra := priority_rank (snap_store a) in
  let rb := priority_rank (snap_store b) in
  if tb <? ta then true
  else if ta <? tb then false
  else if (ra <? rb)%nat then true
  else if (rb <? ra)%nat then false
  else String.leb (store_id (snap_store a)) (store_id (snap_store b)).

(** Modelled from the spec: the winner under [latest_timestamp]. *)
Fixpoint latest_timestamp_winner (snaps : list Snapshot) : option Snapshot :=
  match snaps with
  | [] => None
  | s :: rest =>
      match latest_timestamp_winner rest with
      | None => Some s
      | Some w => if prefer s w then Some s else Some w
      end
  end.

(** Modelled from the spec: Store Adapter [currentState] and the snapshot
    set that Diffing builds over the reachable stores. *)
Definition snapshots (stores : list Store) (id : Identity) : list Snapshot :=
  omap (fun s =>
          if reachable (handle s)
          then (fun r => {| snap_store := handle s; snap_record := r |})
                 <$> contents s !! id
          else None)
       stores.

(** Modelled from the spec: "changed since" a watermark, for the missing
    Store Adapter; a record written at the watermark itself counts. *)
Definition changed_since (since : Z) (r : Rec) : bool := since <=? updated_at r.

(** Modelled from the spec: Store Adapter [fetchChanged(since)] at the
    store's last successful sync watermark. *)
Definition fetchChanged (s : Store) : gmap Identity Rec :=
  filter (fun kv => changed_since (watermark s) (snd kv) = true) (contents s).

(** Modelled from the spec: Collecting, the identities touched by a change
    collected from a reachable store: a create, an update or a delete
    since the store's watermark. *)
Definition touched (stores : list Store) : gset Identity :=
  ⋃ (map (fun s => if reachable (handle s) then dom (fetchChanged s) else ∅)
       stores).

(** Modelled from the spec: the snapshots of the stores from which
    Collecting fetched a change of the identity. *)
Definition changed_snapshots (stores : list Store) (id : Identity)
  : list Snapshot :=
  omap (fun s =>
          if reachable (handle s)
          then (fun r => {| snap_store := handle s; snap_record := r |})
                 <$> fetchChanged s !! id
          else None)
       stores.

(** Modelled from the spec: the detection rule, divergent business state
    among the stores that changed the identity. *)
Definition divergent (snaps : list Snapshot) : bool :=
  match snaps with
  | [] => false
  | s :: rest =>
      existsb (fun s' => negb (bool_decide
                 (state (snap_record s') = state (snap_record s)))) rest
  end.

(** Modelled from the spec: what the missing Detector and Resolver hand
    back for one identity, "a single winning Record snapshot", an open
    ConflictRecord under [manual], or nothing to do. *)
Inductive Decision : Type :=
| Winner (w : Snapshot) (conflict : bool)
| OpenConflict
| Nothing.

(** Modelled from the spec: section 4.4.  Without divergence the change is
    applied directly (fast path); a conflict is resolved by the policy. *)
Definition resolve (policy : Policy) (stores : list Store) (id : Identity)
  : Decision :=
  let changed := changed_snapshots stores id in
  let all := snapshots stores id in
  if divergent changed then
    match policy with
    | latest_timestamp =>
        match latest_timestamp_winner all with
        | Some w => Winner w true
        | None => Nothing
        end
    | store_priority p =>
        match List.find (fun s => String.eqb (store_id (snap_store s)) p) all
        with
        | Some w => Winner w true
        | None =>
            match latest_timestamp_winner all with
            | Some w => Winner w true
            | None => Nothing
            end
        end
    | manual => OpenConflict
    end
  else
    match latest_timestamp_winner changed with
    | Some w => Winner w false
    | None => Nothing
    end.

(** Modelled from the spec: the record a lagging store receives, the
    winning state (a delete, when that is what won) with [origin_store]
    the store that produced it. *)
Definition winning_record (w : Snapshot) : Rec :=
  {| attrs := attrs (snap_record w);
     updated_at := updated_at (snap_record w);
     origin_store := store_id (snap_store w);
     operation := operation (snap_record w) |}.

(** Modelled from the spec: Applying pushes to "every store whose current
    state differs from the winner", in business state. *)
Definition differs (current : option Rec) (w : Snapshot) : bool :=
  negb (bool_decide (current ≫= state = state (snap_record w))).

(** Modelled from the spec: Store Adapter [apply(record) -> success |
    failure], as an oracle over store and identity. *)
Definition ApplyOracle : Type := string -> Identity -> bool.

(** Modelled from the spec: Applying, for one store and one identity. *)
Definition apply_one (apply_ok : ApplyOracle) (decide_id : Identity -> Decision)
    (sid : string) (id : Identity) (m : gmap Identity Rec)
  : gmap Identity Rec :=
  match decide_id id with
  | Winner w _ =>
      if (differs (m !! id) w && apply_ok sid id)%bool
      then <[id := winning_record w]> m
      else m
  | OpenConflict | Nothing => m
  end.

(** Modelled from the spec: an apply that was needed and failed
    ([ApplyFailed]). *)
Definition apply_failed (apply_ok : ApplyOracle)
    (decide_id : Identity -> Decision) (s : Store) (id : Identity) : bool :=
  match decide_id id with
  | Winner w _ =>
      (differs (contents s !! id) w && negb (apply_ok (store_id (handle s)) id))%bool
  | OpenConflict | Nothing => false
  end.

(** Modelled from the spec: an apply that was needed. *)
Definition apply_needed (decide_id : Identity -> Decision) (s : Store)
    (id : Identity) : bool :=
  match decide_id id with
  | Winner w _ => differs (contents s !! id) w
  | OpenConflict | Nothing => false
  end.

(** Modelled from the spec: the store-level errors of section 7. *)
Inductive StoreError : Type := StoreUnavailable | ApplyFailed.

(** Modelled from the spec: the per-store outcome of a SyncRun. *)
Record StoreOutcome : Type := {
  outcome_store : string;
  applied_count : nat;
  skipped_count : nat;
  error : option StoreError;
}.

(** Modelled from the spec: the overall status of a SyncRun. *)
Inductive RunStatus : Type := success | partial_failure | failed.

(** Modelled from the spec: a SyncRun, with the conflicts it left open. *)
Record SyncRun : Type := {
  started_at : Z;
  outcomes : list StoreOutcome;
  open_conflicts : list Identity;
  status : RunStatus;
}.

(** Modelled from the spec: "a fully failed run (e.g., primary
    unreachable)". *)
Definition primary_reachable (stores : list Store) : bool :=
  existsb (fun s => (String.eqb (store_id (handle s)) "primary"
                     && reachable (handle s))%bool) stores.

(** Modelled from the spec: the per-store outcome; an unreachable store
    is skipped with [StoreUnavailable], a failed apply is recorded as
    [ApplyFailed]. *)
Definition outcome_of (apply_ok : ApplyOracle)
    (decide_id : Identity -> Decision) (ids : list Identity) (s : Store)
  : StoreOutcome :=
  if reachable (handle s) then
    let failures := List.filter (apply_failed apply_ok decide_id s) ids in
    let needed := List.filter (apply_needed decide_id s) ids in
    {| outcome_store := store_id (handle s);
       applied_count := length needed - length failures;
       skipped_count := length ids - length needed;
       error := match failures with [] => None | _ => Some ApplyFailed end |}
  else
    {| outcome_store := store_id (handle s);
       applied_count := 0;
       skipped_count := length ids;
       error := Some StoreUnavailable |}.

(** Modelled from the spec: Applying and Finalizing for one store.  An
    unreachable store is skipped; the watermark moves to the start of the
    run unless the store reported an error. *)
Definition sync_store (apply_ok : ApplyOracle)
    (decide_id : Identity -> Decision) (ids : list Identity) (start_time : Z)
    (s : Store) : Store :=
  if reachable (handle s) then
    {| handle := handle s;
       contents := foldr (apply_one apply_ok decide_id (store_id (handle s)))
                     (contents s) ids;
       watermark := match error (outcome_of apply_ok decide_id ids s) with
                    | None => start_time
                    | Some _ => watermark s
                    end |}
  else s.

(** Modelled from the spec: one run of the state machine of section 4.3,
    Collecting, Diffing, Applying, Finalizing.  A run whose primary is
    unreachable fails and changes nothing. *)
Definition sync_pass (policy : Policy) (apply_ok : ApplyOracle)
    (start_time : Z) (stores : list Store) : list Store * SyncRun :=
  let ids := elements (touched stores) in
  let decide_id := resolve policy stores in
  let results := map (outcome_of apply_ok decide_id ids) stores in
  if primary_reachable stores then
    (map (sync_store apply_ok decide_id ids start_time) stores,
     {| started_at := start_time;
        outcomes := results;
        open_conflicts :=
          List.filter (fun id => match decide_id id with
                              | OpenConflict => true
                              | _ => false
                              end) ids;
        status := if forallb (fun o => bool_decide (error o = None)) results
                  then success else partial_failure |})
  else
    (stores,
     {| started_at := start_time;
        outcomes := results;
        open_conflicts := [];
        status := failed |}).

(** Modelled from the spec: the business state of an identity in a store,
    its attributes, "timestamps excluded from the equality check"; none
    where the store has no row. *)
Definition business_state (s : Store) (id : Identity)
  : option (gmap string string) :=
  contents s !! id ≫= state.

End Engine.

(** ** Resources held across suspension points *)

(** A call that is suspended shares the object with every other call.
    The predicates below describe, for a component [proj] of the state,
    the programs that leave the component alone ([safe]) and those that
    hold it until they finish and then release it by [rel] ([ends]). *)
Module Protocol.

Section Projection.
Context {S A : Type} (proj : S -> A).

Definition keeps (f : S -> S) : Prop := forall s, proj (f s) = proj s.

(** [safe p]: no write of [p], or of a call it starts, changes the
    component. *)
Inductive safe : forall R, Prog S R -> Prop :=
| safe_Ret R (r : R) : safe R (Ret r)
| safe_Throw R (e : JsVal) : safe R (Throw e)
| safe_Get R (k : S -> Prog S R) :
    (forall s, safe R (k s)) -> safe R (Get k)
| safe_Modify R (f : S -> S) (k : Prog S R) :
    keeps f -> safe R k -> safe R (Modify f k)
| safe_Log R (l : Level) (a : list JsVal) (k : Prog S R) :
    safe R k -> safe R (Log l a k)
| safe_Vis R X (e : Ext X) (k : X -> Prog S R) :
    (forall x, safe R (k x)) -> safe R (Vis e k)
| safe_Fork R (child : Prog S JsVal) (k : Prog S R) :
    safe JsVal child -> safe R k -> safe R (Fork child k).

(** [quiet throws p]: [p] finishes in the current turn, writing to the
    console at most; it may end in a [throw] only if [throws]. *)
Inductive quiet (throws : bool) : forall R, Prog S R -> Prop :=
| quiet_Ret R (r : R) : quiet throws R (Ret r)
| quiet_Throw R (e : JsVal) : throws = true -> quiet throws R (Throw e)
| quiet_Log R (l : Level) (a : list JsVal) (k : Prog S R) :
    quiet throws R k -> quiet throws R (Log l a k).

(** [ends rel in_try p]: [p] leaves the component alone until its last
    turn, in which it applies [rel] to it and finishes.  Inside a [try]
    block ([in_try]) it may also throw before that, the handler being
    the one that releases. *)
Inductive ends (rel : A -> A) : bool -> forall R, Prog S R -> Prop :=
| ends_Throw R (e : JsVal) : ends rel true R (Throw e)
| ends_release in_try R (f : S -> S) (k : Prog S R) :
    (forall s, proj (f s) = rel (proj s)) ->
    quiet (negb in_try) R k -> ends rel in_try R (Modify f k)
| ends_Modify in_try R (f : S -> S) (k : Prog S R) :
    keeps f -> ends rel in_try R k -> ends rel in_try R (Modify f k)
| ends_Get in_try R (k : S -> Prog S R) :
    (forall s, ends rel in_try R (k s)) -> ends rel in_try R (Get k)
| ends_Log in_try R (l : Level) (a : list JsVal) (k : Prog S R) :
    ends rel in_try R k -> ends rel in_try R (Log l a k)
| ends_Vis in_try R X (e : Ext X) (k : X -> Prog S R) :
    (forall x, ends rel in_try R (k x)) -> ends rel in_try R (Vis e k)
| ends_Fork in_try R (child : Prog S JsVal) (k : Prog S R) :
    safe JsVal child -> ends rel in_try R k ->
    ends rel in_try R (Fork child k).

(** The predicates on suspended computations. *)
Definition blocked_safe {R} (b : Blocked S R) : Prop :=
  match b with
  | Wait e k => forall x, safe R (k x)
  end.

Definition blocked_ends (rel : A -> A) {R} (b : Blocked S R) : Prop :=
  match b with
  | Wait e k => forall x, ends rel false R (k x)
  end.

End Projection.

Arguments safe {S A} proj {R} p.
Arguments quiet {S} throws {R} p.
Arguments ends {S A} proj rel in_try {R} p.

(** The values a program can throw under an environment. *)
Definition throws_only {S R} (P : JsVal -> Prop) (env : Env)
    (p : Prog S R) : Prop :=
  forall c e c', run env p c = (Threw e, c') -> P e.

(** The values the functions of the page reject with. *)
Definition rejections (P : JsVal -> Prop) (env : Env) : Prop :=
  forall f args n e, env _ (Call f args) n = Rejected e -> P e.

Definition not_nullish (v : JsVal) : Prop := v <> VUndefined /\ v <> VNull.

End Protocol.
Export Protocol.

(** ** The event loop of each script *)

(** The calls the page makes on [window.onDemandRefresh]: the run entry
    point, which the click and submit handlers and [manualRefresh] call,
    and [refreshCurrentSection], which the other scripts call. *)
Module RefreshLoop.

Inductive Entry : Type :=
| RefreshAfterUserAction (actionType : string)
    (targetSection : option string)
| RefreshCurrentSection.

Definition entry (o : Entry) : Prog OnDemandRefresh.State JsVal :=
  match o with
  | RefreshAfterUserAction actionType targetSection =>
      OnDemandRefresh.refreshAfterUserAction actionType targetSection
  | RefreshCurrentSection => OnDemandRefresh.refreshCurrentSection
  end.

Definition is_run (o : Entry) : bool :=
  match o with
  | RefreshAfterUserAction _ _ => true
  | RefreshCurrentSection => false
  end.

(** The runs in flight: the calls of [refreshAfterUserAction] that went
    past the guard and have not completed. *)
Definition runs_in_flight
    (s : Sys OnDemandRefresh.State Entry)
  : list (Entry * Blocked OnDemandRefresh.State JsVal) :=
  List.filter (fun t => is_run (fst t)) (pool s).

(** What the event loop keeps true of [window.onDemandRefresh]: detached
    calls and calls other than runs never write [isRefreshing], each run
    in flight resets it in its last turn, and it is set exactly when a
    run is in flight. *)
Definition invariant (s : Sys OnDemandRefresh.State Entry) : Prop :=
  Forall (blocked_safe OnDemandRefresh.isRefreshing) (detached (cfg s))
  /\ Forall (fun t =>
               if is_run (fst t)
               then blocked_ends OnDemandRefresh.isRefreshing
                      (fun _ => false) (snd t)
               else blocked_safe OnDemandRefresh.isRefreshing (snd t))
       (pool s)
  /\ length (runs_in_flight s)
     = if OnDemandRefresh.isRefreshing (st (cfg s)) then 1%nat else 0%nat.

End RefreshLoop.

(** The calls the page makes on [window.realtimeSync]. *)
Module SyncLoop.

Inductive Request : Type :=
| ExecuteOperation (operationType : string) (apiCall : Callee Page JsVal)
    (refreshCallback : option (Callee Page JsVal))
| RegisterCallback (operation : string) (callback : FnRef)
| SetEnabled (enabled : bool).

Definition entry (o : Request) : Prog Page JsVal :=
  match o with
  | ExecuteOperation operationType apiCall refreshCallback =>
      RealtimeSync.executeOperation operationType apiCall refreshCallback
  | RegisterCallback operation callback =>
      RealtimeSync.registerCallback operation callback
  | SetEnabled enabled => RealtimeSync.setEnabled enabled
  end.

Definition is_operation (o : Request) : bool :=
  match o with
  | ExecuteOperation _ _ _ => true
  | RegisterCallback _ _ | SetEnabled _ => false
  end.

(** The operations in flight. *)
Definition operations_in_flight {O} (script : O -> Request)
    (s : Sys Page O) : list (O * Blocked Page JsVal) :=
  List.filter (fun t => is_operation (script (fst t))) (pool s).

(** [this.pendingOperations] of [window.realtimeSync]. *)
Definition pending (p : Page) : gset string :=
  RealtimeSyncObject.pendingOperations (realtimeSync p).

(** The functions handed to [executeOperation] do not write
    [pendingOperations] themselves. *)
Definition polite (o : Request) : Prop :=
  match o with
  | ExecuteOperation _ apiCall refreshCallback =>
      safe pending (await_of apiCall)
      /\ match refreshCallback with
         | Some callback => safe pending (await_of callback)
         | None => True
         end
  | RegisterCallback _ _ | SetEnabled _ => True
  end.

(** [pendingOperations.delete(operationId)] *)
Definition remove_id (operationId : string) (p : gset string) : gset string :=
  p ∖ {[operationId]}.

(** The task [t] holds the operation id [owner], or none. *)
Definition holder {O} (script : O -> Request) (owner : option string)
    (t : O * Blocked Page JsVal) : Prop :=
  match owner with
  | Some operationId =>
      is_operation (script (fst t)) = true
      /\ blocked_ends pending (remove_id operationId) (snd t)
  | None => blocked_safe pending (snd t)
  end.

(** What the event loop keeps true of [window.realtimeSync]: every id in
    [pendingOperations] is held by an operation in flight, which removes
    it in its last turn. *)
Definition invariant {O} (script : O -> Request) (s : Sys Page O) : Prop :=
  Forall (blocked_safe pending) (detached (cfg s))
  /\ exists owners : list (option string),
       Forall2 (holder script) owners (pool s)
       /\ pending (st (cfg s)) ⊆ list_to_set (omap id owners).

End SyncLoop.

(** ** Scenarios *)

Module Scenario.
Import Config.

(** What a 401 answer removes from [localStorage]. *)
Definition forget_credentials (m : gmap string string) : gmap string string :=
  delete "user_id" (delete "username" (delete "role" (delete "token" m))).

(** A world in which the server answers with a success status and a body that is not
    JSON. *)
Definition not_json_world : World :=
  {| now := fun _ => 0;
     typeof_function := fun _ => false;
     active_section := fun _ => None;
     dept_select := fun _ => None;
     call_result := fun _ _ _ => Resolved VUndefined;
     fetch_result := fun _ _ _ =>
       Resolved {| status := 200;
                   json := Rejected (VError "Unexpected end of JSON input") |} |}.

Definition signed_in : Browser :=
  {| localStorage := {["token" := "t0"; "role" := "patient"]};
     location_href := "patient.html" |}.

(** A page with the three scripts loaded and nothing in flight. *)
Definition fresh_page : Page :=
  {| browser := signed_in;
     onDemandRefresh := Some OnDemandRefresh.constructor;
     realtimeSync := RealtimeSyncObject.constructor;
     instantResponse := InstantResponseObject.constructor |}.

(** A world in which every loader is defined and the server answers every
    request with [{"ok": true}]. *)
Definition healthy_world : World :=
  {| now := fun n => 1000 + Z.of_nat n;
     typeof_function := fun _ => true;
     active_section := fun _ => Some "section-booking";
     dept_select := fun _ => None;
     call_result := fun _ _ _ => Resolved VUndefined;
     fetch_result := fun _ _ _ =>
       Resolved {| status := 200;
                   json := Resolved (VObj [("ok", VBool true)]) |} |}.

(** A world in which every function of the page rejects with [e] and the
    server cannot be reached. *)
Definition failing_world (e : JsVal) : World :=
  {| now := fun n => 1000 + Z.of_nat n;
     typeof_function := fun _ => true;
     active_section := fun _ => Some "section-booking";
     dept_select := fun _ => None;
     call_result := fun _ _ _ => Rejected e;
     fetch_result := fun _ _ _ => Rejected (VError "Failed to fetch") |}.

(** A page on which the optimistic update [17] of a [POST] is recorded,
    with a rollback function of the caller. *)
Definition page_with_update : Page :=
  over_instantResponse
    (InstantResponseObject.set_optimisticUpdates
       (<["17" := {| InstantResponseObject.rollbackFunction :=
                       Some (InstantResponseObject.RollbackFn (Callback 0));
                     InstantResponseObject.result := VNull |}]>))
    fresh_page.

(** A world like [healthy_world] whose server answers with whether the
    request had a body. *)
Definition echo_world : World :=
  {| now := fun n => 1000 + Z.of_nat n;
     typeof_function := fun _ => true;
     active_section := fun _ => Some "section-booking";
     dept_select := fun _ => None;
     call_result := fun _ _ _ => Resolved VUndefined;
     fetch_result := fun _ init _ =>
       Resolved {| status := 200;
                   json := Resolved
                             (VBool (bool_decide (body init <> None))) |} |}.

(** A request whose method is spelled in lower case. *)
Definition lower_case_post : Options :=
  {| method := Some "post";
     body := Some (JsonStringify (VObj [("doctor_id", VNum 7)]));
     headers := None |}.

(** The data of a request in the method form,
    [apiRequest(endpoint, 'PATCH', data)]. *)
Definition patch_data : JsVal := VObj [("status", VStr "confirmed")].

(** The page books a registration through the wrapped [apiRequest]: the
    call that [wrapApiRequest] makes of [executeOperation]. *)
Definition post_registration : Options :=
  {| method := Some "POST";
     body := Some (JsonStringify (VObj [("doctor_id", VNum 7)]));
     headers := None |}.

Definition booking_script (_ : unit) : SyncLoop.Request :=
  SyncLoop.ExecuteOperation "create_registration"
    (Window.apiRequest "/registrations" (AsOptions post_registration)
       VUndefined)
    (Some (async_function
             (RealtimeSync.refreshRelevantData "create_registration"))).

(** The conflict of the specification's scenario: registration 42 is
    confirmed in the primary at 100 and cancelled in MySQL at 105. *)
Definition registration_42 : Engine.Identity := (Engine.Registrations, 42).

Definition primary_handle : Engine.StoreHandle :=
  {| Engine.store_id := "primary"; Engine.reachable := true;
     Engine.priority_rank := 0 |}.

Definition mysql_handle : Engine.StoreHandle :=
  {| Engine.store_id := "mysql"; Engine.reachable := true;
     Engine.priority_rank := 1 |}.

Definition status_record (value : string) (t : Z) (origin : string)
  : Engine.Rec :=
  {| Engine.attrs := {["status" := value]}; Engine.updated_at := t;
     Engine.origin_store := origin; Engine.operation := Engine.Updated |}.

(** The writes of the scenario, and the stores before them. *)
Definition scenario_writes : list Engine.Write :=
  [ {| Engine.write_store_id := "primary";
       Engine.write_identity := registration_42;
       Engine.write_operation := Engine.Updated;
       Engine.write_attrs := {["status" := "confirmed"]};
       Engine.write_time := 100 |};
    {| Engine.write_store_id := "mysql";
       Engine.write_identity := registration_42;
       Engine.write_operation := Engine.Updated;
       Engine.write_attrs := {["status" := "cancelled"]};
       Engine.write_time := 105 |} ].

Definition empty_store (h : Engine.StoreHandle) : Engine.Store :=
  {| Engine.handle := h; Engine.contents := ∅; Engine.watermark := 0 |}.

(** A later delete of the registration in the primary. *)
Definition delete_in_primary : Engine.Write :=
  {| Engine.write_store_id := "primary";
     Engine.write_identity := registration_42;
     Engine.write_operation := Engine.Deleted;
     Engine.write_attrs := ∅;
     Engine.write_time := 130 |}.

Definition primary_store : Engine.Store :=
  {| Engine.handle := primary_handle;
     Engine.contents :=
       {[registration_42 := status_record "confirmed" 100 "primary"]};
     Engine.watermark := 0 |}.

Definition mysql_store : Engine.Store :=
  {| Engine.handle := mysql_handle;
     Engine.contents :=
       {[registration_42 := status_record "cancelled" 105 "mysql"]};
     Engine.watermark := 0 |}.

(** MySQL holding the confirmed state that the primary wrote at 100. *)
Definition primary_store_copy : Engine.Store :=
  {| Engine.handle := mysql_handle;
     Engine.contents :=
       {[registration_42 := status_record "confirmed" 100 "primary"]};
     Engine.watermark := 0 |}.

(** Two snapshots written at the same time. *)
Definition tied_snapshots : list Engine.Snapshot :=
  [ {| Engine.snap_store := mysql_handle;
       Engine.snap_record := status_record "cancelled" 100 "mysql" |};
    {| Engine.snap_store := primary_handle;
       Engine.snap_record := status_record "confirmed" 100 "primary" |} ].

End Scenario.
Export Scenario.

(** ** Timers of [realtime-sync.js] *)

Module RealtimeSyncTimers.
Import RealtimeSyncObject.

(** The requests recorded in a trace. *)
Definition fetched (o : Obs) : option (string * Options) :=
  match o with
  | Console _ _ => None
  | Event e _ =>
      match e with
      | Fetch url init => Some (url, init)
      | _ => None
      end
  end.

Definition fetches (t : list Obs) : list (string * Options) := omap fetched t.

(** The [while] loop of [waitForAllOperations] and the [return] after it.
    The loop has no bound of its own: [fuel] bounds the iterations, and
    [None] says that they did not end it. *)
Fixpoint waitLoop (fuel : nat) (startTime timeout : Z)
  : Prog Page (option bool) :=
  s ← RealtimeSync.this;
  if RealtimeSync.hasPendingOperations s then
    now ← ext DateNow;
    if now - startTime <? timeout then
      match fuel with
      | O => Ret None
      | S fuel' => ext (Sleep 100);; waitLoop fuel' startTime timeout
      end
    else
      s' ← RealtimeSync.this;
      Ret (Some (negb (RealtimeSync.hasPendingOperations s')))
  else
    s' ← RealtimeSync.this;
    Ret (Some (negb (RealtimeSync.hasPendingOperations s'))).

(** [waitForAllOperations(timeout = 10000)] *)
Definition waitForAllOperations (fuel : nat) (timeout : Z)
  : Prog Page (option bool) :=
  startTime ← ext DateNow;
  waitLoop fuel startTime timeout.

(** The callback that [enhanceExistingFunctions] hands to
    [setTimeout(..., 500)]. *)
Definition reloadRegistrations {S} : Prog S JsVal :=
  ext (Sleep 500);;
  OnDemandRefresh.call_if_function "loadRegistrations";;
  Ret VUndefined.

(** The function that [enhanceExistingFunctions] installs as
    [window.confirmBooking]. *)
Definition confirmBooking {S} : Prog S JsVal :=
  try_catch
    (await_call (Global "confirmBooking") [];;
     Fork reloadRegistrations (Ret tt))
    (fun error => console_error [VStr "挂号确认失败:"; error]);;
  Ret VUndefined.

(** The function that [enhanceExistingFunctions] installs as
    [window.cancelRegistration]. *)
Definition cancelRegistration {S} (regId : JsVal) : Prog S JsVal :=
  try_catch
    (await_call (Global "cancelRegistration") [regId];;
     Fork reloadRegistrations (Ret tt))
    (fun error => console_error [VStr "取消挂号失败:"; error]);;
  Ret VUndefined.

(** A clock that moves forward from one reading to the next. *)
Definition clock_advances (env : Env) : Prop :=
  forall n m : nat, (n < m)%nat -> env Z DateNow n < env Z DateNow m.

End RealtimeSyncTimers.

(** * Properties *)

(** ** [apiRequest] *)

Section ApiRequest.
Import Config.

(** C10, as the code has it.  Once [fetch] has resolved to [response]:
    on status 401 the four credentials are removed from [localStorage],
    the page is sent to [login.html] and [undefined] is returned, with no
    further event (the body is not read); on any other status the body is
    read first, so a body that is not JSON rejects the call whatever the
    status, and otherwise the call throws exactly when [response.ok] is
    false and returns the parsed body when it is true. *)
Theorem apiRequest_by_status (env : Env) (endpoint : string)
    (methodOrOptions : MethodOrOptions) (body : JsVal) (c : Cfg Browser)
    (response : Response) :
  (forall url init, env _ (Fetch url init) (tick c) = Resolved response) ->
  let r := run env (apiRequest endpoint methodOrOptions body) c in
  if status response =? 401 then
    fst r = Returned VUndefined
    /\ localStorage (st (snd r)) = forget_credentials (localStorage (st c))
    /\ location_href (st (snd r)) = "login.html"
    /\ tick (snd r) = S (tick c)
  else
    match json response with
    | Rejected e => fst r = Threw e
    | Resolved data =>
        if ok response then fst r = Returned data
        else exists e, fst r = Threw e
    end.
Proof.
  intros Hfetch r. subst r. unfold apiRequest.
  destruct methodOrOptions as [m | o]; cbn;
    rewrite Hfetch; cbn;
    (destruct (status response =? 401) eqn:H401; cbn;
     [ repeat split; reflexivity
     | destruct (json response) as [data | e]; cbn; [ | reflexivity ];
       destruct (ok response); cbn; [ reflexivity | ];
       destruct (get_prop data "error"); cbn; eauto ]).
Qed.

Lemma apiRequest_by_status_witness :
  let r := run (env_of not_json_world)
             (apiRequest "/departments" (AsOptions no_options) VNull)
             (start signed_in) in
  fst r = Threw (VError "Unexpected end of JSON input").
Proof.
  exact (apiRequest_by_status (env_of not_json_world) "/departments"
           (AsOptions no_options) VNull (start signed_in)
           {| status := 200;
              json := Rejected (VError "Unexpected end of JSON input") |}
           (fun _ _ => eq_refl)).
Defined.

(** C10 as stated fails: with status 200, [response.ok] is true, and yet
    the call throws, because the body is not JSON. *)
Lemma apiRequest_throws_although_ok :
  let response :=
    {| status := 200;
       json := Rejected (VError "Unexpected end of JSON input") |} in
  fetch_result not_json_world "" no_options 0%nat = Resolved response
  /\ status response <> 401
  /\ ok response = true
  /\ exists e,
       fst (run (env_of not_json_world)
              (apiRequest "/departments" (AsOptions no_options) VNull)
              (start signed_in)) = Threw e.
Proof.
  cbn. repeat split; [ discriminate | eauto ].
Qed.

End ApiRequest.

(** ** The semantics of the combinators *)

Section Combinators.
Context {S : Type}.

Lemma run_bind {A B} (env : Env) (p : Prog S A) (f : A -> Prog S B)
    (c : Cfg S) :
  run env (bind p f) c =
  match run env p c with
  | (Returned a, c') => run env (f a) c'
  | (Threw e, c') => (Threw e, c')
  end.
Proof.
  revert B f c.
  induction p as [ A r | A e | A k IH | A g k IH | A l a k IH | A X e k IH
                 | A child _ k IH ]; intros B f c; cbn; auto.
  destruct (advance env child c) as [s c']. apply IH.
Qed.

Lemma run_try_catch {R} (env : Env) (p : Prog S R) (h : JsVal -> Prog S R)
    (c : Cfg S) :
  run env (try_catch p h) c =
  match run env p c with
  | (Returned r, c') => (Returned r, c')
  | (Threw e, c') => run env (h e) c'
  end.
Proof.
  revert h c.
  induction p as [ A r | A e | A k IH | A g k IH | A l a k IH | A X e k IH
                 | A child _ k IH ]; intros h c; cbn; auto.
  destruct (advance env child c) as [s c']. apply IH.
Qed.

Lemma run_try_finally {R} (env : Env) (p : Prog S R) (q : Prog S unit)
    (c : Cfg S) :
  run env (try_finally p q) c =
  match run env p c with
  | (o, c') =>
      match run env q c' with
      | (Returned _, c'') => (o, c'')
      | (Threw e, c'') => (Threw e, c'')
      end
  end.
Proof.
  revert c.
  induction p as [ A r | A e | A k IH | A g k IH | A l a k IH | A X e k IH
                 | A child _ k IH ]; intros c; cbn; auto.
  - rewrite run_bind. destruct (run env q c) as [[[] | e] c']; reflexivity.
  - rewrite run_bind. destruct (run env q c) as [[[] | e'] c']; reflexivity.
  - destruct (advance env child c) as [s c']. apply IH.
Qed.

Lemma run_for_of_cons {A} (env : Env) (x : A) (xs : list A)
    (body : A -> Prog S unit) (c : Cfg S) :
  run env (for_of (x :: xs) body) c =
  match run env (body x) c with
  | (Returned _, c') => run env (for_of xs body) c'
  | (Threw e, c') => (Threw e, c')
  end.
Proof. cbn [for_of]. apply run_bind. Qed.

Lemma run_gets {A} (env : Env) (f : S -> A) (c : Cfg S) :
  run env (gets f) c = (Returned (f (st c)), c).
Proof. reflexivity. Qed.

Lemma run_modify (env : Env) (f : S -> S) (c : Cfg S) :
  run env (modify f) c = (Returned tt, set_st f c).
Proof. reflexivity. Qed.

Lemma env_unit (env : Env) (e : Ext unit) (n : nat) : env unit e n = tt.
Proof. destruct (env unit e n). reflexivity. Qed.

(** Awaiting a call adds one turn of the event loop and nothing else. *)
Lemma run_await {A} (env : Env) (p : Prog S A) (c : Cfg S) :
  run env (await p) c =
  (fst (run env p c), answered Yield tt (snd (run env p c))).
Proof.
  unfold await, capture, mbind, Prog_bind.
  rewrite run_bind, run_try_catch, run_bind.
  destruct (run env p c) as [[a | e] c']; cbn;
    rewrite env_unit; reflexivity.
Qed.

Lemma run_invoke {A} (env : Env) (call : Callee S A) (c : Cfg S) :
  run env (invoke call) c =
  match run env call c with
  | (Returned promise, c1) => run env promise c1
  | (Threw e, c1) => (Threw e, c1)
  end.
Proof. apply run_bind. Qed.

(** [await f(args)]: an exception of the call is thrown at once, and the
    settling of a promise adds one turn of the event loop. *)
Lemma run_await_of {A} (env : Env) (call : Callee S A) (c : Cfg S) :
  run env (await_of call) c =
  match run env call c with
  | (Returned promise, c1) =>
      (fst (run env promise c1), answered Yield tt (snd (run env promise c1)))
  | (Threw e, c1) => (Threw e, c1)
  end.
Proof.
  unfold await_of, mbind, Prog_bind. rewrite run_bind.
  destruct (run env call c) as [[promise | e] c1]; [ | reflexivity ].
  apply run_await.
Qed.

Lemma run_await_of_invoke {A} (env : Env) (call : Callee S A) (c : Cfg S) :
  let r := run env (invoke call) c in
  fst (run env (await_of call) c) = fst r
  /\ (snd (run env (await_of call) c) = snd r
      \/ snd (run env (await_of call) c) = answered Yield tt (snd r)).
Proof.
  cbv zeta. rewrite run_await_of, run_invoke.
  destruct (run env call c) as [[promise | e] c1]; cbn [fst snd]; auto.
Qed.

End Combinators.

(** ** The two wrappers of [apiRequest] *)

(** C8, as the code has it.  A request made with an options object whose
    method, upper-cased as the wrappers do, is none of POST, PUT and
    DELETE (GET when the options name no method) goes straight to the
    original [apiRequest]: each wrapper completes as the original does
    when called with the same endpoint and options, and leaves the page,
    the console and the detached computations as the original left them,
    but for the turn of the event loop that the [await] of the wrapper
    adds when the original returned a promise. *)
Theorem wrappers_pass_reads_through (env : Env)
    (originalApiRequest : ApiRequest)
    (endpoint : string) (options : Options) (body : JsVal) (c : Cfg Page) :
  let m := toUpperCase (RealtimeSync.method_or_GET options) in
  m <> "POST" -> m <> "PUT" -> m <> "DELETE" ->
  let r := run env
             (invoke (originalApiRequest endpoint (Config.AsOptions options)
                        VUndefined)) c in
  let realtime :=
    run env
      (invoke (RealtimeSync.wrapApiRequest originalApiRequest endpoint
                 (Config.AsOptions options) body)) c in
  let instant :=
    run env
      (invoke (InstantResponse.wrapApiForInstantResponse originalApiRequest
                 endpoint (Config.AsOptions options) body)) c in
  fst realtime = fst r
  /\ (snd realtime = snd r \/ snd realtime = answered Yield tt (snd r))
  /\ instant = realtime.
Proof.
  intros m Hpost Hput Hdelete r realtime instant.
  assert (RealtimeSync.isModifyingOperation
            (RealtimeSync.method_or_GET options) = false) as Hread.
  { unfold RealtimeSync.isModifyingOperation. fold m. cbn.
    destruct (String.eqb_spec m "POST"); [ contradiction | ].
    destruct (String.eqb_spec m "PUT"); [ contradiction | ].
    destruct (String.eqb_spec m "DELETE"); [ contradiction | ].
    reflexivity. }
  assert (realtime
          = run env (await_of (originalApiRequest endpoint
                                 (Config.AsOptions options) VUndefined)) c)
    as Hrealtime.
  { subst realtime.
    unfold RealtimeSync.wrapApiRequest, invoke, async_function, mbind,
      Prog_bind.
    cbn [bind RealtimeSync.requested_method]. rewrite Hread. reflexivity. }
  assert (instant = realtime) as Hinstant.
  { rewrite Hrealtime. subst instant.
    unfold InstantResponse.wrapApiForInstantResponse, invoke,
      async_function, mbind, Prog_bind.
    cbn [bind RealtimeSync.requested_method]. rewrite Hread. reflexivity. }
  destruct (run_await_of_invoke env
              (originalApiRequest endpoint (Config.AsOptions options)
                 VUndefined) c) as (Hfst & Hsnd).
  split; [ rewrite Hrealtime; exact Hfst | ].
  split; [ rewrite Hrealtime; exact Hsnd | exact Hinstant ].
Qed.

Lemma wrappers_pass_reads_through_witness :
  let r := run (env_of healthy_world)
             (invoke (Window.apiRequest "/departments"
                        (Config.AsOptions Config.no_options) VUndefined))
             (start fresh_page) in
  let realtime :=
    run (env_of healthy_world)
      (invoke (RealtimeSync.wrapApiRequest Window.apiRequest "/departments"
                 (Config.AsOptions Config.no_options) VUndefined))
      (start fresh_page) in
  let instant :=
    run (env_of healthy_world)
      (invoke (InstantResponse.wrapApiForInstantResponse Window.apiRequest
                 "/departments" (Config.AsOptions Config.no_options)
                 VUndefined))
      (start fresh_page) in
  fst realtime = fst r
  /\ (snd realtime = snd r \/ snd realtime = answered Yield tt (snd r))
  /\ instant = realtime.
Proof.
  apply (wrappers_pass_reads_through (env_of healthy_world)
           Window.apiRequest "/departments" Config.no_options VUndefined
           (start fresh_page));
    discriminate.
Defined.

(** C8 as stated fails in two ways.  The wrappers compare the method
    upper-cased, so a request with the method [post], which is not the
    string [POST], gets the bookkeeping: after it the console holds the
    status lines of [executeOperation], and [optimisticUpdates] holds a
    record that the original call does not leave.  And a request in the
    method form, [apiRequest(endpoint, 'PATCH', data)], reaches the
    original without its data: the wrappers read [options.method] of the
    string, find none, and pass on two arguments. *)
Lemma wrappers_change_other_requests :
  let env := env_of echo_world in
  let original (options : Config.MethodOrOptions) (body : JsVal) :=
    run env (invoke (Window.apiRequest "/registrations" options body))
      (start fresh_page) in
  let realtime (options : Config.MethodOrOptions) (body : JsVal) :=
    run env
      (invoke (RealtimeSync.wrapApiRequest Window.apiRequest
                 "/registrations" options body)) (start fresh_page) in
  let instant (options : Config.MethodOrOptions) (body : JsVal) :=
    run env
      (invoke (InstantResponse.wrapApiForInstantResponse Window.apiRequest
                 "/registrations" options body)) (start fresh_page) in
  let post := Config.AsOptions lower_case_post in
  let patch := Config.AsMethod "PATCH" in
  In (Console LogLevel [VStr "操作状态: 进行中... (info)"])
    (trace (snd (realtime post VUndefined)))
  /\ instantResponse (st (snd (instant post VUndefined)))
     <> instantResponse (st (snd (original post VUndefined)))
  /\ fst (original patch patch_data) = Returned (VBool true)
  /\ fst (realtime patch patch_data) = Returned (VBool false)
  /\ fst (instant patch patch_data) = Returned (VBool false).
Proof.
  split; [ vm_compute; tauto | ].
  split; [ | vm_compute; auto ].
  vm_compute. intros H. inversion H.
Qed.

(** ** [triggerCallbacks] *)

Section TriggerCallbacks.
Import RealtimeSyncObject.

(** One round of the loop of [triggerCallbacks]: the callback is called,
    and a rejection ends in the [catch] block. *)
Lemma run_callback_round (env : Env) (result : JsVal) (callback : FnRef)
    (c : Cfg Page) :
  exists c1,
    run env
      (try_catch (await_call callback [result];; Ret tt)
         (fun error => console_error [VStr "回调执行失败:"; error])) c
    = (Returned tt, c1)
    /\ st c1 = st c
    /\ calls (trace c1) = (callback, [result]) :: calls (trace c).
Proof.
  cbn. destruct (env _ (Call callback [result]) (tick c)); cbn; eauto.
Qed.

(** The loop of [triggerCallbacks]: every callback is called with
    [result], however the ones before it settled. *)
Lemma run_callbacks_loop (env : Env) (result : JsVal)
    (callbacks : list FnRef) (c : Cfg Page) :
  exists c',
    run env
      (for_of callbacks (fun callback =>
         try_catch (await_call callback [result];; Ret tt)
           (fun error => console_error [VStr "回调执行失败:"; error]))) c
    = (Returned tt, c')
    /\ st c' = st c
    /\ calls (trace c')
       = rev (map (fun callback => (callback, [result])) callbacks)
         ++ calls (trace c).
Proof.
  revert c. induction callbacks as [ | callback rest IH ]; intros c.
  - exists c. cbn. auto.
  - rewrite run_for_of_cons.
    destruct (run_callback_round env result callback c)
      as (c1 & -> & Hs & Hc).
    destruct (IH c1) as (c' & -> & Hst & Hcalls).
    exists c'. repeat split.
    + congruence.
    + rewrite Hcalls, Hc. cbn [map rev]. rewrite <- app_assoc. reflexivity.
Qed.

(** C4.  [triggerCallbacks] calls every callback registered for the
    operation, in order and with the result, whether the callbacks before
    it resolved or threw; it never throws itself and leaves the page as it
    was. *)
Theorem triggerCallbacks_calls_every_callback (env : Env)
    (operation : string) (result : JsVal) (c : Cfg Page) :
  let callbacks :=
    default [] (syncCallbacks (realtimeSync (st c)) !! operation) in
  let r := run env (RealtimeSync.triggerCallbacks operation result) c in
  fst r = Returned VUndefined
  /\ st (snd r) = st c
  /\ calls (trace (snd r))
     = rev (map (fun callback => (callback, [result])) callbacks)
       ++ calls (trace c).
Proof.
  intros callbacks r.
  destruct (run_callbacks_loop env result callbacks c)
    as (c' & Hrun & Hst & Hc).
  assert (r = (Returned VUndefined, c')) as ->.
  { subst r. unfold RealtimeSync.triggerCallbacks, mbind, Prog_bind.
    rewrite run_bind. unfold RealtimeSync.this. rewrite run_gets.
    rewrite run_bind. fold callbacks.
    unfold mbind, Prog_bind in Hrun. rewrite Hrun. reflexivity. }
  auto.
Qed.

End TriggerCallbacks.

(** ** Validation and failures after an operation *)

Section AfterOperation.
Import InstantResponseObject.

(** C5, as the code has it.  Nothing acknowledges the write:
    [validateOperation] answers [true] without any event, [waitForSync]
    returns at once, and [backgroundSync] waits its 100 ms, takes the
    validation for granted and drops the record of the optimistic update,
    whatever the environment does. *)
Theorem backgroundSync_assumes_success (env : Env)
    (operationId operation : string) (c : Cfg Page) :
  run env (InstantResponse.validateOperation operation) c = (Returned true, c)
  /\ run env RealtimeSync.waitForSync c = (Returned VUndefined, c)
  /\ run env (InstantResponse.backgroundSync operationId operation) c
     = (Returned VUndefined,
        {| st := over_instantResponse
                   (set_optimisticUpdates (delete operationId)) (st c);
           tick := S (S (tick c));
           trace := Console LogLevel [VStr "后台同步验证成功"]
                    :: Event Yield tt :: Event (Sleep 100) tt :: trace c;
           detached := detached c |}).
Proof.
  repeat split. cbn. rewrite !env_unit. reflexivity.
Qed.

(** C5 as stated fails: with the server unreachable and every function of
    the page failing, the write of operation [17] is still taken as
    confirmed after the fixed delay, and its rollback function is never
    called. *)
Lemma backgroundSync_trusts_unchecked_write :
  let r := run (env_of (failing_world (VError "write was lost")))
             (InstantResponse.backgroundSync "17" "POST /registrations")
             (start page_with_update) in
  fst r = Returned VUndefined
  /\ trace (snd r)
     = [ Console LogLevel [VStr "后台同步验证成功"];
         Event Yield tt; Event (Sleep 100) tt ]
  /\ calls (trace (snd r)) = []
  /\ optimisticUpdates (instantResponse (st (snd r))) !! "17" = None.
Proof. cbn. repeat split. Qed.

(** A [catch] block that only logs ends every exception. *)
Lemma run_catch_and_log {S} (env : Env) (p : Prog S unit)
    (label : JsVal) (c : Cfg S) :
  exists c', run env (try_catch p
                        (fun error => console_error [label; error])) c
             = (Returned tt, c').
Proof.
  rewrite run_try_catch.
  destruct (run env p c) as [[[] | e] c1]; cbn; eauto.
Qed.



End AfterOperation.

(** ** [refreshAfterUserAction], one call at a time *)

Section RefreshRun.
Import OnDemandRefresh.

(** A run that starts always ends with [isRefreshing] reset, whatever the
    loaders do and however the run completes. *)
Lemma refreshAfterUserAction_resets_flag (env : Env) (actionType : string)
    (targetSection : option string) (c : Cfg State) :
  isRefreshing (st c) = false ->
  isRefreshing
    (st (snd (run env (refreshAfterUserAction actionType targetSection) c)))
  = false.
Proof.
  intros Hidle. unfold refreshAfterUserAction, mbind, Prog_bind.
  cbn [bind get run]. rewrite Hidle. cbn [bind modify run].
  rewrite run_bind, run_try_finally.
  destruct (run env (try_catch _ _) _) as [o c1].
  rewrite run_modify. destruct o; reflexivity.
Qed.

Lemma throws_only_bind (P : JsVal -> Prop) (env : Env) {A B}
    (p : Prog State A) (f : A -> Prog State B) :
  throws_only P env p -> (forall a, throws_only P env (f a)) ->
  throws_only P env (bind p f).
Proof.
  intros Hp Hf c e c' Hrun. rewrite run_bind in Hrun.
  destruct (run env p c) as [[a | e1] c1] eqn:Hrun1.
  - eapply Hf, Hrun.
  - inversion Hrun; subst. eapply Hp, Hrun1.
Qed.

Lemma throws_only_try_catch (P Q : JsVal -> Prop) (env : Env) {R}
    (p : Prog State R) (h : JsVal -> Prog State R) :
  throws_only Q env p -> (forall e, Q e -> throws_only P env (h e)) ->
  throws_only P env (try_catch p h).
Proof.
  intros Hp Hh c e c' Hrun. rewrite run_try_catch in Hrun.
  destruct (run env p c) as [[a | e1] c1] eqn:Hrun1.
  - discriminate.
  - eapply Hh; [ eapply Hp, Hrun1 | exact Hrun ].
Qed.

Lemma throws_only_await (P : JsVal -> Prop) (env : Env) {A}
    (p : Prog State A) :
  throws_only P env p -> throws_only P env (await p).
Proof.
  intros Hp c e c' Hrun. rewrite run_await in Hrun.
  destruct (run env p c) as [[a | e1] c1] eqn:Hrun1; cbn in Hrun.
  - discriminate.
  - inversion Hrun; subst. eapply Hp, Hrun1.
Qed.

Lemma throws_only_for_of (P : JsVal -> Prop) (env : Env) {A} (xs : list A)
    (body : A -> Prog State unit) :
  (forall x, throws_only P env (body x)) ->
  throws_only P env (for_of xs body).
Proof.
  intros Hbody. induction xs as [ | x xs IH ].
  - intros c e c' Hrun. discriminate.
  - cbn [for_of]. apply throws_only_bind; auto.
Qed.

Lemma throws_only_call_if_function (P : JsVal -> Prop) (env : Env)
    (name : string) :
  rejections P env ->
  throws_only P env (call_if_function (S := State) name).
Proof.
  intros Hrej c e c' Hrun. cbn in Hrun.
  destruct (env bool (TypeofFunction name) (tick c)); cbn in Hrun;
    [ | discriminate ].
  destruct (env _ (Call (Global name) []) _) as [v | e1] eqn:Hcall;
    cbn in Hrun; [ discriminate | ].
  inversion Hrun; subst. eapply Hrej, Hcall.
Qed.

Lemma throws_only_refreshSection (P : JsVal -> Prop) (env : Env)
    (sectionName : string) :
  rejections P env -> throws_only P env (refreshSection sectionName).
Proof.
  intros Hrej. unfold refreshSection, mbind, Prog_bind.
  apply throws_only_bind; [ intros c e c' H; discriminate | intros _ ].
  apply throws_only_bind; [ | intros _ c e c' H; discriminate ].
  apply throws_only_try_catch with (Q := P).
  - destruct (String.eqb sectionName "myRegistrations");
      [ apply throws_only_call_if_function; auto | ].
    destruct (String.eqb sectionName "booking").
    + apply throws_only_bind;
        [ apply throws_only_call_if_function; auto | intros _ ].
      apply throws_only_bind; [ intros c e c' H; cbn in H; discriminate | ].
      intros [value | ]; [ | intros c e c' H; discriminate ].
      destruct (String.eqb value "");
        [ intros c e c' H; discriminate
        | apply throws_only_call_if_function; auto ].
    + destruct (String.eqb sectionName "profile");
        [ apply throws_only_call_if_function; auto
        | intros c e c' H; discriminate ].
  - intros e He c e' c' Hrun. cbn in Hrun. inversion Hrun; subst. exact He.
Qed.

Lemma throws_only_refreshBody (env : Env) (actionType : string)
    (targetSection : option string) :
  rejections not_nullish env ->
  throws_only not_nullish env (refreshBody actionType targetSection).
Proof.
  intros Hrej. unfold refreshBody, mbind, Prog_bind.
  apply throws_only_bind; [ intros c e c' H; discriminate | intros _ ].
  apply throws_only_bind.
  { intros c e c' H. unfold getSectionsToRefresh, getCurrentSection in H.
    destruct targetSection as [t | ]; [ destruct (String.eqb t "") | ];
      cbn in H;
      try destruct (env _ ActiveSectionId (tick c));
      cbn in H; discriminate. }
  intros sections.
  apply throws_only_bind; [ | intros _ c e c' H; discriminate ].
  destruct sections as [sections | ].
  - apply throws_only_for_of. intros section.
    apply throws_only_bind; [ intros c e c' H; discriminate | ].
    intros [ | ]; [ | intros c e c' H; discriminate ].
    apply throws_only_bind; [ | intros _ c e c' H; discriminate ].
    apply throws_only_await, throws_only_refreshSection, Hrej.
  - intros c e c' H. inversion H; subst. split; discriminate.
Qed.

(** When the functions of the page reject with values other than [null]
    and [undefined], no call of [refreshAfterUserAction] throws. *)
Lemma refreshAfterUserAction_contains_errors (env : Env)
    (actionType : string) (targetSection : option string) (c : Cfg State) :
  rejections not_nullish env ->
  fst (run env (refreshAfterUserAction actionType targetSection) c)
  = Returned VUndefined.
Proof.
  intros Hrej. unfold refreshAfterUserAction, mbind, Prog_bind.
  cbn [bind get run]. destruct (isRefreshing (st c)); [ reflexivity | ].
  cbn [bind modify run]. rewrite run_bind, run_try_finally.
  destruct (run env (try_catch _ _) _) as [o c1] eqn:Hrun.
  rewrite run_modify. destruct o as [[] | e]; [ reflexivity | exfalso ].
  eapply (throws_only_try_catch (fun _ => False) not_nullish) in Hrun;
    [ exact Hrun | apply throws_only_refreshBody, Hrej | ].
  intros e1 [Hu Hn] c2 e2 c3 H. unfold refreshCatch in H.
  destruct e1; try contradiction; cbn in H; discriminate.
Qed.

(** C3 at the failing input: [loadRegistrations] rejects with
    [undefined].  The [catch] block reads [error.message], the
    [TypeError] of that read leaves [refreshAfterUserAction] through the
    [finally] block, which resets [isRefreshing]. *)
Theorem refreshAfterUserAction_rethrows_on_undefined :
  let r := run (env_of (failing_world VUndefined))
             (refreshAfterUserAction "create_registration" None)
             (start constructor) in
  fst r = Threw TypeError_nullish /\ isRefreshing (st (snd r)) = false.
Proof. cbn. split; reflexivity. Qed.

End RefreshRun.

(** ** The [latest_timestamp] policy *)

Section LatestTimestamp.
Import Engine.

Lemma prefer_spec (a b : Snapshot) :
  prefer a b = true <->
  updated_at (snap_record b) < updated_at (snap_record a)
  \/ (updated_at (snap_record a) = updated_at (snap_record b)
      /\ ((priority_rank (snap_store a) < priority_rank (snap_store b))%nat
          \/ (priority_rank (snap_store a) = priority_rank (snap_store b)
              /\ String.leb (store_id (snap_store a))
                            (store_id (snap_store b)) = true))).
Proof.
  unfold prefer.
  destruct (Z.ltb_spec (updated_at (snap_record b))
              (updated_at (snap_record a))); [ intuition lia | ].
  destruct (Z.ltb_spec (updated_at (snap_record a))
              (updated_at (snap_record b))); [ intuition (try lia; discriminate) | ].
  destruct (Nat.ltb_spec (priority_rank (snap_store a))
              (priority_rank (snap_store b))); [ intuition lia | ].
  destruct (Nat.ltb_spec (priority_rank (snap_store b))
              (priority_rank (snap_store a)));
    [ intuition (try lia; discriminate) | ].
  intuition lia.
Qed.

Lemma prefer_total (a b : Snapshot) : prefer a b = true \/ prefer b a = true.
Proof.
  rewrite !prefer_spec.
  destruct (Z.lt_trichotomy (updated_at (snap_record a))
              (updated_at (snap_record b))) as [Ht | [Ht | Ht]];
    [ right; left; lia | | left; left; lia ].
  destruct (Nat.lt_trichotomy (priority_rank (snap_store a))
              (priority_rank (snap_store b))) as [Hr | [Hr | Hr]];
    [ left; right; split; [ lia | left; lia ]
    | | right; right; split; [ lia | left; lia ] ].
  destruct (String.leb_total (store_id (snap_store a))
              (store_id (snap_store b)));
    [ left | right ]; right; (split; [ lia | ]); right; auto.
Qed.

Lemma leb_trans (x y z : string) :
  String.leb x y = true -> String.leb y z = true -> String.leb x z = true.
Proof.
  intros Hxy Hyz. apply Is_true_true.
  change (String.le x z). transitivity y; apply Is_true_true; assumption.
Qed.

Lemma prefer_trans (a b c : Snapshot) :
  prefer a b = true -> prefer b c = true -> prefer a c = true.
Proof.
  rewrite !prefer_spec.
  intros [Hab | (Hab & [Hr | (Hr & Hs)])] [Hbc | (Hbc & [Hr' | (Hr' & Hs')])];
    try lia.
  right. split; [ lia | ]. right. split; [ lia | ]. eapply leb_trans; eauto.
Qed.

Lemma prefer_antisym (a b : Snapshot) :
  prefer a b = true -> prefer b a = true ->
  store_id (snap_store a) = store_id (snap_store b).
Proof.
  rewrite !prefer_spec.
  intros [Hab | (Hab & [Hr | (Hr & Hs)])] [Hba | (Hba & [Hr' | (Hr' & Hs')])];
    try lia.
  apply String.leb_antisym; assumption.
Qed.

(** The winner is one of the snapshots and wins against each of them. *)
Lemma latest_timestamp_winner_maximal (snaps : list Snapshot) :
  snaps <> [] ->
  exists w, latest_timestamp_winner snaps = Some w
            /\ w ∈ snaps
            /\ forall s, s ∈ snaps -> prefer w s = true.
Proof.
  induction snaps as [ | a rest IH ]; [ congruence | intros _ ].
  cbn [latest_timestamp_winner]. destruct rest as [ | b rest ].
  - exists a. cbn. split; [ reflexivity | ]. split; [ left | ].
    intros s Hs. apply list_elem_of_singleton in Hs as ->.
    destruct (prefer_total a a); assumption.
  - destruct IH as (w & -> & Hin & Hmax); [ congruence | ].
    destruct (prefer a w) eqn:Haw.
    + exists a. split; [ reflexivity | ]. split; [ left | ].
      intros s Hs. apply elem_of_cons in Hs as [-> | Hs].
      * destruct (prefer_total a a); assumption.
      * eapply prefer_trans; [ exact Haw | auto ].
    + exists w. split; [ reflexivity | ]. split; [ right; exact Hin | ].
      intros s Hs. apply elem_of_cons in Hs as [-> | Hs]; [ | auto ].
      destruct (prefer_total w a) as [ | Hcontra ]; congruence.
Qed.

Lemma same_store_same_snapshot (snaps : list Snapshot) (a b : Snapshot) :
  NoDup (map (fun s => store_id (snap_store s)) snaps) ->
  a ∈ snaps -> b ∈ snaps ->
  store_id (snap_store a) = store_id (snap_store b) -> a = b.
Proof.
  induction snaps as [ | x rest IH ]; cbn; intros Hnd Ha Hb Hid.
  - inversion Ha.
  - apply NoDup_cons in Hnd as (Hx & Hnd).
    apply elem_of_cons in Ha as [-> | Ha];
      apply elem_of_cons in Hb as [-> | Hb]; auto.
    + exfalso. apply Hx. rewrite Hid.
      apply (list_elem_of_fmap_2 (fun s => store_id (snap_store s))), Hb.
    + exfalso. apply Hx. rewrite <- Hid.
      apply (list_elem_of_fmap_2 (fun s => store_id (snap_store s))), Ha.
Qed.

(** C7.  Over snapshots of distinct stores, the [latest_timestamp] winner
    is one of the snapshots, none has a greater [updated_at], among those
    written at the same time it has the first priority rank and, at equal
    rank, the first [store_id] in lexical order, and the same winner comes
    out in whatever order the snapshots are collected. *)
Theorem latest_timestamp_winner_deterministic (snaps : list Snapshot) :
  snaps <> [] ->
  NoDup (map (fun s => store_id (snap_store s)) snaps) ->
  exists w,
    latest_timestamp_winner snaps = Some w
    /\ w ∈ snaps
    /\ (forall s, s ∈ snaps ->
          updated_at (snap_record s) <= updated_at (snap_record w))
    /\ (forall s, s ∈ snaps ->
          updated_at (snap_record s) = updated_at (snap_record w) ->
          (priority_rank (snap_store w) < priority_rank (snap_store s))%nat
          \/ (priority_rank (snap_store w) = priority_rank (snap_store s)
              /\ String.leb (store_id (snap_store w))
                            (store_id (snap_store s)) = true))
    /\ (forall snaps', snaps' ≡ₚ snaps ->
          latest_timestamp_winner snaps' = Some w).
Proof.
  intros Hne Hnd.
  destruct (latest_timestamp_winner_maximal snaps Hne) as (w & Hw & Hin & Hmax).
  exists w. split; [ exact Hw | ]. split; [ exact Hin | ].
  split; [ | split ].
  - intros s Hs. apply Hmax, prefer_spec in Hs.
    destruct Hs as [Hs | (Hs & _)]; lia.
  - intros s Hs Heq. apply Hmax, prefer_spec in Hs.
    destruct Hs as [Hs | (_ & Hs)]; [ lia | exact Hs ].
  - intros snaps' Hperm.
    destruct (latest_timestamp_winner_maximal snaps') as (w' & Hw' & Hin' & Hmax').
    { intros ->. apply Permutation_nil_l in Hperm. congruence. }
    rewrite Hw'. f_equal.
    apply (same_store_same_snapshot snaps); auto.
    + rewrite <- Hperm. exact Hin'.
    + apply prefer_antisym.
      * apply Hmax'. rewrite Hperm. exact Hin.
      * apply Hmax. rewrite <- Hperm. exact Hin'.
Qed.

Lemma latest_timestamp_winner_deterministic_witness :
  exists w,
    latest_timestamp_winner tied_snapshots = Some w
    /\ w ∈ tied_snapshots
    /\ (forall s, s ∈ tied_snapshots ->
          updated_at (snap_record s) <= updated_at (snap_record w))
    /\ (forall s, s ∈ tied_snapshots ->
          updated_at (snap_record s) = updated_at (snap_record w) ->
          (priority_rank (snap_store w) < priority_rank (snap_store s))%nat
          \/ (priority_rank (snap_store w) = priority_rank (snap_store s)
              /\ String.leb (store_id (snap_store w))
                            (store_id (snap_store s)) = true))
    /\ (forall snaps', snaps' ≡ₚ tied_snapshots ->
          latest_timestamp_winner snaps' = Some w).
Proof.
  apply (latest_timestamp_winner_deterministic tied_snapshots).
  - discriminate.
  - apply (bool_decide_unpack _). vm_compute. exact I.
Defined.

End LatestTimestamp.

(** ** Convergence of a sync pass *)

Section Convergence.
Import Engine.

Lemma latest_timestamp_winner_None (snaps : list Snapshot) :
  latest_timestamp_winner snaps = None -> snaps = [].
Proof.
  destruct snaps as [ | a rest ]; [ reflexivity | cbn ].
  destruct (latest_timestamp_winner rest) as [w | ];
    [ destruct (prefer a w) | ]; discriminate.
Qed.

(** A touched identity was changed in some reachable store. *)
Lemma touched_changed (stores : list Store) (id : Identity) :
  id ∈ touched stores -> changed_snapshots stores id <> [].
Proof.
  unfold touched. rewrite elem_of_union_list.
  intros (X & HX & Hid).
  apply list_elem_of_In, in_map_iff in HX as (s & <- & Hs).
  destruct (reachable (handle s)) eqn:Hreach; [ | set_solver ].
  apply elem_of_dom in Hid as (r & Hr).
  intros Hnil.
  assert ({| snap_store := handle s; snap_record := r |}
          ∈ changed_snapshots stores id) as Hin.
  { apply list_elem_of_omap. exists s. split; [ apply list_elem_of_In, Hs | ].
    rewrite Hreach, Hr. reflexivity. }
  rewrite Hnil in Hin. inversion Hin.
Qed.

Lemma changed_snapshots_subset (stores : list Store) (id : Identity) :
  changed_snapshots stores id <> [] -> snapshots stores id <> [].
Proof.
  intros Hchanged Hnil.
  destruct (changed_snapshots stores id) as [ | a rest ] eqn:Heq;
    [ congruence | ].
  assert (a ∈ changed_snapshots stores id) as Hin by (rewrite Heq; left).
  apply list_elem_of_omap in Hin as (s & Hs & Ha).
  destruct (reachable (handle s)) eqn:Hreach; [ | discriminate ].
  destruct (fetchChanged s !! id) as [r | ] eqn:Hr; [ | discriminate ].
  apply map_lookup_filter_Some in Hr as (Hr & _).
  assert ({| snap_store := handle s; snap_record := r |}
          ∈ snapshots stores id) as Hin.
  { apply list_elem_of_omap. exists s. split; [ exact Hs | ].
    rewrite Hreach, Hr. reflexivity. }
  rewrite Hnil in Hin. inversion Hin.
Qed.

(** For a touched identity the engine either names a winner or leaves the
    conflict open. *)
Lemma resolve_touched (policy : Policy) (stores : list Store)
    (id : Identity) :
  id ∈ touched stores -> resolve policy stores id <> Nothing.
Proof.
  intros Hchanged%touched_changed.
  pose proof (changed_snapshots_subset stores id Hchanged) as Hall.
  unfold resolve.
  destruct (divergent (changed_snapshots stores id)).
  - destruct policy as [ | p | ]; try discriminate.
    + destruct (latest_timestamp_winner (snapshots stores id)) eqn:Hw;
        [ discriminate | ].
      apply latest_timestamp_winner_None in Hw. contradiction.
    + destruct (List.find _ (snapshots stores id)); [ discriminate | ].
      destruct (latest_timestamp_winner (snapshots stores id)) eqn:Hw;
        [ discriminate | ].
      apply latest_timestamp_winner_None in Hw. contradiction.
  - destruct (latest_timestamp_winner (changed_snapshots stores id)) eqn:Hw;
      [ discriminate | ].
    apply latest_timestamp_winner_None in Hw. contradiction.
Qed.

Lemma apply_one_other (apply_ok : ApplyOracle)
    (decide_id : Identity -> Decision) (sid : string) (x id : Identity)
    (m : gmap Identity Rec) :
  x <> id -> apply_one apply_ok decide_id sid x m !! id = m !! id.
Proof.
  intros Hne. unfold apply_one.
  destruct (decide_id x) as [w conflict | | ]; try reflexivity.
  destruct (differs (m !! x) w && apply_ok sid x)%bool; [ | reflexivity ].
  apply lookup_insert_ne, Hne.
Qed.

(** After a needed apply that succeeded, or with nothing to apply, the
    store holds the winner's business state. *)
Lemma apply_one_winner (apply_ok : ApplyOracle)
    (decide_id : Identity -> Decision) (sid : string) (id : Identity)
    (m m0 : gmap Identity Rec) (w : Snapshot) (conflict : bool) :
  decide_id id = Winner w conflict ->
  m !! id = m0 !! id ->
  (differs (m0 !! id) w && negb (apply_ok sid id))%bool = false ->
  apply_one apply_ok decide_id sid id m !! id ≫= state
  = state (snap_record w).
Proof.
  intros Hdec Hm Hok. unfold apply_one. rewrite Hdec, Hm.
  unfold differs in *.
  destruct (bool_decide_reflect
              (m0 !! id ≫= state = state (snap_record w)))
    as [Hsame | Hdiff]; cbn in *.
  - rewrite Hm. exact Hsame.
  - destruct (apply_ok sid id); [ | discriminate ].
    rewrite lookup_insert_eq. reflexivity.
Qed.

Lemma sync_store_winner (apply_ok : ApplyOracle)
    (decide_id : Identity -> Decision) (sid : string) (ids : list Identity)
    (id : Identity) (m : gmap Identity Rec) (w : Snapshot)
    (conflict : bool) :
  NoDup ids -> id ∈ ids ->
  decide_id id = Winner w conflict ->
  (differs (m !! id) w && negb (apply_ok sid id))%bool = false ->
  foldr (apply_one apply_ok decide_id sid) m ids !! id ≫= state
  = state (snap_record w).
Proof.
  intros Hnd Hin Hdec Hok.
  induction ids as [ | x rest IH ]; [ inversion Hin | ].
  apply NoDup_cons in Hnd as (Hx & Hnd). cbn [foldr].
  destruct (decide (x = id)) as [-> | Hne].
  - apply apply_one_winner with (m0 := m) (conflict := conflict);
      [ exact Hdec | | exact Hok ].
    clear IH Hin. induction rest as [ | y rest IH ]; [ reflexivity | ].
    apply NoDup_cons in Hnd as (_ & Hnd).
    apply not_elem_of_cons in Hx as (Hne & Hx). cbn [foldr].
    rewrite apply_one_other by congruence. apply IH; assumption.
  - rewrite apply_one_other by exact Hne.
    apply elem_of_cons in Hin as [-> | Hin]; [ congruence | ].
    apply IH; assumption.
Qed.

(** A store whose outcome carries no error was reachable, and no apply
    it needed failed. *)
Lemma no_error_no_failure (apply_ok : ApplyOracle)
    (decide_id : Identity -> Decision) (ids : list Identity) (s : Store)
    (id : Identity) :
  error (outcome_of apply_ok decide_id ids s) = None ->
  id ∈ ids ->
  reachable (handle s) = true
  /\ apply_failed apply_ok decide_id s id = false.
Proof.
  unfold outcome_of. intros Hnone Hid.
  destruct (reachable (handle s)); [ | discriminate ].
  split; [ reflexivity | ].
  destruct (apply_failed apply_ok decide_id s id) eqn:Hfail;
    [ exfalso | reflexivity ].
  assert (In id (List.filter (apply_failed apply_ok decide_id s) ids)) as Hin.
  { apply filter_In. split; [ apply list_elem_of_In, Hid | exact Hfail ]. }
  cbn in Hnone. destruct (List.filter _ _); [ inversion Hin | discriminate ].
Qed.

(** After its part of the pass, such a store holds the winning state of
    every touched identity that has a winner. *)
Lemma synced_store_holds_winner (policy : Policy) (apply_ok : ApplyOracle)
    (start_time : Z) (stores : list Store) (s : Store) (id : Identity)
    (w : Snapshot) (conflict : bool) :
  error (outcome_of apply_ok (resolve policy stores)
           (elements (touched stores)) s) = None ->
  id ∈ touched stores ->
  resolve policy stores id = Winner w conflict ->
  business_state
    (sync_store apply_ok (resolve policy stores) (elements (touched stores))
       start_time s) id
  = state (snap_record w).
Proof.
  intros Hnone Hid Hdec.
  destruct (no_error_no_failure _ _ _ _ id Hnone) as (Hreach & Hfail);
    [ apply elem_of_elements, Hid | ].
  unfold business_state, sync_store. rewrite Hreach. cbn.
  eapply sync_store_winner;
    [ apply NoDup_elements | apply elem_of_elements, Hid | exact Hdec | ].
  unfold apply_failed in Hfail. rewrite Hdec in Hfail. exact Hfail.
Qed.

(** Partial failure isolation: whatever happens to the other stores, two
    stores that report no error agree after the pass on every touched
    identity whose conflict was not left open. *)
Lemma sync_pass_isolates_failures (policy : Policy) (apply_ok : ApplyOracle)
    (start_time : Z) (stores : list Store) (id : Identity) (s1 s2 : Store) :
  let decide_id := resolve policy stores in
  let ids := elements (touched stores) in
  error (outcome_of apply_ok decide_id ids s1) = None ->
  error (outcome_of apply_ok decide_id ids s2) = None ->
  id ∈ touched stores ->
  decide_id id <> OpenConflict ->
  business_state (sync_store apply_ok decide_id ids start_time s1) id
  = business_state (sync_store apply_ok decide_id ids start_time s2) id.
Proof.
  intros decide_id ids Hs1 Hs2 Hid Hopen. subst decide_id ids.
  destruct (resolve policy stores id) as [w c | | ] eqn:Hdec.
  - rewrite (synced_store_holds_winner policy apply_ok start_time stores s1
               id w c Hs1 Hid Hdec).
    rewrite (synced_store_holds_winner policy apply_ok start_time stores s2
               id w c Hs2 Hid Hdec).
    reflexivity.
  - congruence.
  - exfalso. eapply resolve_touched; eauto.
Qed.

(** In a run that reports [success], no store reported an error. *)
Lemma success_no_error (policy : Policy) (apply_ok : ApplyOracle)
    (start_time : Z) (stores : list Store) (s : Store) :
  status (snd (sync_pass policy apply_ok start_time stores)) = success ->
  s ∈ stores ->
  primary_reachable stores = true
  /\ error (outcome_of apply_ok (resolve policy stores)
              (elements (touched stores)) s) = None.
Proof.
  unfold sync_pass. destruct (primary_reachable stores); [ cbn | discriminate ].
  destruct (forallb _ _) eqn:Hall; [ intros _ | discriminate ].
  intros Hs. split; [ reflexivity | ].
  rewrite forallb_forall in Hall.
  eapply bool_decide_eq_true_1.
  apply (Hall (outcome_of apply_ok (resolve policy stores)
                 (elements (touched stores)) s)).
  apply in_map, list_elem_of_In, Hs.
Qed.

(** Convergence over any contents of the stores. *)
Lemma sync_pass_converges_on (policy : Policy) (apply_ok : ApplyOracle)
    (start_time : Z) (stores : list Store) (id : Identity) (s1 s2 : Store) :
  let r := sync_pass policy apply_ok start_time stores in
  status (snd r) = success ->
  id ∈ touched stores ->
  id ∉ open_conflicts (snd r) ->
  s1 ∈ fst r -> s2 ∈ fst r ->
  business_state s1 id = business_state s2 id.
Proof.
  intros r Hsuccess Hid Hopen Hs1 Hs2.
  pose proof (success_no_error policy apply_ok start_time stores) as Hok.
  specialize (fun s0 => Hok s0 Hsuccess).
  subst r. unfold sync_pass in *.
  destruct (primary_reachable stores); [ cbn in * | discriminate ].
  apply list_elem_of_In, in_map_iff in Hs1 as (t1 & <- & Ht1).
  apply list_elem_of_In, in_map_iff in Hs2 as (t2 & <- & Ht2).
  apply list_elem_of_In in Ht1, Ht2.
  apply sync_pass_isolates_failures;
    [ apply Hok, Ht1 | apply Hok, Ht2 | exact Hid | ].
  intros Hdec. apply Hopen, list_elem_of_In, filter_In.
  split; [ apply list_elem_of_In, elem_of_elements, Hid | ].
  rewrite Hdec. reflexivity.
Qed.

(** *** Writes *)

Lemma perform_map (writes : list Write) (stores : list Store) :
  perform writes stores = map (after_writes writes) stores.
Proof.
  revert stores. induction writes as [ | w writes IH ]; intros stores.
  - cbn. rewrite map_id. reflexivity.
  - cbn [perform fold_left]. fold (perform writes (map (write_to w) stores)).
    rewrite IH, map_map. reflexivity.
Qed.

Lemma write_to_handle (w : Write) (s : Store) :
  handle (write_to w s) = handle s /\ watermark (write_to w s) = watermark s.
Proof.
  unfold write_to.
  destruct (String.eqb (store_id (handle s)) (write_store_id w)); auto.
Qed.

Lemma after_writes_handle (writes : list Write) (s : Store) :
  handle (after_writes writes s) = handle s
  /\ watermark (after_writes writes s) = watermark s.
Proof.
  revert s. induction writes as [ | w writes IH ]; intros s; [ auto | ].
  cbn [after_writes fold_left]. fold (after_writes writes (write_to w s)).
  destruct (IH (write_to w s)) as (-> & ->). apply write_to_handle.
Qed.

Lemma write_to_holds_change (id : Identity) (w : Write) (s : Store) :
  (write_store_id w = store_id (handle s) -> write_identity w = id ->
   watermark s <= write_time w) ->
  holds_change id s -> holds_change id (write_to w s).
Proof.
  intros Htime (r & Hr & Hsince). unfold write_to, holds_change.
  destruct (String.eqb_spec (store_id (handle s)) (write_store_id w))
    as [Hsid | _]; [ cbn | eauto ].
  destruct (decide (write_identity w = id)) as [Hid | Hne].
  - exists (written w). rewrite <- Hid, lookup_insert_eq.
    split; [ reflexivity | cbn; auto ].
  - exists r. rewrite lookup_insert_ne by exact Hne. auto.
Qed.

Lemma after_writes_holds_change (id : Identity) (writes : list Write)
    (s : Store) :
  written_since (store_id (handle s)) id (watermark s) writes ->
  holds_change id s -> holds_change id (after_writes writes s).
Proof.
  revert s. induction writes as [ | w writes IH ]; intros s Hsince Hs;
    [ exact Hs | ].
  cbn [after_writes fold_left]. fold (after_writes writes (write_to w s)).
  destruct (write_to_handle w s) as (Hh & Hw).
  apply IH.
  - rewrite Hh, Hw. intros w' Hw'. apply Hsince. right. exact Hw'.
  - apply write_to_holds_change; [ | exact Hs ].
    intros Hsid Hid. apply Hsince; [ left | auto | exact Hid ].
Qed.

(** A store that was written to since its watermark holds the change of
    the last such write, a delete as well as a create or an update. *)
Lemma written_store_holds_change (writes : list Write) (w : Write)
    (s : Store) :
  w ∈ writes ->
  write_store_id w = store_id (handle s) ->
  written_since (store_id (handle s)) (write_identity w) (watermark s)
    writes ->
  holds_change (write_identity w) (after_writes writes s).
Proof.
  revert s. induction writes as [ | w0 writes IH ]; intros s Hin Hsid Hsince;
    [ inversion Hin | ].
  cbn [after_writes fold_left]. fold (after_writes writes (write_to w0 s)).
  destruct (write_to_handle w0 s) as (Hh & Hw).
  assert (written_since (store_id (handle (write_to w0 s)))
            (write_identity w) (watermark (write_to w0 s)) writes)
    as Hrest.
  { rewrite Hh, Hw. intros w' Hw'. apply Hsince. right. exact Hw'. }
  apply elem_of_cons in Hin as [-> | Hin].
  - apply after_writes_holds_change; [ exact Hrest | ].
    exists (written w0). unfold write_to.
    rewrite Hsid, String.eqb_refl. cbn. rewrite lookup_insert_eq.
    split; [ reflexivity | ].
    apply Hsince; [ left | | reflexivity ]. exact Hsid.
  - apply IH; [ exact Hin | rewrite Hh; exact Hsid | exact Hrest ].
Qed.

Lemma holds_change_touched (stores : list Store) (s : Store)
    (id : Identity) :
  s ∈ stores -> reachable (handle s) = true -> holds_change id s ->
  id ∈ touched stores.
Proof.
  intros Hs Hreach (r & Hr & Hsince).
  unfold touched. apply elem_of_union_list.
  exists (dom (fetchChanged s)). split.
  - apply list_elem_of_In, in_map_iff. exists s.
    rewrite Hreach. split; [ reflexivity | apply list_elem_of_In, Hs ].
  - apply elem_of_dom. exists r. apply map_lookup_filter_Some.
    split; [ exact Hr | ]. cbn. unfold changed_since.
    apply Z.leb_le. exact Hsince.
Qed.

(** C1, as the model has it.  Every write since a reachable store's
    watermark, a delete like a create or an update, touches its
    identity; and after a pass that reports [success], all reachable
    stores hold the same business state (the same attributes, or no row)
    for every touched identity whose conflict was not left open for
    manual resolution, whatever writes were made to whichever stores
    before the pass. *)
Theorem sync_pass_converges (policy : Policy) (apply_ok : ApplyOracle)
    (start_time : Z) (stores0 : list Store) (writes : list Write) :
  let stores := perform writes stores0 in
  let r := sync_pass policy apply_ok start_time stores in
  (forall w s,
     w ∈ writes -> s ∈ stores0 ->
     write_store_id w = store_id (handle s) ->
     reachable (handle s) = true ->
     written_since (store_id (handle s)) (write_identity w) (watermark s)
       writes ->
     write_identity w ∈ touched stores)
  /\ (forall id s1 s2,
        status (snd r) = success ->
        id ∈ touched stores ->
        id ∉ open_conflicts (snd r) ->
        s1 ∈ fst r -> s2 ∈ fst r ->
        reachable (handle s1) = true -> reachable (handle s2) = true ->
        business_state s1 id = business_state s2 id).
Proof.
  intros stores r. split.
  - intros w s Hw Hs Hsid Hreach Hsince. subst stores.
    rewrite perform_map.
    apply (holds_change_touched _ (after_writes writes s)).
    + apply list_elem_of_fmap_2, Hs.
    + destruct (after_writes_handle writes s) as (-> & _). exact Hreach.
    + apply written_store_holds_change; assumption.
  - intros id s1 s2 Hsuccess Hid Hopen Hs1 Hs2 _ _.
    apply (sync_pass_converges_on policy apply_ok start_time stores id);
      assumption.
Qed.

Lemma sync_pass_converges_witness :
  let stores := perform [delete_in_primary] [primary_store; mysql_store] in
  let r := sync_pass latest_timestamp (fun _ _ => true) 200 stores in
  registration_42 ∈ touched stores
  /\ business_state (hd primary_store (fst r)) registration_42
     = business_state (hd primary_store (tl (fst r))) registration_42.
Proof.
  intros stores r.
  destruct (sync_pass_converges latest_timestamp (fun _ _ => true) 200
              [primary_store; mysql_store] [delete_in_primary])
    as (Htouched & Hconverges).
  split.
  - apply (Htouched delete_in_primary primary_store).
    + left.
    + left.
    + reflexivity.
    + reflexivity.
    + intros w Hw _ _. apply list_elem_of_singleton in Hw as ->.
      vm_compute. discriminate.
  - apply (Hconverges registration_42).
    + vm_compute. reflexivity.
    + apply (bool_decide_unpack _). vm_compute. exact I.
    + apply (bool_decide_unpack _). vm_compute. exact I.
    + vm_compute. left.
    + vm_compute. right. left.
    + vm_compute. reflexivity.
    + vm_compute. reflexivity.
Defined.

(** The scenario of the specification: under [latest_timestamp] the later
    MySQL state reaches the primary. *)
Example latest_timestamp_scenario :
  let stores :=
    perform scenario_writes
      [empty_store primary_handle; empty_store mysql_handle] in
  let r := sync_pass latest_timestamp (fun _ _ => true) 200 stores in
  stores = [primary_store; mysql_store]
  /\ map (fun s => business_state s registration_42) (fst r)
     = [ Some {["status" := "cancelled"]}; Some {["status" := "cancelled"]} ]
  /\ status (snd r) = success.
Proof. vm_compute. repeat split. Qed.

(** A delete is a write like the others: when the registration is
    deleted in the primary after both stores were synchronised at 120,
    the pass finds the delete, and afterwards neither store has the
    row. *)
Example delete_reaches_the_other_store :
  let synchronised (s : Store) : Store :=
    {| handle := handle s; contents := contents s; watermark := 120 |} in
  let stores :=
    perform [delete_in_primary]
      [synchronised primary_store; synchronised primary_store_copy] in
  let r := sync_pass latest_timestamp (fun _ _ => true) 200 stores in
  touched stores = {[registration_42]}
  /\ map (fun s => business_state s registration_42) (fst r) = [None; None]
  /\ status (snd r) = success.
Proof.
  split; [ apply (bool_decide_unpack _); vm_compute; exact I | ].
  vm_compute. split; reflexivity.
Qed.

(** C1 as stated fails under the [manual] policy: after the writes of
    the scenario the pass reports [success], both stores are reachable,
    the identity is touched, and the stores keep their different
    states. *)
Lemma manual_pass_does_not_converge :
  let stores :=
    perform scenario_writes
      [empty_store primary_handle; empty_store mysql_handle] in
  let r := sync_pass manual (fun _ _ => true) 200 stores in
  status (snd r) = success
  /\ registration_42 ∈ touched stores
  /\ (forall s, s ∈ fst r -> reachable (handle s) = true)
  /\ map (fun s => business_state s registration_42) (fst r)
     = [ Some {["status" := "confirmed"]}; Some {["status" := "cancelled"]} ]
  /\ open_conflicts (snd r) = [registration_42].
Proof.
  split; [ vm_compute; reflexivity | ].
  split; [ apply (bool_decide_unpack _); vm_compute; exact I | ].
  split; [ | split; vm_compute; reflexivity ].
  intros s Hs. vm_compute in Hs.
  apply elem_of_cons in Hs as [-> | Hs]; [ reflexivity | ].
  apply elem_of_cons in Hs as [-> | Hs]; [ reflexivity | inversion Hs ].
Qed.

End Convergence.

(** ** Programs that keep a component of the state *)

Section ProtocolFacts.
Context {S A : Type} (proj : S -> A).

Lemma safe_bind {R B} (p : Prog S R) (f : R -> Prog S B) :
  safe proj p -> (forall a, safe proj (f a)) -> safe proj (bind p f).
Proof.
  intros Hp. revert B f.
  induction Hp; intros B g Hg; cbn; try constructor; auto.
Qed.

Lemma safe_try_catch {R} (p : Prog S R) (h : JsVal -> Prog S R) :
  safe proj p -> (forall e, safe proj (h e)) -> safe proj (try_catch p h).
Proof.
  intros Hp. revert h.
  induction Hp; intros h Hh; cbn; try constructor; auto.
Qed.

Lemma safe_try_finally {R} (p : Prog S R) (q : Prog S unit) :
  safe proj p -> safe proj q -> safe proj (try_finally p q).
Proof.
  intros Hp Hq.
  induction Hp; cbn; try constructor; auto;
    apply safe_bind; auto; intros; constructor.
Qed.

Lemma safe_settle {R} (c : Completion R) : safe proj (settle (S := S) c).
Proof. destruct c; constructor. Qed.

Lemma safe_ext {X} (e : Ext X) : safe proj (ext (S := S) e).
Proof. constructor. intros x. constructor. Qed.

Lemma safe_await_call (f : FnRef) (args : list JsVal) :
  safe proj (await_call (S := S) f args).
Proof. constructor. intros c. apply safe_settle. Qed.

Lemma safe_console_log (args : list JsVal) :
  safe proj (console_log (S := S) args).
Proof. repeat constructor. Qed.

Lemma safe_console_error (args : list JsVal) :
  safe proj (console_error (S := S) args).
Proof. repeat constructor. Qed.

Lemma safe_gets {B} (f : S -> B) : safe proj (gets f).
Proof. constructor. intros s. constructor. Qed.

Lemma safe_modify (f : S -> S) : keeps proj f -> safe proj (modify f).
Proof. intros Hf. constructor; [ exact Hf | constructor ]. Qed.

Lemma safe_await {R} (p : Prog S R) : safe proj p -> safe proj (await p).
Proof.
  intros Hp. unfold await, capture, mbind, Prog_bind.
  apply safe_bind.
  - apply safe_try_catch.
    + apply safe_bind; [ exact Hp | intros; constructor ].
    + intros; constructor.
  - intros c. apply safe_bind; [ apply safe_ext | intros; apply safe_settle ].
Qed.

Lemma safe_for_of {B} (xs : list B) (body : B -> Prog S unit) :
  (forall x, safe proj (body x)) -> safe proj (for_of xs body).
Proof.
  intros Hbody. induction xs as [ | x xs IH ]; cbn; [ constructor | ].
  apply safe_bind; auto.
Qed.

(** A program over another component keeps this one. *)
Lemma safe_zoom {T R} (view : S -> T) (over : (T -> T) -> S -> S)
    (p : Prog T R) :
  (forall g, keeps proj (over g)) -> safe proj (zoom view over p).
Proof.
  intros Hover.
  induction p as [ R r | R e | R k IH | R g k IH | R l a k IH | R X e k IH
                 | R child IHc k IH ]; cbn; constructor; auto.
Qed.

Lemma quiet_weaken {R} (p : Prog S R) : quiet false p -> quiet true p.
Proof. induction 1; constructor; auto. Qed.

Lemma try_catch_quiet {R} (p : Prog S R) (h : JsVal -> Prog S R) :
  quiet false p -> try_catch p h = p.
Proof. induction 1; cbn; congruence. Qed.

Section Release.
Context (rel : A -> A).

Lemma ends_bind {R B} (p : Prog S R) (f : R -> Prog S B) :
  safe proj p -> (forall a, ends proj rel true (f a)) ->
  ends proj rel true (bind p f).
Proof.
  intros Hp. revert B f.
  induction Hp; intros B g Hg; cbn; auto.
  - constructor.
  - constructor; auto.
  - apply ends_Modify; auto.
  - constructor; auto.
  - constructor; auto.
  - constructor; auto.
Qed.

Lemma ends_try_catch {R} (p : Prog S R) (h : JsVal -> Prog S R) :
  ends proj rel true p -> (forall e, ends proj rel false (h e)) ->
  ends proj rel false (try_catch p h).
Proof.
  intros Hp Hh. remember true as in_try eqn:Hin.
  induction Hp; subst; cbn; auto.
  - apply ends_release; [ assumption | ].
    cbn in *. rewrite try_catch_quiet by assumption.
    apply quiet_weaken. assumption.
  - apply ends_Modify; auto.
  - constructor; auto.
  - constructor; auto.
  - constructor; auto.
  - constructor; auto.
Qed.

Lemma ends_try_finally {R B} (p : Prog S R) (g : S -> S)
    (f : R -> Prog S B) :
  safe proj p -> (forall s, proj (g s) = rel (proj s)) ->
  (forall r, quiet true (f r)) ->
  ends proj rel false (bind (try_finally p (modify g)) f).
Proof.
  intros Hp Hg Hf.
  induction Hp; cbn.
  - apply ends_release; [ exact Hg | apply Hf ].
  - apply ends_release; [ exact Hg | constructor; reflexivity ].
  - constructor; auto.
  - apply ends_Modify; auto.
  - constructor; auto.
  - constructor; auto.
  - constructor; auto.
Qed.

End Release.

(** *** One turn of a program that keeps the component *)

Lemma advance_safe (env : Env) {R} (p : Prog S R) :
  safe proj p ->
  forall c, Forall (blocked_safe proj) (detached c) ->
  proj (st (snd (advance env p c))) = proj (st c)
  /\ Forall (blocked_safe proj) (detached (snd (advance env p c)))
  /\ match fst (advance env p c) with
     | Done _ => True
     | Suspended b => blocked_safe proj b
     end.
Proof.
  induction 1 as [ R r | R e | R k Hk IH | R f k Hf Hk IH | R l a k Hk IH
                 | R X e k Hk IH | R child k Hc IHc Hk IH ];
    intros c Hdet; cbn [advance].
  - cbn. auto.
  - cbn. auto.
  - apply IH, Hdet.
  - destruct (IH (set_st f c) Hdet) as (Hst & Hd & Hs).
    split; [ rewrite Hst; apply Hf | auto ].
  - apply (IH (observe (Console l a) c)), Hdet.
  - destruct (is_async e); [ cbn; auto | ].
    apply (IH _ (answered e _ c)), Hdet.
  - destruct (IHc c Hdet) as (Hst & Hd & Hs).
    destruct (advance env child c) as [s0 c0]. cbn [fst snd] in *.
    assert (Forall (blocked_safe proj) (detached (detach s0 c0))) as Hd'.
    { destruct s0 as [o | b]; cbn; [ exact Hd | constructor; assumption ]. }
    destruct (IH (detach s0 c0) Hd') as (Hst' & Hd'' & Hs').
    split; [ | auto ].
    rewrite Hst'. destruct s0; cbn; exact Hst.
Qed.

Lemma advance_quiet (env : Env) (throws : bool) {R} (p : Prog S R) :
  quiet throws p ->
  forall c, exists o c',
    advance env p c = (Done o, c')
    /\ st c' = st c /\ detached c' = detached c.
Proof.
  induction 1 as [ R r | R e | R l a k Hk IH ]; intros c; cbn [advance].
  - eauto.
  - eauto.
  - destruct (IH (observe (Console l a) c)) as (o & c' & -> & Hst & Hd).
    eauto.
Qed.

(** *** One turn of a program that holds the component *)

Lemma advance_ends (env : Env) (rel : A -> A) {R} (p : Prog S R) :
  ends proj rel false p ->
  forall c, Forall (blocked_safe proj) (detached c) ->
  Forall (blocked_safe proj) (detached (snd (advance env p c)))
  /\ match fst (advance env p c) with
     | Done _ => exists s, proj (st (snd (advance env p c))) = rel (proj s)
                           /\ proj s = proj (st c)
     | Suspended b =>
         proj (st (snd (advance env p c))) = proj (st c)
         /\ blocked_ends proj rel b
     end.
Proof.
  intros Hp. remember false as in_try eqn:Hin.
  induction Hp as [ R e | in_try R f k Hf Hk | in_try R f k Hf Hk IH
                  | in_try R k Hk IH | in_try R l a k Hk IH
                  | in_try R X e k Hk IH | in_try R child k Hc Hk IH ];
    intros c Hdet; subst; cbn [advance].
  - discriminate.
  - destruct (advance_quiet env _ k Hk (set_st f c))
      as (o & c' & -> & Hst & Hd).
    cbn. split; [ rewrite Hd; exact Hdet | ].
    exists (st c). rewrite Hst. cbn. auto.
  - destruct (IH eq_refl (set_st f c) Hdet) as (Hd & Hs).
    split; [ exact Hd | ].
    destruct (fst (advance env k (set_st f c))).
    + destruct Hs as (s & Hs & Hs'). exists s. cbn in Hs'.
      rewrite Hf in Hs'. auto.
    + destruct Hs as (Hs & Hb). cbn in Hs. rewrite Hf in Hs. auto.
  - apply (IH (st c) eq_refl c Hdet).
  - apply (IH eq_refl (observe (Console l a) c) Hdet).
  - destruct (is_async e).
    + cbn. split; [ exact Hdet | ]. split; [ reflexivity | ].
      intros x. apply Hk.
    + apply (IH _ eq_refl (answered e _ c) Hdet).
  - destruct (advance_safe env child Hc c Hdet) as (Hst & Hd & Hs).
    destruct (advance env child c) as [s0 c0]. cbn [fst snd] in *.
    assert (Forall (blocked_safe proj) (detached (detach s0 c0))) as Hd'.
    { destruct s0 as [o | b]; cbn; [ exact Hd | constructor; assumption ]. }
    assert (proj (st (detach s0 c0)) = proj (st c)) as Hst'.
    { destruct s0; cbn; exact Hst. }
    destruct (IH eq_refl (detach s0 c0) Hd') as (Hd'' & Hs').
    split; [ exact Hd'' | ].
    destruct (fst (advance env k (detach s0 c0))).
    + destruct Hs' as (s & Hs1 & Hs2). exists s. split; congruence.
    + destruct Hs' as (Hs1 & Hs2). split; congruence.
Qed.

End ProtocolFacts.

(** Goals [safe proj p] over the combinators are split down to the
    writes of [p]. *)
Ltac safe_step :=
  first
    [ apply safe_bind | apply safe_try_catch | apply safe_await
    | apply safe_for_of | apply safe_await_call | apply safe_settle
    | apply safe_ext | apply safe_console_log | apply safe_console_error
    | apply safe_gets | apply safe_modify
    | match goal with
      | |- safe _ (if ?b then _ else _) => destruct b
      | |- safe _ (match ?x with _ => _ end) => destruct x
      end
    | constructor | intro ].

Ltac safe_auto := unfold mbind, Prog_bind; repeat safe_step.

Lemma safe_call_if_function {S A} (proj : S -> A) (name : string) :
  safe proj (OnDemandRefresh.call_if_function (S := S) name).
Proof. unfold OnDemandRefresh.call_if_function. safe_auto. Qed.

(** ** Mutual exclusion of refresh runs *)

Section SingleRun.
Import OnDemandRefresh RefreshLoop.

Lemma safe_refreshSection (sectionName : string) :
  safe isRefreshing (refreshSection sectionName).
Proof.
  unfold refreshSection. safe_auto; apply safe_call_if_function.
Qed.

Lemma safe_recordRefresh (sectionName : string) :
  safe isRefreshing (recordRefresh sectionName).
Proof. unfold recordRefresh. safe_auto. Qed.

Lemma safe_getCurrentSection : safe isRefreshing getCurrentSection.
Proof. unfold getCurrentSection. safe_auto. Qed.

Lemma safe_refreshBody (actionType : string)
    (targetSection : option string) :
  safe isRefreshing (refreshBody actionType targetSection).
Proof.
  unfold refreshBody, getSectionsToRefresh, shouldRefresh,
    showRefreshComplete, showToast, get.
  safe_auto;
    first [ apply safe_getCurrentSection | apply safe_refreshSection
          | apply safe_recordRefresh ].
Qed.

Lemma safe_refreshCatch (error : JsVal) :
  safe isRefreshing (refreshCatch error).
Proof. unfold refreshCatch, showRefreshError, showToast. safe_auto. Qed.

Lemma safe_refreshCurrentSection : safe isRefreshing refreshCurrentSection.
Proof.
  unfold refreshCurrentSection. safe_auto;
    first [ apply safe_getCurrentSection | apply safe_refreshSection
          | apply safe_recordRefresh ].
Qed.

(** Past the guard, a run holds [isRefreshing] and resets it in its last
    turn. *)
Lemma run_ends (actionType : string) (targetSection : option string) :
  ends isRefreshing (fun _ => false) false
    (bind (try_finally
             (try_catch (refreshBody actionType targetSection) refreshCatch)
             (modify (set_isRefreshing false)))
       (fun _ => Ret VUndefined)).
Proof.
  apply ends_try_finally.
  - apply safe_try_catch;
      [ apply safe_refreshBody | apply safe_refreshCatch ].
  - reflexivity.
  - intros r. constructor.
Qed.

(** While a run is in flight, a call of [refreshAfterUserAction] returns
    in the same turn with nothing but the console message. *)
Lemma refreshAfterUserAction_skips (env : Env) (actionType : string)
    (targetSection : option string) (c : Cfg State) :
  isRefreshing (st c) = true ->
  advance env (refreshAfterUserAction actionType targetSection) c
  = (Done (Returned VUndefined),
     observe (Console LogLevel [VStr "正在刷新中，跳过重复刷新"]) c).
Proof.
  intros Hbusy. unfold refreshAfterUserAction, mbind, Prog_bind.
  cbn [bind get advance]. rewrite Hbusy. reflexivity.
Qed.

Lemma filter_run_length (before after : list (Entry * Blocked State JsVal))
    (t : Entry * Blocked State JsVal) :
  length (List.filter (fun t => is_run (fst t)) (before ++ t :: after))
  = (length (List.filter (fun t => is_run (fst t)) (before ++ after))
     + if is_run (fst t) then 1 else 0)%nat.
Proof.
  rewrite !List.filter_app, !length_app. cbn [List.filter].
  destruct (is_run (fst t)); cbn [length]; lia.
Qed.

Lemma run_invariant_initial : invariant (initial constructor).
Proof. repeat split; constructor. Qed.

Lemma run_invariant_step (env : Env) (s s' : Sys State Entry) :
  step entry env s s' -> invariant s -> invariant s'.
Proof.
  intros Hstep (Hdet & Hpool & Hcount).
  destruct Hstep as [ o s | o X e k x before after c
                    | X e k x before after c p Hsplit ].
  - (* a new call *)
    destruct o as [actionType targetSection | ]; cbn [entry].
    + destruct (isRefreshing (st (cfg s))) eqn:Hflag.
      * rewrite refreshAfterUserAction_skips by exact Hflag.
        unfold invariant, settled, runs_in_flight in *. cbn.
        rewrite Hflag. auto.
      * unfold refreshAfterUserAction, mbind, Prog_bind.
        cbn [bind get advance]. rewrite Hflag. cbn [bind modify advance].
        destruct (advance_ends isRefreshing env (fun _ => false) _
                    (run_ends actionType targetSection)
                    (set_st (set_isRefreshing true) (cfg s)) Hdet)
          as (Hdet' & Hturn).
        unfold mbind, Prog_bind in *. unfold settled.
        destruct (advance env _ (set_st (set_isRefreshing true) (cfg s)))
          as [[o | b] c']; cbn [fst snd] in *.
        -- destruct Hturn as (s0 & Hs0 & _).
           unfold invariant, runs_in_flight in *. cbn. rewrite Hs0. auto.
        -- destruct Hturn as (Hflag' & Hb).
           unfold invariant, runs_in_flight in *. cbn.
           rewrite Hflag', Hcount. cbn. split; [ exact Hdet' | ].
           split; [ constructor; assumption | reflexivity ].
    + destruct (advance_safe isRefreshing env _ safe_refreshCurrentSection
                  (cfg s) Hdet) as (Hflag & Hdet' & Hturn).
      unfold settled.
      destruct (advance env refreshCurrentSection (cfg s)) as [[o | b] c'];
        cbn [fst snd] in *;
        unfold invariant, runs_in_flight in *; cbn; rewrite Hflag; auto.
  - (* a suspended call is resumed *)
    apply Forall_app in Hpool as (Hbefore & Hrest).
    apply Forall_cons in Hrest as (Hthis & Hafter). cbn [fst snd] in Hthis.
    unfold runs_in_flight in Hcount. cbn [pool cfg] in Hcount, Hdet.
    rewrite filter_run_length in Hcount. cbn [fst] in Hcount.
    assert (Forall (fun t => if is_run (fst t)
                             then blocked_ends isRefreshing (fun _ => false)
                                    (snd t)
                             else blocked_safe isRefreshing (snd t))
              (before ++ after)) as Hothers
      by (apply Forall_app; auto).
    destruct (is_run o) eqn:Hrun.
    + destruct (advance_ends isRefreshing env (fun _ => false) _ (Hthis x)
                  (answered e x c) Hdet) as (Hdet' & Hturn).
      unfold settled.
      destruct (advance env (k x) (answered e x c)) as [[r | b] c'];
        cbn [fst snd] in *.
      * destruct Hturn as (s0 & Hs0 & _).
        unfold invariant, runs_in_flight. cbn. rewrite Hs0.
        split; [ exact Hdet' | ]. split; [ exact Hothers | ].
        destruct (isRefreshing (st c)); lia.
      * destruct Hturn as (Hflag' & Hb).
        unfold invariant, runs_in_flight. cbn. rewrite Hflag', Hrun.
        split; [ exact Hdet' | ].
        split; [ constructor; [ cbn; rewrite Hrun; exact Hb | exact Hothers ] | ].
        cbn. destruct (isRefreshing (st c)); lia.
    + destruct (advance_safe isRefreshing env _ (Hthis x)
                  (answered e x c) Hdet) as (Hflag & Hdet' & Hturn).
      cbn [st answered] in Hflag. unfold settled.
      destruct (advance env (k x) (answered e x c)) as [[r | b] c'];
        cbn [fst snd] in *;
        unfold invariant, runs_in_flight; cbn; rewrite Hflag.
      * split; [ exact Hdet' | ]. split; [ exact Hothers | ].
        rewrite <- Hcount. lia.
      * rewrite Hrun. split; [ exact Hdet' | ].
        split; [ constructor; [ cbn; rewrite Hrun; exact Hturn | exact Hothers ] | ].
        rewrite <- Hcount. lia.
  - (* a detached call is resumed *)
    cbn [cfg pool] in *. rewrite Hsplit in Hdet.
    apply Forall_app in Hdet as (Hbefore & Hrest).
    apply Forall_cons in Hrest as (Hthis & Hafter).
    match goal with |- context [advance env (k x) ?c0] =>
      destruct (advance_safe isRefreshing env _ (Hthis x) c0) as
        (Hflag & Hdet' & Hturn); [ apply Forall_app; auto | ];
      destruct (advance env (k x) c0) as [[r | b] c']
    end; cbn [fst snd] in *;
      unfold invariant, runs_in_flight in *; cbn in *; rewrite Hflag; auto.
Qed.

Lemma run_invariant_reachable (env : Env) (s : Sys State Entry) :
  reachable entry env constructor s -> invariant s.
Proof.
  unfold reachable. revert s.
  apply (rtc_ind_r (fun s => invariant s) (initial constructor)).
  - apply run_invariant_initial.
  - intros s s' _ Hstep Hs. eapply run_invariant_step; eauto.
Qed.

(** C2.  In every state the event loop reaches from a fresh
    [OnDemandRefresh], at most one run is in flight, [isRefreshing] is set
    exactly when one is, and a call of [refreshAfterUserAction] made while
    it is set returns in the same turn with no refresh work: no event, no
    write, only the console message. *)
Theorem single_refresh_run (env : Env) (s : Sys State Entry) :
  reachable entry env constructor s ->
  (length (runs_in_flight s) <= 1)%nat
  /\ (isRefreshing (st (cfg s)) = true
      <-> length (runs_in_flight s) = 1%nat)
  /\ (isRefreshing (st (cfg s)) = true ->
      forall actionType targetSection,
        advance env (refreshAfterUserAction actionType targetSection) (cfg s)
        = (Done (Returned VUndefined),
           observe (Console LogLevel [VStr "正在刷新中，跳过重复刷新"])
             (cfg s))).
Proof.
  intros (_ & _ & Hcount)%run_invariant_reachable.
  split; [ | split ].
  - rewrite Hcount. destruct (isRefreshing (st (cfg s))); lia.
  - rewrite Hcount. destruct (isRefreshing (st (cfg s)));
      split; intros; congruence.
  - intros Hbusy actionType targetSection.
    apply refreshAfterUserAction_skips, Hbusy.
Qed.

Lemma single_refresh_run_witness :
  let env := env_of healthy_world in
  let o := RefreshAfterUserAction "create_registration" None in
  let s := settled o (advance env (entry o) (start constructor)) [] in
  (length (runs_in_flight s) <= 1)%nat
  /\ (isRefreshing (st (cfg s)) = true
      <-> length (runs_in_flight s) = 1%nat)
  /\ (isRefreshing (st (cfg s)) = true ->
      forall actionType targetSection,
        advance env (refreshAfterUserAction actionType targetSection) (cfg s)
        = (Done (Returned VUndefined),
           observe (Console LogLevel [VStr "正在刷新中，跳过重复刷新"])
             (cfg s))).
Proof.
  intros env o s.
  apply (single_refresh_run env s).
  apply rtc_once.
  exact (step_call entry env o (initial constructor)).
Defined.

(** After the first call the run is suspended on [loadRegistrations],
    with [isRefreshing] set. *)
Example first_call_is_in_flight :
  let env := env_of healthy_world in
  let o := RefreshAfterUserAction "create_registration" None in
  let s := settled o (advance env (entry o) (start constructor)) [] in
  isRefreshing (st (cfg s)) = true /\ length (runs_in_flight s) = 1%nat.
Proof. cbn. split; reflexivity. Qed.

End SingleRun.

(** ** Pending operations of [RealtimeSync] *)

Section PendingOperations.
Import RealtimeSyncObject RealtimeSync SyncLoop.

Lemma safe_showOperationStatus (message type : string) :
  safe pending (showOperationStatus message type).
Proof. unfold showOperationStatus. safe_auto. Qed.

Lemma safe_triggerCallbacks (operation : string) (result : JsVal) :
  safe pending (triggerCallbacks operation result).
Proof. unfold triggerCallbacks, this. safe_auto. Qed.

Lemma safe_registerCallback (operation : string) (callback : FnRef) :
  safe pending (registerCallback operation callback).
Proof. unfold registerCallback, update. safe_auto. Qed.

Lemma safe_setEnabled (enabled : bool) : safe pending (setEnabled enabled).
Proof. unfold setEnabled, update. safe_auto. Qed.

(** The [try] block of [executeOperation] removes the id before it
    returns; a throw leaves that to the [catch] block. *)
Lemma executeOperation_try_ends (operationType operationId : string)
    (apiCall : Callee Page JsVal)
    (refreshCallback : option (Callee Page JsVal)) :
  polite (ExecuteOperation operationType apiCall refreshCallback) ->
  ends pending (remove_id operationId) false
    (try_catch
       (showOperationStatus "进行中..." "info";;
        result ← await_of apiCall;
        await waitForSync;;
        match refreshCallback with
        | Some callback => await_of callback;; Ret tt
        | None => Ret tt
        end;;
        await (triggerCallbacks operationType result);;
        showOperationStatus "操作成功，数据已更新" "success";;
        update (set_pendingOperations (fun p => p ∖ {[operationId]}));;
        Ret result)
       (executeCatch operationId)).
Proof.
  intros (HapiCall & Hrefresh). unfold mbind, Prog_bind.
  apply ends_try_catch.
  - apply ends_bind; [ apply safe_showOperationStatus | intros _ ].
    apply ends_bind; [ exact HapiCall | intros result ].
    apply ends_bind; [ apply safe_await; constructor | intros _ ].
    apply ends_bind.
    { destruct refreshCallback as [callback | ]; [ | constructor ].
      apply safe_bind; [ exact Hrefresh | intros; constructor ]. }
    intros _.
    apply ends_bind; [ apply safe_await, safe_triggerCallbacks | intros _ ].
    apply ends_bind; [ apply safe_showOperationStatus | intros _ ].
    cbn. apply ends_release; [ reflexivity | constructor ].
  - intros error. unfold executeCatch, update, mbind, Prog_bind. cbn.
    apply ends_release; [ reflexivity | ].
    destruct (get_prop error "message"); repeat constructor.
Qed.

Lemma owners_of_operations {O} (script : O -> Request)
    (owners : list (option string)) (tasks : list (O * Blocked Page JsVal)) :
  Forall2 (holder script) owners tasks ->
  List.filter (fun t => is_operation (script (fst t))) tasks = [] ->
  omap id owners = [].
Proof.
  induction 1 as [ | owner t owners tasks Hholder _ IH ]; [ reflexivity | ].
  cbn. destruct owner as [operationId | ]; cbn in *.
  - destruct Hholder as (-> & _). discriminate.
  - destruct (is_operation (script (fst t))); [ discriminate | exact IH ].
Qed.

Section Script.
Context {O : Type} (script : O -> Request).
Hypothesis script_polite : forall o, polite (script o).

Lemma pending_invariant_call (env : Env) (o : O) (s : Sys Page O) :
  invariant script s ->
  invariant script
    (settled o (advance env (entry (script o)) (cfg s)) (pool s)).
Proof.
  intros (Hdet & owners & Hpool & Hsub).
  pose proof (script_polite o) as Hpolite.
  assert (forall p : Prog Page JsVal, safe pending p ->
            invariant script (settled o (advance env p (cfg s)) (pool s)))
    as Hsafe.
  { intros p Hp.
    destruct (advance_safe pending env p Hp (cfg s) Hdet)
      as (Hst & Hdet' & Hturn).
    unfold settled, invariant.
    destruct (advance env p (cfg s)) as [[r | b] c']; cbn [fst snd] in *;
      cbn; (split; [ exact Hdet' | ]).
    - exists owners. rewrite Hst. auto.
    - exists (None :: owners). rewrite Hst.
      split; [ constructor; assumption | exact Hsub ]. }
  destruct (script o) as [operationType apiCall refreshCallback
                         | operation callback | enabled ] eqn:Ho;
    cbn [entry].
  - unfold executeOperation, this, gets, mbind, Prog_bind.
    cbn [bind advance].
    destruct (isEnabled (realtimeSync (st (cfg s)))); cbn [negb].
    + cbn [bind ext advance is_async].
      set (now := env Z DateNow (tick (cfg s))).
      set (operationId := operationId_of operationType now).
      unfold update at 1, modify. cbn [bind advance].
      set (c1 := set_st _ (answered DateNow now (cfg s))).
      match goal with |- context [advance env ?p c1] =>
        destruct (advance_ends pending env (remove_id operationId) p
                    (executeOperation_try_ends operationType operationId
                       apiCall refreshCallback Hpolite) c1 Hdet)
          as (Hdet' & Hturn);
        unfold settled, invariant;
        destruct (advance env p c1) as [[r | b] c']
      end; cbn [fst snd] in *; cbn; (split; [ exact Hdet' | ]).
      * destruct Hturn as (s0 & Hs0 & Hs1).
        exists owners. split; [ exact Hpool | ].
        fold (pending (st c')). rewrite Hs0, Hs1.
        subst c1. cbn. unfold remove_id, pending in *. cbn. set_solver.
      * destruct Hturn as (Hs0 & Hb).
        exists (Some operationId :: owners).
        split; [ constructor; [ cbn; rewrite Ho; auto | exact Hpool ] | ].
        fold (pending (st c')). rewrite Hs0.
        subst c1. cbn. unfold pending in *. cbn. set_solver.
    + apply Hsafe, Hpolite.
  - apply Hsafe, safe_registerCallback.
  - apply Hsafe, safe_setEnabled.
Qed.

Lemma pending_invariant_step (env : Env) (s s' : Sys Page O) :
  step (fun o => entry (script o)) env s s' ->
  invariant script s -> invariant script s'.
Proof.
  intros Hstep Hinv.
  destruct Hstep as [ o s | o X e k x before after c
                    | X e k x before after c p Hsplit ].
  - apply pending_invariant_call, Hinv.
  - destruct Hinv as (Hdet & owners & Hpool & Hsub). cbn [cfg pool] in *.
    apply Forall2_app_inv_r in Hpool
      as (owners1 & rest & Hbefore & Hrest & ->).
    apply Forall2_cons_inv_r in Hrest
      as (owner & owners2 & Hthis & Hafter & ->).
    rewrite omap_app, list_to_set_app_L in Hsub. cbn [omap] in Hsub.
    assert (Forall2 (holder script) (owners1 ++ owners2) (before ++ after))
      as Hothers by (apply Forall2_app; assumption).
    destruct owner as [operationId | ]; cbn in Hthis, Hsub.
    + destruct Hthis as (Hop & Hends).
      destruct (advance_ends pending env (remove_id operationId) _ (Hends x)
                  (answered e x c) Hdet) as (Hdet' & Hturn).
      unfold settled, invariant.
      destruct (advance env (k x) (answered e x c)) as [[r | b] c'];
        cbn [fst snd] in *; cbn; (split; [ exact Hdet' | ]).
      * destruct Hturn as (s0 & Hs0 & Hs1).
        exists (owners1 ++ owners2). split; [ exact Hothers | ].
        fold (pending (st c')). rewrite Hs0, Hs1.
        rewrite omap_app, list_to_set_app_L. cbn. unfold remove_id.
        set_solver.
      * destruct Hturn as (Hs0 & Hb).
        exists (Some operationId :: owners1 ++ owners2).
        split; [ constructor; [ cbn; auto | exact Hothers ] | ].
        fold (pending (st c')). rewrite Hs0.
        cbn. rewrite omap_app, list_to_set_app_L. set_solver.
    + destruct (advance_safe pending env _ (Hthis x) (answered e x c) Hdet)
        as (Hst & Hdet' & Hturn).
      unfold settled, invariant.
      destruct (advance env (k x) (answered e x c)) as [[r | b] c'];
        cbn [fst snd] in *; cbn; (split; [ exact Hdet' | ]).
      * exists (owners1 ++ owners2). split; [ exact Hothers | ].
        fold (pending (st c')). rewrite Hst.
        rewrite omap_app, list_to_set_app_L. cbn. set_solver.
      * exists (None :: owners1 ++ owners2).
        split; [ constructor; [ exact Hturn | exact Hothers ] | ].
        fold (pending (st c')). rewrite Hst.
        cbn. rewrite omap_app, list_to_set_app_L. set_solver.
  - destruct Hinv as (Hdet & owners & Hpool & Hsub). cbn [cfg pool] in *.
    rewrite Hsplit in Hdet.
    apply Forall_app in Hdet as (Hbefore & Hrest).
    apply Forall_cons in Hrest as (Hthis & Hafter).
    match goal with |- context [advance env (k x) ?c0] =>
      destruct (advance_safe pending env _ (Hthis x) c0) as
        (Hst & Hdet' & Hturn); [ apply Forall_app; auto | ];
      destruct (advance env (k x) c0) as [[r | b] c']
    end; cbn [fst snd] in *; unfold invariant; cbn in *;
      (split; [ auto | ]); exists owners;
      (split; [ exact Hpool | ]); fold (pending (st c')); rewrite Hst;
      exact Hsub.
Qed.

Lemma pending_invariant_reachable (env : Env) (page : Page) (s : Sys Page O) :
  pending page = ∅ ->
  reachable (fun o => entry (script o)) env page s -> invariant script s.
Proof.
  intros Hempty. unfold reachable. revert s.
  apply (rtc_ind_r (fun s => invariant script s) (initial page)).
  - split; [ constructor | ]. exists []. split; [ constructor | ].
    cbn. rewrite Hempty. set_solver.
  - intros s s' _ Hstep Hs. eapply pending_invariant_step; eauto.
Qed.

End Script.

Lemma run_bind_Returned {S B C} (env : Env) (p : Prog S B)
    (f : B -> Prog S C) (c c' : Cfg S) (r : C) :
  run env (bind p f) c = (Returned r, c') ->
  exists a c1, run env p c = (Returned a, c1)
               /\ run env (f a) c1 = (Returned r, c').
Proof.
  rewrite run_bind. destruct (run env p c) as [[a | e] c1]; [ eauto | ].
  discriminate.
Qed.

(** One call of [executeOperation] on an enabled [RealtimeSync]: when it
    completes, by [return] or by [throw], the id it added is gone,
    whatever [apiCall], the refresh callback and the registered callbacks
    did. *)
Lemma executeOperation_removes_id (env : Env) (operationType : string)
    (apiCall : Callee Page JsVal)
    (refreshCallback : option (Callee Page JsVal)) (c : Cfg Page) :
  isEnabled (realtimeSync (st c)) = true ->
  operationId_of operationType (env Z DateNow (tick c))
  ∉ pending (st (snd (run env
                        (executeOperation operationType apiCall
                           refreshCallback) c))).
Proof.
  intros Henabled. unfold executeOperation, this, gets, mbind, Prog_bind.
  cbn [bind run]. rewrite Henabled. cbn [negb bind ext run].
  set (operationId := operationId_of operationType _).
  unfold update at 1, modify. cbn [bind run].
  rewrite run_try_catch.
  match goal with |- context [run env ?body ?c1] =>
    destruct (run env body c1) as [[r | e] c2] eqn:Hbody
  end.
  - do 6 (apply run_bind_Returned in Hbody as (? & ? & _ & Hbody)).
    cbn in Hbody. inversion Hbody; subst. cbn.
    unfold pending. cbn. set_solver.
  - unfold executeCatch, update, modify, mbind, Prog_bind. cbn [bind run].
    destruct (get_prop e "message"); cbn; unfold pending; cbn; set_solver.
Qed.

(** C9.  Every call of [executeOperation] that added an operation id has
    removed it when it completes, on the success path and on the error
    path; and in every state the event loop reaches from a page with no
    pending operation, [hasPendingOperations] answers [false] whenever no
    operation is in flight. *)
Theorem pending_operations_are_removed {O} (script : O -> Request)
    (env : Env) (page : Page) :
  (forall o, polite (script o)) ->
  pending page = ∅ ->
  (forall operationType apiCall refreshCallback c,
     isEnabled (realtimeSync (st c)) = true ->
     operationId_of operationType (env Z DateNow (tick c))
     ∉ pending (st (snd (run env
                           (executeOperation operationType apiCall
                              refreshCallback) c))))
  /\ (forall s,
        reachable (fun o => entry (script o)) env page s ->
        operations_in_flight script s = [] ->
        hasPendingOperations (realtimeSync (st (cfg s))) = false).
Proof.
  intros Hpolite Hempty. split.
  - intros operationType apiCall refreshCallback c.
    apply executeOperation_removes_id.
  - intros s Hreach Hidle.
    destruct (pending_invariant_reachable script Hpolite env page s Hempty
                Hreach) as (_ & owners & Hpool & Hsub).
    rewrite (owners_of_operations script owners (pool s) Hpool Hidle) in Hsub.
    unfold hasPendingOperations.
    assert (pendingOperations (realtimeSync (st (cfg s))) = ∅) as ->
      by (unfold pending in Hsub; set_solver).
    reflexivity.
Qed.

Lemma safe_apiRequest (endpoint : string)
    (options : Config.MethodOrOptions) (body : JsVal) :
  safe pending (await_of (Window.apiRequest endpoint options body)).
Proof.
  apply (safe_await pending), safe_zoom. intros g page. reflexivity.
Qed.

Lemma safe_refreshRelevantData (operationType : string) :
  safe pending (refreshRelevantData operationType).
Proof.
  unfold refreshRelevantData, get. safe_auto;
    try apply safe_call_if_function.
  unfold on_onDemandRefresh. apply safe_zoom. intros g page. reflexivity.
Qed.

Lemma booking_script_polite (o : unit) : polite (booking_script o).
Proof.
  split; [ apply safe_apiRequest | ].
  apply (safe_await pending), safe_refreshRelevantData.
Qed.

Lemma pending_operations_are_removed_witness :
  let env := env_of healthy_world in
  (forall operationType apiCall refreshCallback c,
     isEnabled (realtimeSync (st c)) = true ->
     operationId_of operationType (env Z DateNow (tick c))
     ∉ pending (st (snd (run env
                           (executeOperation operationType apiCall
                              refreshCallback) c))))
  /\ (forall s,
        reachable (fun o => entry (booking_script o)) env fresh_page s ->
        operations_in_flight booking_script s = [] ->
        hasPendingOperations (realtimeSync (st (cfg s))) = false).
Proof.
  intros env.
  apply (pending_operations_are_removed booking_script env fresh_page).
  - exact booking_script_polite.
  - reflexivity.
Defined.

(** Booking on a fresh page: the id is pending while the request is in
    flight and gone when the call has completed. *)
Example booking_in_flight_and_done :
  let env := env_of healthy_world in
  let first_turn := advance env (entry (booking_script tt)) (start fresh_page) in
  let whole_call := run env (entry (booking_script tt)) (start fresh_page) in
  pending (st (snd first_turn)) = {["create_registration_1000"]}
  /\ pending (st (snd whole_call)) = ∅
  /\ exists data, fst whole_call = Returned data.
Proof.
  intros env first_turn whole_call.
  split; [ apply (bool_decide_unpack _); vm_compute; exact I | ].
  split; [ apply (bool_decide_unpack _); vm_compute; exact I | ].
  vm_compute. eauto.
Qed.

End PendingOperations.

(** * Further properties of the scripts *)

(** ** Strings *)

Section Strings.

Lemma substring_all (s : string) :
  String.substring 0 (String.length s) s = s.
Proof. induction s as [ | a s IH ]; cbn; congruence. Qed.

Lemma prefix_empty (pat : string) :
  String.prefix pat "" = true -> pat = "".
Proof. destruct pat; [ reflexivity | discriminate ]. Qed.

Lemma includes_eq (pat s : string) :
  Js.includes pat s =
  if String.prefix pat s then true
  else match s with
       | EmptyString => false
       | String _ r => Js.includes pat r
       end.
Proof. destruct s; reflexivity. Qed.

Lemma replace_from_eq (pat by_ before s : string) :
  Js.replace_from pat by_ before s =
  if String.prefix pat s
  then let after := String.substring (String.length pat)
                      (String.length s - String.length pat) s in
       Js.substitution pat before after by_ +:+ after
  else match s with
       | EmptyString => EmptyString
       | String c r =>
           String c (Js.replace_from pat by_ (before +:+ String c "") r)
       end.
Proof. destruct s; reflexivity. Qed.

Lemma replace_from_absent (pat by_ s : string) :
  Js.includes pat s = false ->
  forall before, Js.replace_from pat by_ before s = s.
Proof.
  induction s as [ | a s IH ]; rewrite includes_eq; intros Habsent before;
    rewrite replace_from_eq.
  - destruct (String.prefix pat ""); [ discriminate | reflexivity ].
  - destruct (String.prefix pat (String a s)); [ discriminate | ].
    rewrite IH by exact Habsent. reflexivity.
Qed.

(** Replacing a pattern that does not occur changes nothing. *)
Lemma replace_absent (pat by_ s : string) :
  Js.includes pat s = false -> Js.replace pat by_ s = s.
Proof. intros Habsent. apply replace_from_absent, Habsent. Qed.

Lemma app_cons (a : ascii) (s r : string) :
  String a s +:+ r = String a (s +:+ r).
Proof. reflexivity. Qed.

Lemma app_empty (r : string) : "" +:+ r = r.
Proof. reflexivity. Qed.

Lemma app_assoc_string (x y z : string) : (x +:+ y) +:+ z = x +:+ (y +:+ z).
Proof.
  induction x as [ | a x IH ]; [ reflexivity | ].
  rewrite !app_cons, IH. reflexivity.
Qed.

Lemma prefix_app (pat rest : string) : String.prefix pat (pat +:+ rest) = true.
Proof.
  induction pat as [ | a pat IH ].
  - rewrite app_empty. destruct rest; reflexivity.
  - rewrite app_cons. cbn [String.prefix].
    destruct (ascii_dec a a); [ exact IH | congruence ].
Qed.

Lemma substring_app (pat rest : string) :
  String.substring (String.length pat)
    (String.length (pat +:+ rest) - String.length pat) (pat +:+ rest)
  = rest.
Proof.
  induction pat as [ | a pat IH ].
  - rewrite app_empty. cbn [String.length]. rewrite Nat.sub_0_r.
    apply substring_all.
  - rewrite app_cons. cbn [String.length String.substring Nat.sub].
    exact IH.
Qed.

(** A single character occurs in a concatenation when it occurs in one of
    the two parts. *)
Lemma includes_char_app (a : ascii) (x y : string) :
  Js.includes (String a "") (x +:+ y)
  = (Js.includes (String a "") x || Js.includes (String a "") y)%bool.
Proof.
  induction x as [ | c x IH ].
  - rewrite app_empty. rewrite (includes_eq _ ""). reflexivity.
  - rewrite app_cons, (includes_eq _ (String c (x +:+ y))),
      (includes_eq _ (String c x)). cbn [String.prefix].
    destruct (ascii_dec a c); [ | exact IH ].
    destruct (x +:+ y), x; reflexivity.
Qed.

Lemma replace_from_first (a : ascii) (pat by_ pre post : string) :
  Js.includes (String a "") pre = false ->
  forall before,
    Js.replace_from (String a pat) by_ before (pre +:+ String a pat +:+ post)
    = pre +:+ Js.substitution (String a pat) (before +:+ pre) post by_
      +:+ post.
Proof.
  induction pre as [ | c pre IH ]; intros Hpre before.
  - rewrite !app_empty, replace_from_eq, prefix_app, substring_app.
    assert (before +:+ "" = before) as ->; [ | reflexivity ].
    clear. induction before as [ | b before IH ]; [ reflexivity | ].
    rewrite app_cons, IH. reflexivity.
  - rewrite includes_eq in Hpre. cbn [String.prefix] in Hpre.
    rewrite (app_cons c pre), (app_cons c pre), replace_from_eq.
    cbn [String.prefix].
    destruct (ascii_dec a c) as [-> | Hne].
    + destruct pre; discriminate.
    + rewrite IH by exact Hpre.
      rewrite app_assoc_string. reflexivity.
Qed.

(** The first occurrence is the one replaced: a pattern that starts with
    a character absent from what precedes it. *)
Lemma replace_first (a : ascii) (pat by_ pre post : string) :
  Js.includes (String a "") pre = false ->
  Js.replace (String a pat) by_ (pre +:+ String a pat +:+ post)
  = pre +:+ Js.substitution (String a pat) pre post by_ +:+ post.
Proof. intros Hpre. apply (replace_from_first a pat by_ pre post Hpre ""). Qed.

(** A pattern at the start of the string. *)
Lemma replace_prefix (pat by_ rest : string) :
  Js.replace pat by_ (pat +:+ rest)
  = Js.substitution pat "" rest by_ +:+ rest.
Proof.
  unfold Js.replace. rewrite replace_from_eq, prefix_app, substring_app.
  reflexivity.
Qed.

(** A replacement text without a dollar sign stands for itself. *)
Lemma substitution_plain (matched before after template : string) :
  Js.includes "$" template = false ->
  Js.substitution matched before after template = template.
Proof.
  induction template as [ | c r IH ]; [ reflexivity | ].
  rewrite includes_eq. cbn [String.prefix Js.substitution].
  destruct (ascii_dec "$" c) as [<- | Hne].
  - destruct r; discriminate.
  - intros Hrest. destruct (Ascii.eqb_spec c "$") as [-> | _];
      [ congruence | ].
    rewrite IH by exact Hrest. reflexivity.
Qed.

End Strings.

(** ** [config.js]: URLs, requests and credentials *)

Section ConfigRest.
Import Config RealtimeSyncTimers.

(** X1.  Parameters whose placeholder does not occur in the URL leave it
    as it is: [getApiUrl] only ever rewrites [{key}] for the keys it is
    given. *)
Theorem getApiUrl_ignores_absent_params (endpoint : string)
    (params : list (string * string)) :
  Forall (fun kv => Js.includes ("{" +:+ fst kv +:+ "}")
                      (API_BASE_URL +:+ endpoint) = false) params ->
  getApiUrl endpoint params = API_BASE_URL +:+ endpoint.
Proof.
  unfold getApiUrl. generalize (API_BASE_URL +:+ endpoint) as url.
  intros url Habsent. induction Habsent as [ | kv rest Hkv _ IH ];
    [ reflexivity | ].
  cbn [fold_left]. rewrite replace_absent by exact Hkv. exact IH.
Qed.

Lemma getApiUrl_ignores_absent_params_witness :
  getApiUrl "/departments" [("id", "7")] = API_BASE_URL +:+ "/departments".
Proof.
  apply (getApiUrl_ignores_absent_params "/departments" [("id", "7")]).
  repeat constructor.
Defined.

(** X2.  A placeholder [{key}] of the endpoint, with no brace before it,
    is replaced as [String.prototype.replace] does: by the value given
    for [key] with its dollar patterns expanded ([$$], [$&], [$`] and
    [$'], the text before the match being the URL so far), and so by
    the value itself when it holds no dollar sign. *)
Theorem getApiUrl_substitutes (pre key value post : string) :
  Js.includes "{" pre = false ->
  getApiUrl (pre +:+ "{" +:+ key +:+ "}" +:+ post) [(key, value)]
  = API_BASE_URL +:+ pre
    +:+ Js.substitution ("{" +:+ key +:+ "}") (API_BASE_URL +:+ pre) post
          value
    +:+ post
  /\ (Js.includes "$" value = false ->
      getApiUrl (pre +:+ "{" +:+ key +:+ "}" +:+ post) [(key, value)]
      = API_BASE_URL +:+ pre +:+ value +:+ post).
Proof.
  intros Hpre.
  assert (getApiUrl (pre +:+ "{" +:+ key +:+ "}" +:+ post) [(key, value)]
          = API_BASE_URL +:+ pre
            +:+ Js.substitution ("{" +:+ key +:+ "}") (API_BASE_URL +:+ pre)
                  post value
            +:+ post) as Hurl.
  { unfold getApiUrl. cbn [fold_left fst snd].
    change ("{" +:+ key +:+ "}") with (String "{" (key +:+ "}")).
    assert (API_BASE_URL +:+ pre +:+ "{" +:+ key +:+ "}" +:+ post
            = (API_BASE_URL +:+ pre) +:+ String "{" (key +:+ "}") +:+ post)
      as ->.
    { rewrite app_assoc_string, (app_cons "{" (key +:+ "}") post),
        (app_assoc_string key).
      reflexivity. }
    rewrite replace_first.
    - rewrite app_assoc_string. reflexivity.
    - rewrite includes_char_app, Hpre. reflexivity. }
  split; [ exact Hurl | ].
  intros Hplain. rewrite Hurl, substitution_plain by exact Hplain.
  reflexivity.
Qed.

Lemma getApiUrl_substitutes_witness :
  getApiUrl ("/registrations/" +:+ "{" +:+ "id" +:+ "}" +:+ "/cancel")
    [("id", "42")]
  = API_BASE_URL +:+ "/registrations/" +:+ "42" +:+ "/cancel".
Proof.
  apply (getApiUrl_substitutes "/registrations/" "id" "42" "/cancel").
  - reflexivity.
  - reflexivity.
Defined.

(** The replacement text is a template: a value [$&] puts the
    placeholder back, and [a$$b] arrives as [a$b]. *)
Example getApiUrl_dollar_patterns :
  getApiUrl "/registrations/{id}" [("id", "$&")]
  = API_BASE_URL +:+ "/registrations/{id}"
  /\ getApiUrl "/registrations/{id}" [("id", "a$$b")]
     = API_BASE_URL +:+ "/registrations/a$b".
Proof. split; reflexivity. Qed.

(** X3.  Whatever the server answers, a call of [apiRequest] sends exactly
    one request, to [API_BASE_URL + endpoint] as it stands.  With an
    options object the headers of the object replace the default ones
    altogether, the [Authorization] header included; with a method name
    the body is [JSON.stringify(body)], and a falsy [body] sends none. *)
Theorem apiRequest_sends_one_request (env : Env) (endpoint : string)
    (c : Cfg Browser) :
  (forall options body,
     fetches (trace (snd (run env
                            (apiRequest endpoint (AsOptions options) body) c)))
     = (API_BASE_URL +:+ endpoint,
        {| method := method options;
           body := Async.body options;
           headers := Some (match headers options with
                            | Some h => h
                            | None => ("Content-Type", "application/json")
                                      :: getAuthHeaders (st c)
                            end) |})
       :: fetches (trace c))
  /\ (forall m body,
        fetches (trace (snd (run env
                               (apiRequest endpoint (AsMethod m) body) c)))
        = (API_BASE_URL +:+ endpoint,
           {| method := Some m;
              body := if truthy body then Some (JsonStringify body)
                      else None;
              headers := Some (("Content-Type", "application/json")
                               :: getAuthHeaders (st c)) |})
          :: fetches (trace c)).
Proof.
  split; intros x body; unfold apiRequest; cbn;
    match goal with |- context [env _ (Fetch ?u ?i) ?n] =>
      destruct (env _ (Fetch u i) n) as [response | e]
    end; cbn;
    try (destruct (status response =? 401); cbn;
         [ | destruct (json response) as [data | e]; cbn;
             [ destruct (ok response); cbn;
               [ | destruct (get_prop data "error"); cbn ] | ] ]);
    unfold merge_options; cbn;
    first [ reflexivity | destruct (headers x); reflexivity ].
Qed.

(** X4.  The credentials and the location are touched on status 401 only:
    when [fetch] rejects, or resolves with any other status, the call
    leaves [localStorage] and [location.href] as they were. *)
Theorem apiRequest_keeps_credentials (env : Env) (endpoint : string)
    (methodOrOptions : MethodOrOptions) (body : JsVal) (c : Cfg Browser) :
  (forall url init response,
     env _ (Fetch url init) (tick c) = Resolved response ->
     status response <> 401) ->
  st (snd (run env (apiRequest endpoint methodOrOptions body) c)) = st c.
Proof.
  intros Hstatus. unfold apiRequest.
  destruct methodOrOptions as [m | o]; cbn;
    match goal with |- context [env _ (Fetch ?u ?i) ?n] =>
      pose proof (Hstatus u i) as H401;
      destruct (env _ (Fetch u i) n) as [response | e]
    end; cbn; try reflexivity;
    (destruct (Z.eqb_spec (status response) 401) as [H | _];
     [ exfalso; eapply H401; eauto | ]);
    cbn; destruct (json response) as [data | e]; cbn; try reflexivity;
    destruct (ok response); cbn; try reflexivity;
    destruct (get_prop data "error"); reflexivity.
Qed.

Lemma apiRequest_keeps_credentials_witness :
  st (snd (run (env_of healthy_world)
             (apiRequest "/departments" (AsOptions no_options) VNull)
             (start signed_in)))
  = signed_in.
Proof.
  apply (apiRequest_keeps_credentials (env_of healthy_world) "/departments"
           (AsOptions no_options) VNull (start signed_in)).
  intros url init response Hfetch. cbn in Hfetch.
  inversion Hfetch; subst. discriminate.
Defined.

End ConfigRest.

(** ** Programs that keep a component, run to completion *)

Section Keeps.
Context {S A : Type} (proj : S -> A).

Lemma advance_keeps (env : Env) {R} (p : Prog S R) :
  safe proj p -> forall c, proj (st (snd (advance env p c))) = proj (st c).
Proof.
  induction 1 as [ R r | R e | R k Hk IH | R f k Hf Hk IH | R l a k Hk IH
                 | R X e k Hk IH | R child k Hc IHc Hk IH ];
    intros c; cbn [advance]; auto.
  - rewrite IH. apply Hf.
  - apply (IH (observe (Console l a) c)).
  - destruct (is_async e); [ reflexivity | apply (IH _ (answered e _ c)) ].
  - specialize (IHc c). destruct (advance env child c) as [s0 c0].
    rewrite IH. destruct s0; exact IHc.
Qed.

Lemma run_keeps (env : Env) {R} (p : Prog S R) :
  safe proj p -> forall c, proj (st (snd (run env p c))) = proj (st c).
Proof.
  induction 1 as [ R r | R e | R k Hk IH | R f k Hf Hk IH | R l a k Hk IH
                 | R X e k Hk IH | R child k Hc IHc Hk IH ];
    intros c; cbn [run]; auto.
  - rewrite IH. apply Hf.
  - apply (IH (observe (Console l a) c)).
  - apply (IH _ (answered e _ c)).
  - pose proof (advance_keeps env child Hc c) as Hchild.
    destruct (advance env child c) as [s0 c0].
    rewrite IH. destruct s0; exact Hchild.
Qed.

End Keeps.

(** ** The refresh script: sections, clock and errors *)

Section RefreshRest.
Import OnDemandRefresh.

(** X5.  [getCurrentSection] answers [booking] when no section is active;
    from an element id [section-name] it answers [name], and an id
    without [section-] is answered as it is. *)
Theorem getCurrentSection_names (env : Env) (c : Cfg State) :
  match env _ ActiveSectionId (tick c) with
  | None => fst (run env getCurrentSection c) = Returned "booking"
  | Some id =>
      (forall name, id = "section-" +:+ name ->
         fst (run env getCurrentSection c) = Returned name)
      /\ (Js.includes "section-" id = false ->
          fst (run env getCurrentSection c) = Returned id)
  end.
Proof.
  unfold getCurrentSection. cbn.
  destruct (env _ ActiveSectionId (tick c)) as [id | ]; cbn;
    [ | reflexivity ].
  split.
  - intros name ->.
    rewrite replace_prefix. reflexivity.
  - intros Habsent. rewrite replace_absent by exact Habsent. reflexivity.
Qed.

Lemma getCurrentSection_names_witness :
  fst (run (env_of healthy_world) getCurrentSection (start constructor))
  = Returned "booking".
Proof.
  apply (proj1 (getCurrentSection_names (env_of healthy_world)
                  (start constructor)) "booking").
  reflexivity.
Defined.


(** X6.  The time recorded by [recordRefresh] is the one [shouldRefresh]
    compares with: right after a section was recorded at [t1], it is due
    again at [t2] exactly when [t2 - t1] exceeds the cooldown, so not
    within the same millisecond even with the cooldown of 0; the other
    sections are judged by their own time, or by 0 when they have none. *)
Theorem recordRefresh_then_shouldRefresh (env : Env)
    (section other : string) (c : Cfg State) :
  let t1 := env Z DateNow (tick c) in
  let t2 := env Z DateNow (S (tick c)) in
  fst (run env (recordRefresh section;; shouldRefresh section) c)
  = Returned (refreshCooldown (st c) <? t2 - t1)
  /\ (other <> section ->
      fst (run env (recordRefresh section;; shouldRefresh other) c)
      = Returned (refreshCooldown (st c)
                  <? t2 - default 0 (lastRefreshTime (st c) !! other))).
Proof.
  cbn. split.
  - rewrite lookup_insert_eq. reflexivity.
  - intros Hne. rewrite lookup_insert_ne by congruence. reflexivity.
Qed.

Lemma recordRefresh_then_shouldRefresh_witness :
  fst (run (env_of healthy_world)
         (recordRefresh "booking";; shouldRefresh "profile")
         (start constructor))
  = Returned true.
Proof.
  apply (proj2 (recordRefresh_then_shouldRefresh (env_of healthy_world)
                  "booking" "profile" (start constructor))).
  discriminate.
Defined.


Lemma eqb_not_in (x : string) (l : list string) :
  ~ In x l -> existsb (String.eqb x) l = false.
Proof.
  intros Hx. apply not_true_is_false. intros (y & Hy & Heq)%existsb_exists.
  apply String.eqb_eq in Heq as ->. contradiction.
Qed.

(** X7.  An action type that names no section ([section_switch], or a
    type the table does not know) refreshes nothing: the call returns
    with the object as it was and no function of the page called. *)
Theorem unknown_action_refreshes_nothing (env : Env) (actionType : string)
    (targetSection : option string) (c : Cfg State) :
  isRefreshing (st c) = false ->
  ~ In actionType [ "create_registration"; "cancel_registration";
                    "update_profile"; "manual_refresh" ] ->
  ~ In actionType Object_prototype_keys ->
  let r := run env (refreshAfterUserAction actionType targetSection) c in
  fst r = Returned VUndefined
  /\ calls (trace (snd r)) = calls (trace c)
  /\ st (snd r) = st c.
Proof.
  intros Hidle Hknown Hproto r. subst r.
  assert (String.eqb actionType "create_registration" = false
          /\ String.eqb actionType "cancel_registration" = false
          /\ String.eqb actionType "update_profile" = false
          /\ String.eqb actionType "manual_refresh" = false)
    as (H1 & H2 & H3 & H4).
  { repeat split; apply String.eqb_neq; intros ->; apply Hknown; cbn; auto. }
  pose proof (eqb_not_in actionType _ Hproto) as H5.
  destruct c as [[flag times cooldown] n t d]. cbn in Hidle. subst flag.
  unfold refreshAfterUserAction, refreshBody, getSectionsToRefresh,
    getCurrentSection, mbind, Prog_bind.
  cbn [bind get modify run st set_st].
  destruct targetSection as [target | ];
    [ destruct (String.eqb target "") | ];
    cbn [bind ext run];
    try destruct (env _ ActiveSectionId _);
    cbn [bind run]; rewrite H1, H2, H3, H4, H5;
    destruct (String.eqb actionType "section_switch"); cbn;
    try destruct (env (option string) ActiveSectionId n); cbn; auto.
Qed.

Lemma unknown_action_refreshes_nothing_witness :
  let r := run (env_of healthy_world)
             (refreshAfterUserAction "section_switch" None)
             (start constructor) in
  fst r = Returned VUndefined
  /\ calls (trace (snd r)) = calls (trace (start constructor))
  /\ st (snd r) = st (start constructor).
Proof.
  apply (unknown_action_refreshes_nothing (env_of healthy_world)
           "section_switch" None (start constructor)).
  - reflexivity.
  - cbn. intros [H | [H | [H | [H | []]]]]; discriminate.
  - cbn. intuition discriminate.
Defined.

(** X8.  Unlike the callbacks of [triggerCallbacks], the sections of one
    run are not isolated from each other: when [loadRegistrations] fails
    after a created registration, [loadDepartments] is never called and no
    refresh time is recorded; the run still ends with [isRefreshing]
    reset. *)
Theorem failed_section_stops_the_run (env : Env) (e : JsVal)
    (c : Cfg State) :
  isRefreshing (st c) = false ->
  (forall n, env bool (TypeofFunction "loadRegistrations") n = true) ->
  (forall n, env _ (Call (Global "loadRegistrations") []) n = Rejected e) ->
  (forall n, default 0 (lastRefreshTime (st c) !! "myRegistrations")
             + refreshCooldown (st c) < env Z DateNow n) ->
  let r := run env (refreshAfterUserAction "create_registration" None) c in
  calls (trace (snd r)) = (Global "loadRegistrations", []) :: calls (trace c)
  /\ lastRefreshTime (st (snd r)) = lastRefreshTime (st c)
  /\ isRefreshing (st (snd r)) = false.
Proof.
  intros Hidle Htypeof Hcall Hclock r. subst r.
  unfold refreshAfterUserAction, refreshBody, getSectionsToRefresh,
    getCurrentSection, shouldRefresh, mbind, Prog_bind.
  cbn [bind get run]. rewrite Hidle. cbn.
  assert (forall n, (refreshCooldown (st c)
                     <? env Z DateNow n
                        - default 0 (lastRefreshTime (st c)
                                       !! "myRegistrations")) = true)
    as Hdue by (intros n; apply Z.ltb_lt; specialize (Hclock n); lia).
  destruct (env _ ActiveSectionId (tick c)); cbn;
    rewrite Hdue; cbn; rewrite Htypeof; cbn; rewrite Hcall; cbn;
    destruct (get_prop e "message"); cbn; auto.
Qed.

Lemma failed_section_stops_the_run_witness :
  let r := run (env_of (failing_world (VError "offline")))
             (refreshAfterUserAction "create_registration" None)
             (start constructor) in
  calls (trace (snd r))
  = (Global "loadRegistrations", []) :: calls (trace (start constructor))
  /\ lastRefreshTime (st (snd r)) = lastRefreshTime (st (start constructor))
  /\ isRefreshing (st (snd r)) = false.
Proof.
  apply (failed_section_stops_the_run (env_of (failing_world (VError "offline")))
           (VError "offline") (start constructor)).
  - reflexivity.
  - reflexivity.
  - reflexivity.
  - intros n. change (0 + 0 < 1000 + Z.of_nat n). lia.
Defined.

(** X9.  [refreshSection] adds no error of its own: what it throws is a
    value that a function of the page rejected with, rethrown as it
    is. *)
Theorem refreshSection_rethrows_unchanged (env : Env) (sectionName : string)
    (c c' : Cfg State) (e : JsVal) :
  run env (refreshSection sectionName) c = (Threw e, c') ->
  exists f args n, env _ (Call f args) n = Rejected e.
Proof.
  apply (throws_only_refreshSection
           (fun e => exists f args n, env _ (Call f args) n = Rejected e)).
  intros f args n e' Hcall. eauto.
Qed.

Lemma refreshSection_rethrows_unchanged_witness :
  exists f args n,
    env_of (failing_world (VError "offline")) _ (Call f args) n
    = Rejected (VError "offline").
Proof.
  apply (refreshSection_rethrows_unchanged
           (env_of (failing_world (VError "offline"))) "profile"
           (start constructor)
           (snd (run (env_of (failing_world (VError "offline")))
                   (refreshSection "profile") (start constructor)))).
  reflexivity.
Defined.

(** X10.  [refreshCurrentSection] never throws and never touches
    [isRefreshing]: it takes no part in the mutual exclusion of runs, and
    a failing loader ends in its own [catch] block. *)
Theorem refreshCurrentSection_contains_errors (env : Env) (c : Cfg State) :
  fst (run env refreshCurrentSection c) = Returned VUndefined
  /\ isRefreshing (st (snd (run env refreshCurrentSection c)))
     = isRefreshing (st c).
Proof.
  split.
  - unfold refreshCurrentSection, mbind, Prog_bind.
    rewrite run_bind.
    destruct (run env getCurrentSection c) as [[section | e] c1] eqn:Hsec.
    + cbn [bind console_log run]. rewrite run_bind.
      match goal with |- context [try_catch ?p _] =>
        destruct (run_catch_and_log env p (VStr "刷新当前section失败:")
                    (observe (Console LogLevel
                                [VStr ("刷新当前section: " +:+ section)]) c1))
          as (c2 & ->)
      end.
      reflexivity.
    + exfalso. unfold getCurrentSection in Hsec. cbn in Hsec.
      destruct (env _ ActiveSectionId (tick c)); discriminate.
  - apply (run_keeps isRefreshing), safe_refreshCurrentSection.
Qed.

End RefreshRest.

(** ** The synchronisation script: callbacks, operation types and timers *)

Section RealtimeSyncRest.
Import RealtimeSyncObject RealtimeSync RealtimeSyncTimers.

(** X11.  [registerCallback] appends: the callbacks registered before for
    the operation are called first and the new one last (once more if it
    was registered already), and the callbacks of the other operations
    stay as they were. *)
Theorem registered_callback_is_called_last (env : Env)
    (operation other : string) (callback : FnRef) (result : JsVal)
    (c : Cfg Page) :
  let earlier := default [] (syncCallbacks (realtimeSync (st c)) !! operation) in
  let r := run env (registerCallback operation callback;;
                    triggerCallbacks operation result) c in
  fst r = Returned VUndefined
  /\ calls (trace (snd r))
     = (callback, [result])
       :: rev (map (fun earlier_one => (earlier_one, [result])) earlier)
       ++ calls (trace c)
  /\ (other <> operation ->
      syncCallbacks (realtimeSync (st (snd r))) !! other
      = syncCallbacks (realtimeSync (st c)) !! other).
Proof.
  intros earlier r.
  set (c1 := set_st (over_realtimeSync (set_syncCallbacks (fun m =>
               <[operation := default [] (m !! operation) ++ [callback]]> m)))
               c).
  destruct (run_callbacks_loop env result (earlier ++ [callback]) c1)
    as (c' & Hrun & Hst & Hcalls).
  assert (r = (Returned VUndefined, c')) as ->.
  { subst r. unfold registerCallback, triggerCallbacks, update, modify, this,
      gets, mbind, Prog_bind.
    cbn [bind run]. fold c1.
    assert (default [] (syncCallbacks (realtimeSync (st c1)) !! operation)
            = earlier ++ [callback]) as ->.
    { subst c1. cbn. rewrite lookup_insert_eq. reflexivity. }
    rewrite run_bind. unfold mbind, Prog_bind in Hrun. rewrite Hrun.
    reflexivity. }
  cbn [fst snd]. repeat split.
  - rewrite Hcalls, map_app, rev_app_distr. reflexivity.
  - intros Hne. rewrite Hst. subst c1. cbn.
    rewrite lookup_insert_ne by congruence. reflexivity.
Qed.

Lemma registered_callback_is_called_last_witness :
  syncCallbacks
    (realtimeSync
       (st (snd (run (env_of healthy_world)
                   (registerCallback "create_registration" (Callback 1);;
                    triggerCallbacks "create_registration" VUndefined)
                   (start fresh_page)))))
  !! "cancel_registration"
  = syncCallbacks (realtimeSync (st (start fresh_page)))
    !! "cancel_registration".
Proof.
  apply (registered_callback_is_called_last (env_of healthy_world)
           "create_registration" "cancel_registration" (Callback 1)
           VUndefined (start fresh_page)).
  discriminate.
Defined.


(** X12.  [getOperationType] compares the method as it was given, while
    [wrapApiRequest] upper-cases it first.  With the method exactly
    [POST], [PUT] or [DELETE], a path that contains [registration] is a
    registration operation even when it also contains [patient] or
    [doctor]; with any other spelling of the method the operation is
    [cancel_registration] when the path contains [registration] and
    [cancel], and [general_operation] otherwise. *)
Theorem getOperationType_compares_the_method_exactly
    (endpoint method : string) :
  let path := toLowerCase endpoint in
  (In method ["POST"; "PUT"; "DELETE"] ->
   includes "registration" path = true ->
   is_registration_operation (getOperationType endpoint method) = true)
  /\ (~ In method ["POST"; "PUT"; "DELETE"] ->
      getOperationType endpoint method
      = if (includes "registration" path && includes "cancel" path)%bool
        then "cancel_registration" else "general_operation").
Proof.
  intros path. split.
  - intros Hmethod Hpath. unfold getOperationType. fold path.
    rewrite Hpath.
    destruct Hmethod as [<- | [<- | [<- | []]]]; cbn;
      try reflexivity.
    destruct (includes "cancel" path); reflexivity.
  - intros Hmethod.
    assert (String.eqb method "POST" = false
            /\ String.eqb method "PUT" = false
            /\ String.eqb method "DELETE" = false) as (H1 & H2 & H3).
    { repeat split; apply String.eqb_neq; intros ->; apply Hmethod; cbn;
        auto. }
    unfold getOperationType. fold path. rewrite H1, H2, H3.
    destruct (includes "registration" path), (includes "cancel" path),
      (includes "patient" path), (includes "doctor" path); reflexivity.
Qed.

Lemma getOperationType_compares_the_method_exactly_witness :
  is_registration_operation
    (getOperationType "/api/patients/3/registrations" "PUT") = true
  /\ getOperationType "/api/registrations" "post" = "general_operation".
Proof.
  split.
  - apply (proj1 (getOperationType_compares_the_method_exactly
                    "/api/patients/3/registrations" "PUT")).
    + cbn. auto.
    + reflexivity.
  - apply (proj2 (getOperationType_compares_the_method_exactly
                    "/api/registrations" "post")).
    cbn. intuition discriminate.
Defined.


Lemma refreshRelevantData_returns (env : Env) (operationType : string)
    (c : Cfg Page) :
  exists c', run env (refreshRelevantData operationType) c
             = (Returned VUndefined, c').
Proof.
  unfold refreshRelevantData, mbind, Prog_bind. rewrite run_bind.
  match goal with |- context [try_catch ?p _] =>
    destruct (run_catch_and_log env p (VStr "刷新数据失败:") c) as (c' & ->)
  end.
  eauto.
Qed.

Lemma triggerCallbacks_returns (env : Env) (operation : string)
    (result : JsVal) (c : Cfg Page) :
  exists c', run env (triggerCallbacks operation result) c
             = (Returned VUndefined, c').
Proof.
  unfold triggerCallbacks, this, gets, mbind, Prog_bind. cbn [bind run].
  rewrite run_bind.
  destruct (run_callbacks_loop env result
              (default [] (syncCallbacks (realtimeSync (st c)) !! operation))
              c) as (c' & Hrun & _).
  unfold mbind, Prog_bind in Hrun. rewrite Hrun. eauto.
Qed.

(** The outcome of an enabled [executeOperation] whose refresh callback
    is [refreshRelevantData], from what the call of [apiCall] comes to. *)
Lemma executeOperation_outcome (env : Env) (operationType : string)
    (apiCall : Callee Page JsVal) (c : Cfg Page) :
  isEnabled (realtimeSync (st c)) = true ->
  let now := env Z DateNow (tick c) in
  let operationId := operationId_of operationType now in
  let c0 :=
    observe (Console LogLevel [VStr "操作状态: 进行中... (info)"])
      (set_st (over_realtimeSync
                 (set_pendingOperations (fun p => {[operationId]} ∪ p)))
         (answered DateNow now c)) in
  fst (run env (executeOperation operationType apiCall
                  (Some (async_function
                           (refreshRelevantData operationType)))) c)
  = match fst (run env (invoke apiCall) c0) with
    | Returned result => Returned result
    | Threw error =>
        Threw (match get_prop error "message" with
               | inl _ => error
               | inr type_error => type_error
               end)
    end.
Proof.
  intros Henabled now operationId c0.
  unfold executeOperation, this, gets, mbind, Prog_bind.
  cbn [bind run]. rewrite Henabled. cbn [negb bind ext run].
  fold now. fold operationId.
  unfold update at 1, modify. cbn [bind run].
  rewrite run_try_catch.
  unfold showOperationStatus at 1, console_log. cbn [bind run].
  change (observe _ _) with c0.
  assert (forall error c1,
            fst (run env (executeCatch (R := JsVal) operationId error) c1)
            = Threw (match get_prop error "message" with
                     | inl _ => error
                     | inr type_error => type_error
                     end)) as Hcatch.
  { intros error c1. unfold executeCatch, update, modify, mbind, Prog_bind.
    cbn [bind run]. destruct (get_prop error "message"); reflexivity. }
  rewrite run_bind, run_await_of, run_invoke.
  destruct (run env apiCall c0) as [[promise | error] c1];
    [ | apply Hcatch ].
  destruct (run env promise c1) as [[result | error] c2]; cbn [fst snd];
    [ | apply Hcatch ].
  rewrite run_bind, run_await. unfold waitForSync. cbn [run fst snd].
  unfold await_of, async_function, mbind, Prog_bind. cbn [bind].
  rewrite !run_bind, run_await.
  destruct (refreshRelevantData_returns env operationType
              (answered Yield tt (answered Yield tt c2))) as (c3 & ->).
  cbn [fst snd run]. rewrite run_bind, run_await.
  destruct (triggerCallbacks_returns env operationType result
              (answered Yield tt c3)) as (c4 & ->).
  reflexivity.
Qed.

(** X13.  A modifying request through [wrapApiRequest], with the
    synchronisation enabled, completes as the original request does:
    it returns what the original returned, whatever the refresh and the
    callbacks did afterwards, and throws what the original threw, except
    for [null] and [undefined], in place of which the [TypeError] of
    reading [error.message] is thrown.  The original runs with the
    operation id already pending. *)
Theorem wrapApiRequest_answers_as_the_original (env : Env)
    (originalApiRequest : ApiRequest)
    (endpoint : string) (options : Options) (body : JsVal) (c : Cfg Page) :
  isModifyingOperation (method_or_GET options) = true ->
  isEnabled (realtimeSync (st c)) = true ->
  let operationType := getOperationType endpoint (method_or_GET options) in
  let now := env Z DateNow (tick c) in
  let operationId := operationId_of operationType now in
  let c0 :=
    observe (Console LogLevel [VStr "操作状态: 进行中... (info)"])
      (set_st (over_realtimeSync
                 (set_pendingOperations (fun p => {[operationId]} ∪ p)))
         (answered DateNow now c)) in
  fst (run env
         (invoke (wrapApiRequest originalApiRequest endpoint
                    (Config.AsOptions options) body)) c)
  = match fst (run env
                 (invoke (originalApiRequest endpoint
                            (Config.AsOptions options) VUndefined)) c0) with
    | Returned result => Returned result
    | Threw error =>
        Threw (match get_prop error "message" with
               | inl _ => error
               | inr type_error => type_error
               end)
    end.
Proof.
  intros Hmodifying Henabled operationType now operationId c0.
  unfold wrapApiRequest, invoke, async_function, mbind, Prog_bind.
  cbn [bind requested_method]. rewrite Hmodifying. cbn [negb].
  fold operationType. rewrite run_await. cbn [fst].
  apply (executeOperation_outcome env operationType
           (originalApiRequest endpoint (Config.AsOptions options)
              VUndefined) c Henabled).
Qed.

Lemma wrapApiRequest_answers_as_the_original_witness :
  fst (run (env_of healthy_world)
         (invoke (wrapApiRequest Window.apiRequest "/api/registrations"
                    (Config.AsOptions post_registration) VUndefined))
         (start fresh_page))
  = Returned (VObj [("ok", VBool true)]).
Proof.
  apply (wrapApiRequest_answers_as_the_original (env_of healthy_world)
           Window.apiRequest "/api/registrations" post_registration
           VUndefined (start fresh_page)).
  - reflexivity.
  - reflexivity.
Defined.

Lemma waitLoop_returns (env : Env) (startTime timeout : Z) :
  clock_advances env ->
  forall (fuel : nat) (c : Cfg Page),
    timeout - (env Z DateNow (tick c) - startTime) <= Z.of_nat fuel ->
    exists c',
      run env (waitLoop fuel startTime timeout) c
      = (Returned
           (Some (negb (hasPendingOperations (realtimeSync (st c))))), c')
      /\ st c' = st c.
Proof.
  intros Hclock fuel. induction fuel as [ | fuel IH ]; intros c Hfuel.
  - cbn -[Z.sub hasPendingOperations].
    destruct (hasPendingOperations (realtimeSync (st c))) eqn:Hpending;
      cbn -[Z.sub hasPendingOperations]; [ | rewrite ?Hpending; eauto ].
    destruct (Z.ltb_spec (env Z DateNow (tick c) - startTime) timeout);
      [ lia | ].
    cbn -[hasPendingOperations]. rewrite ?Hpending. eauto.
  - cbn -[Z.sub hasPendingOperations].
    destruct (hasPendingOperations (realtimeSync (st c))) eqn:Hpending;
      cbn -[Z.sub hasPendingOperations]; [ | rewrite ?Hpending; eauto ].
    destruct (Z.ltb_spec (env Z DateNow (tick c) - startTime) timeout);
      [ | cbn -[hasPendingOperations]; rewrite ?Hpending; eauto ].
    cbn -[Z.sub hasPendingOperations].
    match goal with |- context [run env _ ?c2] =>
      destruct (IH c2) as (c' & Hrun & Hst)
    end.
    { cbn [tick answered].
      pose proof (Hclock (tick c) (S (S (tick c)))). lia. }
    cbn [st answered] in Hrun, Hst. rewrite Hpending in Hrun.
    eauto.
Qed.

(** X14.  On a clock that advances, and while nothing else runs,
    [waitForAllOperations] returns after at most [timeout] rounds of
    100 ms: it answers whether no operation is pending, and it changes
    nothing itself. *)
Theorem waitForAllOperations_gives_up (env : Env) (fuel : nat)
    (timeout : Z) (c : Cfg Page) :
  clock_advances env ->
  (Z.to_nat timeout <= fuel)%nat ->
  let r := run env (waitForAllOperations fuel timeout) c in
  fst r = Returned (Some (negb (hasPendingOperations (realtimeSync (st c)))))
  /\ st (snd r) = st c.
Proof.
  intros Hclock Hfuel r. subst r.
  unfold waitForAllOperations, mbind, Prog_bind. cbn [bind ext run].
  destruct (waitLoop_returns env (env Z DateNow (tick c)) timeout Hclock fuel
              (answered DateNow (env Z DateNow (tick c)) c))
    as (c' & -> & Hst).
  - cbn [tick answered]. pose proof (Hclock (tick c) (S (tick c))). lia.
  - auto.
Qed.

Lemma clock_of_healthy_world : clock_advances (env_of healthy_world).
Proof. intros n m Hlt. cbn. lia. Qed.

Lemma waitForAllOperations_gives_up_witness :
  let c := start (over_realtimeSync
                    (set_pendingOperations (fun _ => {[ "create_registration_1" ]}))
                    fresh_page) in
  let r := run (env_of healthy_world) (waitForAllOperations 30 30) c in
  fst r = Returned (Some (negb (hasPendingOperations (realtimeSync (st c)))))
  /\ st (snd r) = st c.
Proof.
  apply (waitForAllOperations_gives_up (env_of healthy_world) 30 30).
  - exact clock_of_healthy_world.
  - cbn. lia.
Defined.

(** X15.  The enhanced [confirmBooking] and [cancelRegistration] never
    throw.  Each calls the original once, with the same arguments; the
    delayed reload of the registrations is scheduled when the original
    resolved and not when it failed, and no loader has been called when
    the enhanced function returns. *)
Theorem enhanced_functions_contain_errors {S} (env : Env) (regId : JsVal)
    (c : Cfg S) :
  let scheduled (X : Completion JsVal) : nat :=
    match X with Resolved _ => 1%nat | Rejected _ => 0%nat end in
  (let r := run env confirmBooking c in
   fst r = Returned VUndefined
   /\ calls (trace (snd r)) = (Global "confirmBooking", []) :: calls (trace c)
   /\ length (detached (snd r))
      = (scheduled (env _ (Call (Global "confirmBooking") []) (tick c))
         + length (detached c))%nat)
  /\ (let r := run env (cancelRegistration regId) c in
      fst r = Returned VUndefined
      /\ calls (trace (snd r))
         = (Global "cancelRegistration", [regId]) :: calls (trace c)
      /\ length (detached (snd r))
         = (scheduled (env _ (Call (Global "cancelRegistration") [regId])
                         (tick c))
            + length (detached c))%nat).
Proof.
  intros scheduled. split.
  - cbn. destruct (env _ (Call (Global "confirmBooking") []) (tick c));
      cbn; auto.
  - cbn.
    destruct (env _ (Call (Global "cancelRegistration") [regId]) (tick c));
      cbn; auto.
Qed.

End RealtimeSyncRest.

(** ** Calls that wait *)

Section Suspension.
Context {S : Type}.

Lemma advance_bind_suspended (env : Env) {A B} (p : Prog S A)
    (f : A -> Prog S B) (c c' : Cfg S) (b : Blocked S A) :
  advance env p c = (Suspended b, c') ->
  exists b', advance env (bind p f) c = (Suspended b', c').
Proof.
  revert B f c c' b.
  induction p as [ A r | A e | A k IH | A g k IH | A l a k IH
                 | A X e k IH | A child IHc k IH ];
    intros B f c c' b; cbn [bind advance].
  - discriminate.
  - discriminate.
  - apply IH.
  - apply IH.
  - apply IH.
  - destruct (is_async e); [ | apply IH ].
    intros [= <- <-]. eauto.
  - destruct (advance env child c) as [s c1]. apply IH.
Qed.

Lemma advance_bind_returned (env : Env) {A B} (p : Prog S A)
    (f : A -> Prog S B) (c c' : Cfg S) (a : A) :
  advance env p c = (Done (Returned a), c') ->
  advance env (bind p f) c = advance env (f a) c'.
Proof.
  revert B f c c' a.
  induction p as [ A r | A e | A k IH | A g k IH | A l x k IH
                 | A X e k IH | A child IHc k IH ];
    intros B f c c' a; cbn [bind advance].
  - intros [= <- <-]. reflexivity.
  - discriminate.
  - apply IH.
  - apply IH.
  - apply IH.
  - destruct (is_async e); [ discriminate | apply IH ].
  - destruct (advance env child c) as [s c1]. apply IH.
Qed.

Lemma advance_bind_threw (env : Env) {A B} (p : Prog S A)
    (f : A -> Prog S B) (c c' : Cfg S) (e : JsVal) :
  advance env p c = (Done (Threw e), c') ->
  advance env (bind p f) c = (Done (Threw e), c').
Proof.
  revert B f c c' e.
  induction p as [ A r | A e0 | A k IH | A g k IH | A l x k IH
                 | A X e0 k IH | A child IHc k IH ];
    intros B f c c' e; cbn [bind advance].
  - discriminate.
  - intros [= <- <-]. reflexivity.
  - apply IH.
  - apply IH.
  - apply IH.
  - destruct (is_async e0); [ discriminate | apply IH ].
  - destruct (advance env child c) as [s c1]. apply IH.
Qed.

Lemma advance_try_catch_suspended (env : Env) {A} (p : Prog S A)
    (h : JsVal -> Prog S A) (c c' : Cfg S) (b : Blocked S A) :
  advance env p c = (Suspended b, c') ->
  exists b', advance env (try_catch p h) c = (Suspended b', c').
Proof.
  revert h c c' b.
  induction p as [ A r | A e | A k IH | A g k IH | A l a k IH
                 | A X e k IH | A child IHc k IH ];
    intros h c c' b; cbn [try_catch advance].
  - discriminate.
  - discriminate.
  - apply IH.
  - apply IH.
  - apply IH.
  - destruct (is_async e); [ | apply IH ].
    intros [= <- <-]. eauto.
  - destruct (advance env child c) as [s c1]. apply IH.
Qed.

Lemma advance_try_catch_done (env : Env) {A} (p : Prog S A)
    (h : JsVal -> Prog S A) (c c' : Cfg S) (o : Outcome A) :
  advance env p c = (Done o, c') ->
  advance env (try_catch p h) c
  = match o with
    | Returned a => (Done (Returned a), c')
    | Threw e => advance env (h e) c'
    end.
Proof.
  revert h c c' o.
  induction p as [ A r | A e | A k IH | A g k IH | A l a k IH
                 | A X e k IH | A child IHc k IH ];
    intros h c c' o; cbn [try_catch advance].
  - intros [= <- <-]. reflexivity.
  - intros [= <- <-]. reflexivity.
  - apply IH.
  - apply IH.
  - apply IH.
  - destruct (is_async e); [ discriminate | apply IH ].
  - destruct (advance env child c) as [s c1]. apply IH.
Qed.

(** An [await] of one of the scripts' own functions always gives the
    turn away: at the callee's first suspension point, or else right
    after the callee has finished. *)
Lemma advance_await_suspends (env : Env) {A} (p : Prog S A) (c : Cfg S) :
  exists b, advance env (await p) c = (Suspended b, snd (advance env p c)).
Proof.
  unfold await, capture, mbind, Prog_bind.
  destruct (advance env p c) as [[[a | e] | b] c'] eqn:Hp; cbn [snd].
  - erewrite advance_bind_returned; [ cbn; eauto | ].
    erewrite advance_try_catch_done;
      [ | erewrite advance_bind_returned; [ | exact Hp ]; reflexivity ].
    reflexivity.
  - erewrite advance_bind_returned; [ cbn; eauto | ].
    erewrite advance_try_catch_done;
      [ | apply advance_bind_threw; exact Hp ].
    reflexivity.
  - destruct (advance_bind_suspended env p (fun a => Ret (Resolved a)) c c' b
                Hp) as (b1 & H1).
    destruct (advance_try_catch_suspended env _
                (fun e => Ret (Rejected e)) c c' b1 H1) as (b2 & H2).
    eapply advance_bind_suspended, H2.
Qed.

(** [await f(args)] gives the turn away unless the call itself throws. *)
Lemma advance_await_of (env : Env) {A} (call : Callee S A) (c : Cfg S) :
  match advance env call c with
  | (Done (Threw e), c1) =>
      advance env (await_of call) c = (Done (Threw e), c1)
  | (Done (Returned promise), c1) =>
      exists b, advance env (await_of call) c
                = (Suspended b, snd (advance env promise c1))
  | (Suspended _, c1) =>
      exists b, advance env (await_of call) c = (Suspended b, c1)
  end.
Proof.
  unfold await_of, mbind, Prog_bind.
  destruct (advance env call c) as [[[promise | e] | b] c1] eqn:Hcall.
  - rewrite (advance_bind_returned env call _ c c1 promise Hcall).
    apply advance_await_suspends.
  - apply advance_bind_threw, Hcall.
  - eapply advance_bind_suspended, Hcall.
Qed.

End Suspension.

Section WhileItWaits.
Import RealtimeSyncObject RealtimeSync SyncLoop.

(** X16.  An enabled [executeOperation] completes in the turn in which
    it is called only when the call of [apiCall] itself throws there;
    the id is then removed again before the exception leaves.  In every
    other case the operation waits, and while it waits for the first
    time its id is pending: [hasPendingOperations] answers [true].
    ([await apiCall()] is taken not to write [pendingOperations]
    itself.) *)
Theorem operation_is_pending_while_it_waits (env : Env)
    (operationType : string) (apiCall : Callee Page JsVal)
    (refreshCallback : option (Callee Page JsVal)) (c : Cfg Page) :
  isEnabled (realtimeSync (st c)) = true ->
  safe pending (await_of apiCall) ->
  let now := env Z DateNow (tick c) in
  let operationId := operationId_of operationType now in
  let c0 :=
    observe (Console LogLevel [VStr "操作状态: 进行中... (info)"])
      (set_st (over_realtimeSync
                 (set_pendingOperations (fun p => {[operationId]} ∪ p)))
         (answered DateNow now c)) in
  let first_turn :=
    advance env (executeOperation operationType apiCall refreshCallback) c in
  ((forall e, fst (advance env apiCall c0) <> Done (Threw e)) ->
   exists b,
     fst first_turn = Suspended b
     /\ operationId ∈ pending (st (snd first_turn))
     /\ hasPendingOperations (realtimeSync (st (snd first_turn))) = true)
  /\ (forall e,
        fst (advance env apiCall c0) = Done (Threw e) ->
        exists e',
          fst first_turn = Done (Threw e')
          /\ operationId ∉ pending (st (snd first_turn))).
Proof.
  intros Henabled Hsafe now operationId c0 first_turn.
  assert (operationId
          ∈ pending (st (snd (advance env (await_of apiCall) c0)))) as Hin.
  { rewrite (advance_keeps pending env (await_of apiCall) Hsafe c0).
    unfold pending. cbn. set_solver. }
  assert (first_turn
          = advance env
              (try_catch
                 (bind (await_of apiCall) (fun result =>
                    await waitForSync;;
                    match refreshCallback with
                    | Some callback => await_of callback;; Ret tt
                    | None => Ret tt
                    end;;
                    await (triggerCallbacks operationType result);;
                    showOperationStatus "操作成功，数据已更新" "success";;
                    update (set_pendingOperations
                              (fun p => p ∖ {[operationId]}));;
                    Ret result))
                 (executeCatch operationId)) c0) as ->.
  { subst first_turn.
    unfold executeOperation, this, gets, mbind, Prog_bind.
    cbn [bind advance]. rewrite Henabled.
    cbn [negb bind ext advance is_async].
    unfold update at 1, modify. cbn [bind advance].
    unfold showOperationStatus at 1, console_log.
    cbn [bind try_catch advance]. reflexivity. }
  pose proof (advance_await_of env apiCall c0) as Hawait.
  split.
  - intros Hreturns.
    assert (exists b, advance env (await_of apiCall) c0
                      = (Suspended b,
                         snd (advance env (await_of apiCall) c0)))
      as (b0 & H0).
    { destruct (advance env apiCall c0) as [[[promise | e] | b] c1].
      - destruct Hawait as (b0 & ->). eauto.
      - exfalso. exact (Hreturns e eq_refl).
      - destruct Hawait as (b0 & ->). eauto. }
    match goal with |- context [try_catch (bind _ ?k) ?h] =>
      destruct (advance_bind_suspended env _ k _ _ _ H0) as (b1 & H1);
      destruct (advance_try_catch_suspended env _ h _ _ _ H1) as (b2 & H2)
    end.
    rewrite H2. cbn [fst snd]. exists b2.
    split; [ reflexivity | ]. split; [ exact Hin | ].
    unfold hasPendingOperations. apply Nat.ltb_lt.
    unfold pending in Hin.
    match goal with |- (0 < size ?X)%nat =>
      destruct (size X) eqn:Hsize;
        [ apply size_empty_inv in Hsize; set_solver | lia ]
    end.
  - intros e Hthrows.
    destruct (advance env apiCall c0) as [[[promise | e0] | b] c1];
      cbn [fst] in Hthrows; try discriminate.
    rewrite Hawait in Hin. cbn [snd] in Hin.
    match goal with |- context [try_catch (bind _ ?k) ?h] =>
      rewrite (advance_try_catch_done env _ h c0 c1 (Threw e0)
                 (advance_bind_threw env _ k c0 c1 e0 Hawait))
    end.
    unfold executeCatch, update, modify, mbind, Prog_bind.
    cbn [bind advance].
    destruct (get_prop e0 "message"); cbn; eexists;
      (split; [ reflexivity | ]); unfold pending; cbn; set_solver.
Qed.

Lemma operation_is_pending_while_it_waits_witness :
  exists b,
    fst (advance (env_of healthy_world)
           (executeOperation "create_registration"
              (Window.apiRequest "/api/registrations"
                 (Config.AsOptions post_registration) VUndefined) None)
           (start fresh_page))
    = Suspended b
    /\ operationId_of "create_registration"
         (env_of healthy_world Z DateNow (tick (start fresh_page)))
       ∈ pending
           (st (snd (advance (env_of healthy_world)
                       (executeOperation "create_registration"
                          (Window.apiRequest "/api/registrations"
                             (Config.AsOptions post_registration) VUndefined)
                          None)
                       (start fresh_page))))
    /\ hasPendingOperations
         (realtimeSync
            (st (snd (advance (env_of healthy_world)
                        (executeOperation "create_registration"
                           (Window.apiRequest "/api/registrations"
                              (Config.AsOptions post_registration)
                              VUndefined)
                           None)
                        (start fresh_page)))))
       = true.
Proof.
  apply (operation_is_pending_while_it_waits (env_of healthy_world)
           "create_registration"
           (Window.apiRequest "/api/registrations"
              (Config.AsOptions post_registration) VUndefined) None
           (start fresh_page)).
  - reflexivity.
  - apply safe_apiRequest.
  - intros e. discriminate.
Defined.

(** An [apiCall] that is not a function: the call throws, and
    [executeOperation] is over in the turn of the call. *)
Example operation_of_a_throwing_call :
  let first_turn :=
    advance (env_of healthy_world)
      (executeOperation "create_registration"
         (Throw (VError "apiCall is not a function")) None)
      (start fresh_page) in
  fst first_turn = Done (Threw (VError "apiCall is not a function"))
  /\ pending (st (snd first_turn)) = ∅.
Proof.
  split; [ reflexivity | ].
  apply (bool_decide_unpack _). vm_compute. exact I.
Qed.

End WhileItWaits.

(** ** The instant-response script: records of optimistic updates *)

Section InstantResponseRest.
Import InstantResponseObject InstantResponse.

(** The outcome of [optimisticUpdate], from what the call of
    [updateFunction] comes to. *)
Lemma optimisticUpdate_outcome (env : Env) (operation : string)
    (updateFunction : Callee Page JsVal) (rollback : option Rollback)
    (c : Cfg Page) :
  fst (run env (optimisticUpdate operation updateFunction rollback) c)
  = match fst (run env (invoke updateFunction)
                 (answered DateNow (env Z DateNow (tick c)) c)) with
    | Returned result => Returned result
    | Threw error =>
        Threw (match get_prop error "message" with
               | inl _ => error
               | inr type_error => type_error
               end)
    end.
Proof.
  unfold optimisticUpdate, mbind, Prog_bind. cbn [bind ext run].
  rewrite run_try_catch, run_bind, run_await_of, run_invoke.
  destruct (run env updateFunction _) as [[promise | error] c1];
    [ destruct (run env promise c1) as [[result | error] c2] | ];
    cbn [fst snd];
    first [ reflexivity | destruct (get_prop error "message"); reflexivity ].
Qed.

(** X17.  [optimisticUpdate] records an update only when
    [updateFunction] succeeded: then it returns the result, stores it
    with the rollback function under the time of the call and starts
    [backgroundSync] without waiting for it.  When [updateFunction]
    failed, the error is thrown again ([null] and [undefined] give the
    [TypeError] of reading [error.message]), nothing is recorded and
    nothing is started. *)
Theorem optimisticUpdate_records_only_success (env : Env)
    (operation : string) (updateFunction : Callee Page JsVal)
    (rollback : option Rollback) (c : Cfg Page) :
  let now := env Z DateNow (tick c) in
  let updated := run env (invoke updateFunction) (answered DateNow now c) in
  let r := run env (optimisticUpdate operation updateFunction rollback) c in
  match fst updated with
  | Returned result =>
      fst r = Returned result
      /\ st (snd r)
         = over_instantResponse
             (set_optimisticUpdates
                (<[pretty now := {| rollbackFunction := rollback;
                                     result := result |}]>))
             (st (snd updated))
      /\ length (detached (snd r)) = Datatypes.S (length (detached (snd updated)))
  | Threw error =>
      fst r = Threw (match get_prop error "message" with
                     | inl _ => error
                     | inr type_error => type_error
                     end)
      /\ st (snd r) = st (snd updated)
      /\ detached (snd r) = detached (snd updated)
  end.
Proof.
  intros now updated r. subst r updated.
  unfold optimisticUpdate, mbind, Prog_bind. cbn [bind ext run]. fold now.
  rewrite run_try_catch, run_bind, run_await_of, run_invoke.
  destruct (run env updateFunction (answered DateNow now c))
    as [[promise | error] c1];
    [ destruct (run env promise c1) as [[result | error] c2] | ];
    cbn [fst snd];
    first [ cbn; solve [ auto ]
          | destruct (get_prop error "message"); cbn; auto ].
Qed.

Lemma rollbackOperation_of_unknown_id (env : Env) (operationId : string)
    (c : Cfg Page) :
  optimisticUpdates (instantResponse (st c)) !! operationId = None ->
  run env (rollbackOperation operationId) c = (Returned VUndefined, c).
Proof.
  intros Hnone. unfold rollbackOperation, this, gets, mbind, Prog_bind.
  cbn [bind run]. rewrite Hnone. unfold update, modify. cbn [bind run].
  destruct c as [[b o r [p u]] n t d].
  unfold set_st, over_instantResponse, set_optimisticUpdates.
  cbn [st instantResponse optimisticUpdates] in *.
  rewrite delete_id by exact Hnone. reflexivity.
Qed.

Lemma rollbackOperation_forgets (env : Env) (operationId : string)
    (c : Cfg Page) :
  optimisticUpdates
    (instantResponse (st (snd (run env (rollbackOperation operationId) c))))
  !! operationId = None.
Proof.
  unfold rollbackOperation, this, gets, update, modify, mbind, Prog_bind.
  cbn [bind run]. rewrite run_bind.
  destruct (optimisticUpdates (instantResponse (st c)) !! operationId)
    as [[[f | ] result] | ].
  - match goal with |- context [try_catch ?p _] =>
      destruct (run_catch_and_log env p (VStr "回滚失败:") c) as (c1 & ->)
    end.
    cbn. apply lookup_delete_eq.
  - cbn. apply lookup_delete_eq.
  - cbn. apply lookup_delete_eq.
Qed.

Lemma safe_call_rollback (f : Rollback) :
  safe instantResponse (call_rollback f).
Proof.
  destruct f as [ | g]; unfold call_rollback, get, ext, mbind, Prog_bind;
    cbn [bind].
  - constructor. intros page.
    destruct (onDemandRefresh page); [ | constructor ].
    apply safe_Fork; [ | constructor ].
    unfold on_onDemandRefresh. apply safe_zoom. intros h p. reflexivity.
  - constructor. intros completion. apply safe_settle.
Qed.

(** X18.  [rollbackOperation] deletes the record after it has awaited
    the rollback function.  Once a call of [rollbackOperation], or of
    [backgroundSync], for an operation id has completed, a call of
    [rollbackOperation] for the same id calls nothing and changes
    nothing; but while a call waits, the record is still there for a
    call that overlaps with it. *)
Theorem completed_rollback_is_not_repeated (env : Env)
    (operationId : string) (c : Cfg Page) :
  (let r := run env (rollbackOperation operationId) c in
   run env (rollbackOperation operationId) (snd r)
   = (Returned VUndefined, snd r))
  /\ (forall operation,
        let r := run env (backgroundSync operationId operation) c in
        run env (rollbackOperation operationId) (snd r)
        = (Returned VUndefined, snd r))
  /\ (forall b c1,
        advance env (rollbackOperation operationId) c = (Suspended b, c1) ->
        instantResponse (st c1) = instantResponse (st c)).
Proof.
  split; [ | split ].
  - cbv zeta. apply rollbackOperation_of_unknown_id.
    apply rollbackOperation_forgets.
  - intros operation. cbv zeta. apply rollbackOperation_of_unknown_id.
    cbn. apply lookup_delete_eq.
  - intros b c1.
    unfold rollbackOperation, this, gets, update, modify, mbind, Prog_bind.
    cbn [bind advance].
    destruct (optimisticUpdates (instantResponse (st c)) !! operationId)
      as [[[f | ] result] | ]; try discriminate.
    match goal with |- advance env (bind ?q ?k) c = _ -> _ =>
      assert (safe instantResponse q) as Hsafe;
        [ | pose proof (advance_keeps instantResponse env q Hsafe c)
              as Hkeep;
            destruct (advance env q c) as [[[[] | e] | b0] c0] eqn:Hq ]
    end.
    + apply (safe_try_catch instantResponse);
        [ | intros error; apply safe_console_error ].
      apply safe_bind; [ | intros _; apply safe_console_log ].
      destruct f as [ | g];
        [ apply (safe_await instantResponse) | ]; apply safe_call_rollback.
    + erewrite advance_bind_returned by exact Hq. discriminate.
    + erewrite advance_bind_threw by exact Hq. discriminate.
    + match goal with |- advance env (bind ?q ?k) c = _ -> _ =>
        destruct (advance_bind_suspended env q k c c0 b0 Hq) as (b1 & ->)
      end.
      intros Heq. apply (f_equal snd) in Heq. cbn [snd] in *.
      rewrite <- Heq. exact Hkeep.
Qed.

Lemma completed_rollback_is_not_repeated_witness :
  instantResponse
    (st (snd (advance (env_of healthy_world) (rollbackOperation "17")
                (start page_with_update))))
  = instantResponse (st (start page_with_update)).
Proof.
  eapply (proj2 (proj2 (completed_rollback_is_not_repeated
                          (env_of healthy_world) "17"
                          (start page_with_update)))).
  reflexivity.
Defined.

End InstantResponseRest.

(** ** The wrappers of [apiRequest], together *)

Section Together.
Import RealtimeSyncObject.

(** X19.  After [setEnabled(false)], [executeOperation] is
    [await apiCall()] and nothing more: no operation id is added, the
    refresh callback and the registered callbacks are not called, and
    the call completes as [apiCall] does, at once when the call of
    [apiCall] throws and one turn of the event loop after its promise
    has settled otherwise. *)
Theorem disabled_sync_passes_operations_through (env : Env)
    (operationType : string) (apiCall : Callee Page JsVal)
    (refreshCallback : option (Callee Page JsVal)) (c : Cfg Page) :
  let c1 :=
    observe (Console LogLevel [VStr "实时同步"; VStr "已禁用"])
      (set_st (over_realtimeSync (set_isEnabled false)) c) in
  let r := run env (invoke apiCall) c1 in
  let disabled :=
    run env (RealtimeSync.setEnabled false;;
             RealtimeSync.executeOperation operationType apiCall
               refreshCallback) c in
  fst disabled = fst r
  /\ match run env apiCall c1 with
     | (Returned _, _) => snd disabled = answered Yield tt (snd r)
     | (Threw _, _) => snd disabled = snd r
     end.
Proof.
  intros c1 r disabled.
  assert (disabled = run env (await_of apiCall) c1) as ->.
  { subst disabled.
    unfold RealtimeSync.setEnabled, RealtimeSync.executeOperation,
      RealtimeSync.update, RealtimeSync.this, modify, gets, console_log,
      mbind, Prog_bind.
    cbn [bind run]. fold c1.
    change (isEnabled (realtimeSync (st c1))) with false. reflexivity. }
  subst r. rewrite run_await_of, run_invoke.
  destruct (run env apiCall c1) as [[promise | e] c2]; cbn [fst snd]; auto.
Qed.

(** X20.  The two scripts both wrap [window.apiRequest].  In either
    order, a modifying request through both wrappers completes as the
    original request does: it returns what the original returned and
    throws what the original threw, [null] and [undefined] excepted;
    the original runs after the clock was read twice, with the operation
    id pending. *)
Theorem both_wrappers_answer_as_the_original (env : Env)
    (originalApiRequest : ApiRequest)
    (endpoint : string) (options : Options) (body : JsVal) (c : Cfg Page) :
  RealtimeSync.isModifyingOperation (RealtimeSync.method_or_GET options)
  = true ->
  isEnabled (realtimeSync (st c)) = true ->
  let operationType :=
    RealtimeSync.getOperationType endpoint
      (RealtimeSync.method_or_GET options) in
  let through_catch (o : Outcome JsVal) : Outcome JsVal :=
    match o with
    | Returned result => Returned result
    | Threw error =>
        Threw (match get_prop error "message" with
               | inl _ => error
               | inr type_error => type_error
               end)
    end in
  let now1 := env Z DateNow (tick c) in
  let now2 := env Z DateNow (Datatypes.S (tick c)) in
  let in_progress := Console LogLevel [VStr "操作状态: 进行中... (info)"] in
  let add (now : Z) :=
    set_st (over_realtimeSync
              (set_pendingOperations (fun p =>
                 {[RealtimeSync.operationId_of operationType now]} ∪ p))) in
  let original :=
    invoke (originalApiRequest endpoint (Config.AsOptions options)
              VUndefined) in
  fst (run env
         (invoke
            (InstantResponse.wrapApiForInstantResponse
               (RealtimeSync.wrapApiRequest originalApiRequest)
               endpoint (Config.AsOptions options) body)) c)
  = through_catch
      (fst (run env original
              (observe in_progress
                 (add now2 (answered DateNow now2
                              (answered DateNow now1 c))))))
  /\ fst (run env
            (invoke
               (RealtimeSync.wrapApiRequest
                  (InstantResponse.wrapApiForInstantResponse
                     originalApiRequest)
                  endpoint (Config.AsOptions options) body)) c)
     = through_catch
         (fst (run env original
                 (answered DateNow now2
                    (observe in_progress
                       (add now1 (answered DateNow now1 c)))))).
Proof.
  intros Hmodifying Henabled operationType through_catch now1 now2
    in_progress add original.
  assert (forall o, through_catch (through_catch o) = through_catch o)
    as Htwice.
  { intros [result | error]; [ reflexivity | ].
    destruct error; reflexivity. }
  assert (forall (f : ApiRequest) c0,
            fst (run env
                   (invoke (RealtimeSync.wrapApiRequest f endpoint
                              (Config.AsOptions options) VUndefined)) c0)
            = fst (run env
                     (RealtimeSync.executeOperation operationType
                        (f endpoint (Config.AsOptions options) VUndefined)
                        (Some (async_function
                                 (RealtimeSync.refreshRelevantData
                                    operationType)))) c0)) as Hrealtime.
  { intros f c0.
    unfold RealtimeSync.wrapApiRequest, invoke, async_function, mbind,
      Prog_bind.
    cbn [bind RealtimeSync.requested_method]. rewrite Hmodifying.
    cbn [negb]. fold operationType. rewrite run_await. reflexivity. }
  assert (forall (f : ApiRequest) c0,
            fst (run env
                   (invoke (InstantResponse.wrapApiForInstantResponse f
                              endpoint (Config.AsOptions options) VUndefined))
                   c0)
            = fst (run env
                     (InstantResponse.optimisticUpdate
                        (RealtimeSync.method_or_GET options +:+ " "
                         +:+ endpoint)
                        (f endpoint (Config.AsOptions options) VUndefined)
                        (Some InstantResponseObject.RefreshCurrentSection))
                     c0)) as Hinstant.
  { intros f c0.
    unfold InstantResponse.wrapApiForInstantResponse, invoke,
      async_function, mbind, Prog_bind.
    cbn [bind RealtimeSync.requested_method]. rewrite Hmodifying.
    cbn [negb]. rewrite run_await. reflexivity. }
  split.
  - change (InstantResponse.wrapApiForInstantResponse
              (RealtimeSync.wrapApiRequest originalApiRequest)
              endpoint (Config.AsOptions options) body)
      with (InstantResponse.wrapApiForInstantResponse
              (RealtimeSync.wrapApiRequest originalApiRequest)
              endpoint (Config.AsOptions options) VUndefined).
    rewrite Hinstant, optimisticUpdate_outcome. fold now1.
    rewrite Hrealtime.
    rewrite (executeOperation_outcome env operationType
               (originalApiRequest endpoint (Config.AsOptions options)
                  VUndefined)
               (answered DateNow now1 c) Henabled).
    apply (Htwice (fst (run env original _))).
  - change (RealtimeSync.wrapApiRequest
              (InstantResponse.wrapApiForInstantResponse originalApiRequest)
              endpoint (Config.AsOptions options) body)
      with (RealtimeSync.wrapApiRequest
              (InstantResponse.wrapApiForInstantResponse originalApiRequest)
              endpoint (Config.AsOptions options) VUndefined).
    rewrite Hrealtime.
    rewrite (executeOperation_outcome env operationType _ c Henabled).
    fold now1.
    rewrite Hinstant, optimisticUpdate_outcome.
    apply (Htwice (fst (run env original _))).
Qed.

Lemma both_wrappers_answer_as_the_original_witness :
  fst (run (env_of healthy_world)
         (invoke
            (InstantResponse.wrapApiForInstantResponse
               (RealtimeSync.wrapApiRequest Window.apiRequest)
               "/api/registrations" (Config.AsOptions post_registration)
               VUndefined)) (start fresh_page))
  = Returned (VObj [("ok", VBool true)])
  /\ fst (run (env_of healthy_world)
            (invoke
               (RealtimeSync.wrapApiRequest
                  (InstantResponse.wrapApiForInstantResponse
                     Window.apiRequest)
                  "/api/registrations" (Config.AsOptions post_registration)
                  VUndefined)) (start fresh_page))
     = Returned (VObj [("ok", VBool true)]).
Proof.
  apply (both_wrappers_answer_as_the_original (env_of healthy_world)
           Window.apiRequest "/api/registrations" post_registration
           VUndefined (start fresh_page)).
  - reflexivity.
  - reflexivity.
Defined.

End Together.

(** ** How a refresh run reports *)

Section RefreshOutcome.
Import OnDemandRefresh.

Lemma getSectionsToRefresh_of_the_table (env : Env) (actionType : string)
    (targetSection : option string) (c : Cfg State) :
  ~ In actionType Object_prototype_keys ->
  exists sections c',
    run env (getSectionsToRefresh actionType targetSection) c
    = (Returned (Some sections), c').
Proof.
  intros Hproto. pose proof (eqb_not_in actionType _ Hproto) as Hkeys.
  unfold getSectionsToRefresh, getCurrentSection, mbind, Prog_bind.
  rewrite run_bind.
  assert (exists manual c',
            run env
              match targetSection with
              | Some t =>
                  if String.eqb t ""
                  then bind (ext ActiveSectionId) (fun activeSection =>
                         match activeSection with
                         | Some id => Ret (Js.replace "section-" "" id)
                         | None => Ret "booking"
                         end)
                  else Ret t
              | None =>
                  bind (ext ActiveSectionId) (fun activeSection =>
                    match activeSection with
                    | Some id => Ret (Js.replace "section-" "" id)
                    | None => Ret "booking"
                    end)
              end c = (Returned manual, c')) as (manual & c' & ->).
  { destruct targetSection as [t | ]; [ destruct (String.eqb t "") | ];
      cbn; try destruct (env _ ActiveSectionId (tick c)); eauto. }
  cbn [run]. rewrite Hkeys.
  repeat match goal with |- context [if ?b then _ else _] => destruct b end;
    eauto.
Qed.

Lemma refreshBody_succeeds (env : Env) (actionType : string)
    (targetSection : option string) (c : Cfg State) :
  (forall f args n e, env _ (Call f args) n <> Rejected e) ->
  ~ In actionType Object_prototype_keys ->
  exists c3,
    run env (refreshBody actionType targetSection) c
    = (Returned tt, snd (run env (showRefreshComplete actionType) c3)).
Proof.
  intros Hresolved Hproto.
  assert (rejections (fun _ => False) env) as Hrej
    by (intros f args n e Hcall; exact (Hresolved f args n e Hcall)).
  unfold refreshBody, mbind, Prog_bind.
  rewrite run_bind. unfold console_log at 1. cbn [run].
  rewrite run_bind.
  destruct (getSectionsToRefresh_of_the_table env actionType targetSection
              (observe (Console LogLevel
                          [VStr ("用户操作后刷新: " +:+ actionType)]) c)
              Hproto) as (sections & c2 & ->).
  rewrite run_bind.
  match goal with |- context [run env (for_of sections ?body) c2] =>
    destruct (run env (for_of sections body) c2) as [[[] | e] c3] eqn:Hloop
  end.
  - exists c3. unfold showRefreshComplete, showToast, console_log.
    reflexivity.
  - exfalso.
    eapply (throws_only_for_of (fun _ => False)); [ | exact Hloop ].
    intros section.
    apply throws_only_bind; [ intros c4 e4 c5 H; discriminate | ].
    intros [ | ]; [ | intros c4 e4 c5 H; discriminate ].
    apply throws_only_bind; [ | intros _ c4 e4 c5 H; discriminate ].
    apply throws_only_await, throws_only_refreshSection, Hrej.
Qed.

(** X21.  When no function of the page rejects, a run that starts, for an
    action type that is not the name of an inherited property, returns
    with [isRefreshing] reset and its last word on the console is the
    toast of [showRefreshComplete], never the one of
    [showRefreshError]. *)
Theorem refresh_run_reports_success (env : Env) (actionType : string)
    (targetSection : option string) (c : Cfg State) :
  isRefreshing (st c) = false ->
  (forall f args n e, env _ (Call f args) n <> Rejected e) ->
  ~ In actionType Object_prototype_keys ->
  let r := run env (refreshAfterUserAction actionType targetSection) c in
  fst r = Returned VUndefined
  /\ isRefreshing (st (snd r)) = false
  /\ hd_error (trace (snd r))
     = hd_error (trace (snd (run env (showRefreshComplete actionType) c))).
Proof.
  intros Hidle Hresolved Hproto r.
  destruct (refreshBody_succeeds env actionType targetSection
              (set_st (set_isRefreshing true) c) Hresolved Hproto)
    as (c3 & Hbody).
  assert (r = (Returned VUndefined,
               set_st (set_isRefreshing false)
                 (snd (run env (showRefreshComplete actionType) c3))))
    as ->.
  { subst r. unfold refreshAfterUserAction, mbind, Prog_bind.
    cbn [bind get run]. rewrite Hidle. cbn [bind modify run].
    rewrite run_bind, run_try_finally, run_try_catch, Hbody.
    reflexivity. }
  repeat split.
Qed.

Lemma refresh_run_reports_success_witness :
  let r := run (env_of healthy_world)
             (refreshAfterUserAction "create_registration" None)
             (start constructor) in
  fst r = Returned VUndefined
  /\ isRefreshing (st (snd r)) = false
  /\ hd_error (trace (snd r))
     = hd_error (trace (snd (run (env_of healthy_world)
                               (showRefreshComplete "create_registration")
                               (start constructor)))).
Proof.
  apply (refresh_run_reports_success (env_of healthy_world)
           "create_registration" None (start constructor)).
  - reflexivity.
  - intros f args n e. discriminate.
  - cbn. intuition discriminate.
Defined.

End RefreshOutcome.

(** ** Methods in lower case *)

Section LowerCase.
Import RealtimeSync.

(** X22.  A request whose method is spelled in lower case, like [post],
    is a modifying one for [wrapApiRequest], which upper-cases the
    method, but not for [getOperationType], which does not: unless the
    path contains [cancel], the operation is a [general_operation].  For
    it [refreshRelevantData] calls no loader of its own: the functions
    of the page that it calls are those that
    [window.onDemandRefresh.refreshCurrentSection] calls, and none on a
    page without [window.onDemandRefresh]. *)
Theorem lower_case_methods_reload_nothing
    (originalApiRequest : ApiRequest)
    (endpoint : string) (options : Options) (body : JsVal) :
  isModifyingOperation (method_or_GET options) = true ->
  ~ In (method_or_GET options) ["POST"; "PUT"; "DELETE"] ->
  includes "cancel" (toLowerCase endpoint) = false ->
  wrapApiRequest originalApiRequest endpoint (Config.AsOptions options) body
  = async_function
      (await (executeOperation "general_operation"
                (originalApiRequest endpoint (Config.AsOptions options)
                   VUndefined)
                (Some (async_function
                         (refreshRelevantData "general_operation")))))
  /\ (forall env (c : Cfg Page),
        calls (trace (snd (run env (refreshRelevantData "general_operation")
                             c)))
        = match onDemandRefresh (st c) with
          | Some _ =>
              calls (trace (snd (run env
                                   (on_onDemandRefresh
                                      OnDemandRefresh.refreshCurrentSection)
                                   c)))
          | None => calls (trace c)
          end).
Proof.
  intros Hmodifying Hexact Hcancel. split.
  - unfold wrapApiRequest. cbn [requested_method].
    rewrite Hmodifying. cbn [negb].
    assert (getOperationType endpoint (method_or_GET options)
            = "general_operation") as ->; [ | reflexivity ].
    assert (String.eqb (method_or_GET options) "POST" = false
            /\ String.eqb (method_or_GET options) "PUT" = false
            /\ String.eqb (method_or_GET options) "DELETE" = false)
      as (H1 & H2 & H3).
    { repeat split; apply String.eqb_neq; intros Heq; apply Hexact;
        rewrite Heq; cbn; auto. }
    unfold getOperationType. rewrite H1, H2, H3, Hcancel.
    destruct (includes "registration" (toLowerCase endpoint)),
      (includes "patient" (toLowerCase endpoint)),
      (includes "doctor" (toLowerCase endpoint)); reflexivity.
  - intros env c. unfold refreshRelevantData, get, mbind, Prog_bind.
    cbn [is_registration_operation is_patient_operation is_doctor_operation
         existsb String.eqb Ascii.eqb Bool.eqb orb bind try_catch run].
    destruct (onDemandRefresh (st c)) as [refresh | ]; [ | reflexivity ].
    rewrite run_bind, run_try_catch, run_bind, run_await.
    destruct (run env
                (on_onDemandRefresh OnDemandRefresh.refreshCurrentSection) c)
      as [[v | e] c1]; reflexivity.
Qed.

Lemma lower_case_methods_reload_nothing_witness :
  let options := {| method := Some "post"; body := None; headers := None |} in
  wrapApiRequest Window.apiRequest "/api/registrations"
    (Config.AsOptions options) VUndefined
  = async_function
      (await (executeOperation "general_operation"
                (Window.apiRequest "/api/registrations"
                   (Config.AsOptions options) VUndefined)
                (Some (async_function
                         (refreshRelevantData "general_operation")))))
  /\ (forall env (c : Cfg Page),
        calls (trace (snd (run env (refreshRelevantData "general_operation")
                             c)))
        = match onDemandRefresh (st c) with
          | Some _ =>
              calls (trace (snd (run env
                                   (on_onDemandRefresh
                                      OnDemandRefresh.refreshCurrentSection)
                                   c)))
          | None => calls (trace c)
          end).
Proof.
  apply (lower_case_methods_reload_nothing Window.apiRequest
           "/api/registrations"
           {| method := Some "post"; body := None; headers := None |}
           VUndefined).
  - reflexivity.
  - cbn. intuition discriminate.
  - reflexivity.
Defined.

End LowerCase.
